(* ===== verification/_CoqProject ===== *)
-Q . S2P
Prelude.v
Text.v
Blocks.v
GoRuntime.v
Proto.v
World.v
Time.v
Protocol.v
Stubs.v
Render.v
Pipeline.v
Sandbox.v
ReadBack.v
Commands.v
Contract.v
