(* ===== verification/Prelude.v ===== *)
(** * Verification of the cri-o pod-sandbox client (cmd/client/sandbox.go)

    The program is the [pod] command group of the cri-o command-line client:
    five subcommands (create, stop, remove, status, list) that each open a
    connection to the runtime service, issue one remote call built from the
    command-line flags, and print the answer as text.  All of it is the
    single file [src/cmd/client/sandbox.go]: the command table (lines 12 to
    161) and the five functions the commands call (lines 163 to 309).

    ** Files, in dependency order

    - [Prelude] (this file): what every other file shares.  The newline and
      tab strings, lemmas on string concatenation, on the width of decimal
      renderings and on rotations of lists, the tactic [by_compute]
      and the hint and rewrite database [go].
    - [Text]: readers of text, one per format the program writes with: a
      line without its line feed ([unline]), what follows a prefix
      ([after_prefix]), a number in decimal ([read_N]), a text cut at its
      line feeds ([split_lines]); each with the equation that reading
      what was written gives what was meant.  They are not part of the
      program.
    - [Blocks]: the relation [blockwise] between two texts that differ by
      the order of the entry lines inside blocks only, generated by the
      exchange of two adjacent lines that start with a tab; an
      equivalence, a congruence for concatenation, finer than permutation
      ([blockwise_fixed]: every other line stays where it is).
    - [GoRuntime]: the part of the Go language the client relies on, as a
      small monad.  [Go W A] is a computation over a world [W] that ends by
      returning a value ([Ret]), by returning a non-nil error ([Err]) or by
      a run-time panic ([Panic]).  [deref] is the dereference of a pointer
      that may be nil, [defer] runs a deferred call on every exit path,
      [wrap_err] is the test of a callee's error followed by the return of
      a wrapped one, [for_each] is a range loop over a slice.  The monad
      laws hold up to the pointwise equivalence of computations, with
      [mbind] a morphism for it.  [loop_exec] is the big-step semantics of
      a range loop, with the number of iterations made; [for_each] is
      total for it and the only run it allows.
    - [Proto]: Module [pb], the protocol messages of the runtime service
      (metadata, configuration, status snapshot, list entry, the five
      requests and responses) with absent proto2 fields as [None] and a nil
      map distinct from an empty one, the class [RuntimeServiceClient]
      (five operations over a service state), [wf_request], what the
      service requires of a request (a configuration for a creation, a
      non-empty identifier for stop, remove and status), [serve], the five
      operations as one function from requests to responses,
      [wf_response], what the service promises of an answer (the
      identifiers), and the class of laws [ServiceContract]: an invariant
      the service never leaves, well-formed answers, failed calls and
      observations (status, list) that change nothing.
    - [World]: the world a process of the client runs in.  Its [trace] is
      the sequence of observable events (connection dialled or refused,
      connection closed, file read, remote call issued, bytes written to
      standard output); the class [Host] supplies what the machine decides
      (the order in which a map is ranged over, the local rendering of a
      timestamp, the content of the configuration file, whether the service
      can be reached).  [Printf], [Println], [range], [rpc],
      [loadPodSandboxConfig], [getClientConnection] and [conn_Close] are
      the calls of the source.
    - [Time]: a model of the two functions of Go's package [time] the
      source calls on a creation time, [time.Unix] and [Time.String].
      The package is a library, not code of [src/]: the file follows its
      documented behaviour and is what the hosts [utc_host] and
      [local_host] print with.  [civil_of_unix] is
      [time.Unix(sec, 0)] read as a date and a time of day of the
      proleptic Gregorian calendar, [unix_of_civil] its inverse,
      [utc_String] the text [Time.String] gives on a machine in UTC,
      [zone_String] the text in a zone with an offset and an
      abbreviation, [local_String] the text on a machine whose zone
      changes its offset at given instants ([location], [zone_at]);
      [read_utc] and [read_zoned] are the readers of these texts.
    - [Protocol]: the protocol of a connection as an automaton over traces
      ([conn_step], the relation [protocol], the function [conn_run] that
      decides it), [quiescent] worlds (the trace follows the protocol and
      no connection is open) and [answered] traces (every dial is followed
      by a close), with their behaviour under concatenation.
    - [Stubs]: executable instances of the two classes (a service that
      answers from a table, a service that fails every call, a host with a
      rotating map order, a host that ranges in the order of the keys, a
      host in the zone UTC, a host in a zone with daylight saving time, a
      host that cannot reach the service) and sample data.  The theorems hold for every instance; the stubs are
      the concrete inputs they are applied to.  The table service is
      proved to keep [ServiceContract] on each of its invariants
      [table_all P], for every property [P] of a sandbox that is
      [Lasting].
    - [Render]: the abstract specification of the text the client prints: a
      [rendering] is the lines written, the number of map traversals made
      and the panic that stopped it, if any; renderings compose with [+++],
      which is a monoid.  [status_rendering] and [items_rendering] are the
      specifications of the status and list commands.  [refines] and
      [prints] relate a computation to a rendering, and compose along the
      structure of the code (tactics [prints_go], [refines_go],
      [refines_by]).  Renderings are compared up to the order of the
      entries inside each block ([blockwise]) by an equivalence for which
      [+++] and the projections are morphisms.  [read_entry] reads the
      line of a map entry back.
    - [Pipeline]: the specification of one invocation as the pipeline of
      the design, stated once for the five subcommands and without the
      statements of the program: what the Request Builder makes of the
      flags ([build_create], [build_by_id], a value of [built]), the
      remote call ([serve]), what the Response Renderer prints
      ([render]), the events of the session in their order ([exchange]
      inside the connection, [session] around it), the way it ends (a
      [verdict], whose failures are the four kinds of the error taxonomy,
      [failure], with their texts, [message]) and the table of the group
      ([pod_lines], [pod_spec]).  [printable] is the safety condition of
      the renderer: the answers that print without a crash; [visited] is
      the number of entries the loop of a listing visits.  The
      definitions of this file are specifications, not translations of
      the source: the theorems of [Sandbox] and [Commands] prove the
      translations equal to them.
    - [Sandbox]: the five functions [RunPodSandbox], [StopPodSandbox],
      [RemovePodSandbox], [PodSandboxStatus] and [ListPodSandboxes],
      translated statement by statement, with their theorems; each is
      proved to be the exchange of its line of the pipeline.
    - [ReadBack]: readers of the output of the status and list commands
      ([read_status], [read_pods], [read_ids]), built from a reader per
      kind of line, and the theorems that what a command printed reads
      back as what the service sent, on any host whose creation times
      read back and in particular on a machine in a zone with daylight
      saving time.
    - [Commands]: Module [cli], the types of the command-line framework the
      table is written with (flags with defaults, the context an action
      reads them from, commands and the dispatch to a subcommand); the six
      command values of the source with their flags; the five [Action]
      closures; [with_connection], the shape the five closures share;
      [invoke], [script] and [reaches], the runs of several subcommands one
      after the other on the same machine; the theorems that read the
      group against the pipeline.
    - [Contract]: the theorems that need the service to keep its word,
      proved from the laws of [ServiceContract] for every service that has
      them, at every world a sequence of invocations reaches; the
      discharge of the assumptions for the table service.

    ** How the model corresponds to the code

    A Go function [f(args) error] is a definition [f args : Go World ()]:
    [Ret ()] is [return nil], [Err e] is [return err].  An error value is
    the string its [Error()] method gives.  A proto2 field of pointer type is
    an [option]; a dereference is [deref p], which panics on [None] the way
    Go does on a nil pointer.  [fmt.Printf] and [fmt.Println] append one
    [EvWrite] event each, carrying the bytes written.  [for k, v := range m]
    asks the host for the order, which is some permutation of the entries of
    the map and may differ at each traversal (the world counts traversals in
    [seed]).  [defer conn.Close()] is [defer conn_Close body].  The [client]
    argument of the five functions is the instance of [RuntimeServiceClient]
    in the context.  [uint32] and [int64] fields are [N] and [Z]; the client
    performs no arithmetic on them, and the range they lie in is the
    predicate [wf_metadata].  The creation time is printed through the
    host ([time_String]); the host [utc_host] prints it with [utc_String],
    the host [local_host l] with [local_String l].

    ** What the theorems show

    - The pipeline (Commands, Pipeline): the command group is the pipeline
      ([commands_refine_pipeline]): a name is a subcommand exactly when
      the pipeline has a line for it, and the closure then returns what
      the session of the line reports and leaves the world it leaves, in
      every world, for every host and service.  Read against the
      pipeline, every error a subcommand returns is the message of one
      kind of failure with the events that kind allows
      ([failures_classified]), and a subcommand panics exactly when its
      builder crashes or the answer is not [printable], always on a nil
      dereference ([commands_crash_iff]).
    - The contract (Contract): against a service that keeps
      [ServiceContract], at every world a sequence of invocations reaches,
      no subcommand panics (status and the full list need answers more
      complete than the contract promises, the others do not), an
      invocation that fails has changed nothing, and status and list leave
      the service as they found it and print the same text when run again,
      up to the order of the entries.
    - Refinement (Sandbox, Commands): when the service answers,
      [PodSandboxStatus] and [ListPodSandboxes] have exactly the effects of
      [status_rendering] and [items_rendering], for every host and service,
      panics included; the status and list commands, from the dial to the
      close, add to the trace the dial, the call, one write per line of
      the rendering and the close.
    - Validation (Sandbox): an empty identifier is refused before any event
      happens.
    - Request construction (Sandbox): the request received by the service
      carries the identifier unchanged; the name given on the command line
      replaces the name of the loaded configuration exactly when it is not
      empty, and no other field changes; the list request has no filter;
      every function issues at most one call, and every request issued is
      well formed ([wf_request]).
    - Termination (Sandbox, GoRuntime): the loop of the listing has a run
      in the big-step semantics whose number of iterations is fixed by the
      answer ([list_loop_stops]): one per entry when every entry can be
      printed, otherwise one per entry up to and including the first that
      cannot, where the listing panics having printed nothing of the
      entries that follow.
    - Failure (Sandbox, Render): a loader error or a remote error is
      returned as it is, with nothing printed; a missing field that the code
      dereferences without a test ends in a panic after the lines that
      precede it, and [status_complete] says exactly which statuses print
      without panic.
    - Renderings (Render, Sandbox): [printMap] writes nothing for a nil
      map and, for any other, the header and each entry exactly once
      ([printMap_entries]), and the lines printed read back as the map
      when no key holds a space; a list entry is printed as the status with the same
      fields; two runs print the same text up to the order of the entries
      inside each block, every other line at the same position
      ([output_up_to_order] in Sandbox carries this to the functions), and
      on a host with a fixed map order, such as the one that ranges in the
      order of the keys, the same lines in the same order; a bound on the
      size of what [printMetadata] writes, which rests on the width of
      the attempt count ([printMetadata_bounded]).
    - Round trips (ReadBack): the lines the status command writes for a
      complete status read back as that status, and the lines of a full
      listing as its entries, whatever the order of the maps; the lines
      of a quiet listing read back as the identifiers; the only
      thing the text does not show is a metadata block with no field set.
      The conditions are the ones under which the format is unambiguous:
      no space in a key, no line feed in a string (for the bytes to
      determine the lines), a creation time the reader of the machine
      understands.  On a machine in a zone whose offsets are numbers of
      minutes the last condition holds for every creation time whose
      local year has four digits ([status_reads_back_local]).
    - Commands (Commands): every subcommand leaves no connection open, on
      every path (the trace follows the protocol dial, inner events, close),
      closes every connection it dials, and issues at most one remote call,
      between the dial and the close; the same holds after any sequence of
      runs, by induction on [reaches]; the successful sessions of create,
      stop and remove, event by event; a failed dial is reported behind its
      prefix and nothing else happens; the error of a function is returned
      behind the prefix of its command; a panic still closes the
      connection.
    - Time (Time): lemmas on the model of the library, which the round
      trip of the status in a zone rests on.  The conversions between
      seconds and calendar dates are
      inverse of each other, every date produced is valid, the text of a
      creation time between the years 0 and 9999 has 29 characters in UTC
      and reads back as the number of seconds in every zone whose offsets
      are numbers of minutes, daylight saving time included: the offset
      printed tells the two instants of a repeated hour apart.  The sign
      of a printed offset is that of its number of whole minutes, as in
      the library, so an offset of less than a minute to the west prints
      as +0000.

    ** Bounds and fuel

    No definition of the program needs fuel: every loop ranges over a
    finite slice or map and is a structural [Fixpoint] over a list, and the
    calendar conversions are closed formulas on [Z].  The reader of a
    listing, [read_pods], takes fuel, one unit per entry read: every entry
    has at least one line, so the number of lines is always enough, and
    the theorem gives the result for any fuel that is at least that.  Integers are
    unbounded [N] and [Z] with their machine range as a hypothesis where a
    theorem depends on it (the width of a printed attempt count, the width
    of a printed year).

    ** What is a translation and what is a specification

    The definitions of [Sandbox] and [Commands] and the combinators of
    [GoRuntime] and [World] translate the statements of the source and
    are mapped to its lines.  The renderings of [Render] restate the
    printing statements as the text they produce and are mapped to the
    same lines.  The messages and classes of [Proto], the helpers of
    package main that are outside [src/], Module [cli] and the functions
    of [Time] model code that is not in [src/].  [Pipeline], [Blocks],
    [Protocol], the readers of [Text] and [ReadBack] and the stubs are
    specifications and instruments of the proofs: they model no code.

    ** Not modelled

    The remote service itself, the gRPC transport and the encoding of the
    messages, the decoding of the configuration file, the parsing of the
    argument vector, the help text of the framework and the exit of the
    process are outside [src/]; they appear as the classes
    [RuntimeServiceClient], [ServiceContract] and [Host] and as Module
    [cli].  A write to standard output always succeeds: the program drops
    the error [fmt.Printf] returns, and the model has no event for a
    failed write.  The calendar rendering of a timestamp
    ([time.Time.String]) is a function of the host; the zone of the
    machine is a parameter ([location]: the offsets in force and the
    instants they change at), the file format of the zone database is not
    modelled.  The wrap-around of [time.Unix] for seconds near the limits of
    [int64] is left out: [civil_of_unix] is the exact date on [Z]. *)

From stdpp Require Export base tactics option list strings gmap pretty
  sorting.
From Stdlib Require Export Ascii.

(** * Characters the formats of the program use *)

(** The line feed, written "\n" in the Go source. *)
Definition nl : string := String (ascii_of_nat 10) "".

(** The horizontal tab, written "\t" in the Go source. *)
Definition tab : string := String (ascii_of_nat 9) "".

(** * Strings *)

Lemma string_app_cons (c : ascii) (s t : string) :
  String c s +:+ t = String c (s +:+ t).
Proof. reflexivity. Qed.

Lemma string_app_assoc (s1 s2 s3 : string) :
  (s1 +:+ s2) +:+ s3 = s1 +:+ s2 +:+ s3.
Proof.
  induction s1 as [|c s1 IH]; [done|]. by rewrite !string_app_cons, IH.
Qed.

Lemma string_app_nil_r (s : string) : s +:+ "" = s.
Proof. induction s as [|c s IH]; [done|]. by rewrite string_app_cons, IH. Qed.

Lemma string_length_app (s1 s2 : string) :
  String.length (s1 +:+ s2) = String.length s1 + String.length s2.
Proof.
  induction s1 as [|c s1 IH]; [done|]. rewrite string_app_cons. simpl. lia.
Qed.

(** Appending the same suffix is injective (the prefix version is stdpp's
    [String.app_inj]). *)
Lemma string_app_inj_r (s1 s2 t : string) : s1 +:+ t = s2 +:+ t → s1 = s2.
Proof.
  revert s2; induction s1 as [|c s1 IH]; intros [|d s2] H; [done|..];
    rewrite ?string_app_cons in H; change ("" +:+ t) with t in H.
  - apply (f_equal String.length) in H; simpl in H.
    rewrite string_length_app in H; lia.
  - apply (f_equal String.length) in H; simpl in H.
    rewrite string_length_app in H; lia.
  - injection H as -> H. by rewrite (IH _ H).
Qed.

(** * Decimal rendering *)

(** A number below [10 ^ k] is rendered with at most [k] digits. *)
Lemma length_pretty_N_go (k : nat) (x : N) (s : string) :
  (x < 10 ^ N.of_nat k)%N →
  String.length (pretty_N_go x s) ≤ String.length s + k.
Proof.
  revert x s. induction k as [|k IH]; intros x s Hx.
  { change (10 ^ N.of_nat 0)%N with 1%N in Hx.
    assert (x = 0%N) as -> by lia. rewrite pretty_N_go_0. lia. }
  destruct (decide (x = 0%N)) as [->|Hx0]; [rewrite pretty_N_go_0; lia|].
  rewrite pretty_N_go_step by lia.
  etrans; [apply IH|simpl; lia].
  rewrite Nat2N.inj_succ, N.pow_succ_r' in Hx.
  apply N.Div0.div_lt_upper_bound. lia.
Qed.

Lemma length_pretty_N (k : nat) (x : N) :
  0 < k → (x < 10 ^ N.of_nat k)%N → String.length (pretty x) ≤ k.
Proof.
  intros Hk Hx. unfold pretty, pretty_N. case_decide; [simpl; lia|].
  by apply (length_pretty_N_go k x "").
Qed.

(** * Lists *)

(** A rotation is a permutation: the map orders of the executable host. *)
Lemma rotate_Permutation {A} (n : nat) (l : list A) : rotate n l ≡ₚ l.
Proof.
  unfold rotate. rewrite Permutation_app_comm. by rewrite take_drop.
Qed.

(** * Automation *)

(** A decidable proposition without variables, proved by running its
    decision procedure. *)
Ltac by_compute := apply (bool_decide_unpack _); vm_compute; exact I.

(** The database [go] collects the equations of the runtime and of the
    components: [autorewrite with go] normalises a run of monadic code. *)
Create HintDb go discriminated.
Create Rewrite HintDb go.

#[export] Hint Rewrite string_app_nil_r @app_nil_r @app_nil_l : go.
#[export] Hint Rewrite <- @app_assoc : go.
