(* ===== verification/Text.v ===== *)
(** * Text: reading back what the formats of the program write

    The program writes text: lines that end with a line feed, fields behind
    a label, numbers in decimal.  The functions of this file read such text
    back, one inverse per format, with the equation that reading what was
    written gives what was meant.  They are not part of the program: they
    are how the development states that its output loses nothing. *)

From S2P Require Import Prelude.

(** ** Lines *)

(** The text of a line before its final line feed; [None] if the string
    does not end with a line feed. *)
Fixpoint unline (s : string) : option string :=
  match s with
  | EmptyString => None
  | String c s' =>
      if decide (s' = "") then
        if decide (c = ascii_of_nat 10) then Some "" else None
      else String c <$> unline s'
  end.

(** ** Prefixes *)

(** What follows the prefix [p] in [s]; [None] if [s] does not start with
    [p]. *)
Fixpoint after_prefix (p s : string) : option string :=
  match p, s with
  | EmptyString, _ => Some s
  | String a p', String b s' =>
      if decide (a = b) then after_prefix p' s' else None
  | String _ _, EmptyString => None
  end.

(** [p] and [q] differ at a position both have: neither is a prefix of a
    string that starts with the other. *)
Fixpoint differ (p q : string) : bool :=
  match p, q with
  | String a p', String b q' =>
      if decide (a = b) then differ p' q' else true
  | _, _ => false
  end.

(** The first [n] characters of [s] and what follows them; [None] if [s]
    is shorter. *)
Fixpoint take_n (n : nat) (s : string) : option (string * string) :=
  match n, s with
  | O, _ => Some ("", s)
  | S n', String c s' => prod_map (String c) id <$> take_n n' s'
  | S _, EmptyString => None
  end.

(** The text before the first space of [s], and the text after it. *)
Fixpoint split_space (s : string) : option (string * string) :=
  match s with
  | EmptyString => None
  | String c s' =>
      if decide (c = " "%char) then Some ("", s')
      else prod_map (String c) id <$> split_space s'
  end.

(** No character of [s] is a space. *)
Fixpoint spaceless (s : string) : bool :=
  match s with
  | EmptyString => true
  | String c s' => bool_decide (c ≠ " "%char) && spaceless s'
  end.

(** ** Decimal numbers *)

Definition digit (c : ascii) : option N := N.of_nat <$> Ascii.is_nat c.

(** The number the digits of [s] denote after those read so far, whose
    value is [acc]. *)
Fixpoint read_N_go (acc : N) (s : string) : option N :=
  match s with
  | EmptyString => Some acc
  | String c s' => d ← digit c; read_N_go (acc * 10 + d) s'
  end.

Definition read_N : string → option N := read_N_go 0.

(** A string of [n] zeros. *)
Fixpoint zeros (n : nat) : string :=
  match n with
  | O => ""
  | S n' => String "0" (zeros n')
  end.

(** ** The stream of bytes *)

(** What reaches standard output: the strings written, one after the
    other. *)
Definition text (ls : list string) : string := foldr String.app "" ls.

(** No character of [s] is a line feed. *)
Fixpoint lineless (s : string) : bool :=
  match s with
  | EmptyString => true
  | String c s' => bool_decide (c ≠ ascii_of_nat 10) && lineless s'
  end.

(** A text cut after each of its line feeds. *)
Fixpoint split_lines (s : string) : list string :=
  match s with
  | EmptyString => []
  | String c s' =>
      if decide (c = ascii_of_nat 10) then nl :: split_lines s'
      else match split_lines s' with
           | [] => [String c ""]
           | l :: ls => String c l :: ls
           end
  end.

(** A string that is one line: a text without line feed, then a line
    feed. *)
Definition one_line (l : string) : Prop := ∃ v, l = v +:+ nl ∧ lineless v.

(** ** Reading what was written *)

Lemma unline_line (v : string) : unline (v +:+ nl) = Some v.
Proof.
  induction v as [|c v IH]; [done|]. rewrite string_app_cons. simpl.
  rewrite IH. case_decide as Hv; [|done].
  apply (f_equal String.length) in Hv. rewrite string_length_app in Hv.
  simpl in Hv. lia.
Qed.

Lemma after_prefix_app p s : after_prefix p (p +:+ s) = Some s.
Proof. induction p as [|c p IH]; [done|]. simpl. by case_decide. Qed.

(** A string that starts with [q] does not start with a [p] that differs
    from [q]. *)
Lemma after_prefix_differ p q s : differ p q → after_prefix p (q +:+ s) = None.
Proof.
  revert q. induction p as [|a p IH]; intros [|b q]; try done.
  simpl. case_decide; [apply IH|done].
Qed.

Lemma take_n_app s t : take_n (String.length s) (s +:+ t) = Some (s, t).
Proof. induction s as [|c s IH]; [done|]. simpl. by rewrite IH. Qed.

Lemma split_space_app k r :
  spaceless k → split_space (k +:+ String " " r) = Some (k, r).
Proof.
  induction k as [|c k IH]; [done|]. simpl.
  intros [Hc Hk%IH]%andb_prop_elim. apply bool_decide_unpack in Hc.
  case_decide; [done|]. by rewrite Hk.
Qed.

Lemma digit_pretty_N_char x : (x < 10)%N → digit (pretty_N_char x) = Some x.
Proof.
  intros Hx.
  assert (x = 0 ∨ x = 1 ∨ x = 2 ∨ x = 3 ∨ x = 4 ∨ x = 5 ∨ x = 6 ∨ x = 7
          ∨ x = 8 ∨ x = 9)%N as H by lia.
  by repeat (destruct H as [->|H]; [done|]); subst.
Qed.

(** The digits of a number, read after digits of value [acc], continue
    it: the value read is [acc] shifted by the digits of [x], plus [x]. *)
Lemma read_N_go_pretty x :
  ∃ p, ∀ acc s, read_N_go acc (pretty_N_go x s) = read_N_go (acc * p + x) s.
Proof.
  induction (N.lt_wf_0 x) as [x _ IH].
  destruct (decide (x = 0%N)) as [->|Hx].
  { exists 1%N. intros. rewrite pretty_N_go_0. f_equal. lia. }
  destruct (IH (x `div` 10)%N) as [p Hp]; [apply N.div_lt; lia|].
  exists (p * 10)%N. intros acc s.
  rewrite pretty_N_go_step, Hp by lia. simpl.
  rewrite digit_pretty_N_char by (apply N.mod_lt; lia). simpl.
  f_equal. pose proof (N.div_mod x 10). lia.
Qed.

Lemma read_N_pretty (x : N) : read_N (pretty x) = Some x.
Proof.
  unfold pretty, pretty_N. case_decide as Hx; [by subst|].
  destruct (read_N_go_pretty x) as [p Hp]. unfold read_N. by rewrite Hp.
Qed.

(** Zeros in front do not change the number read. *)
Lemma read_N_zeros n s : read_N (zeros n +:+ s) = read_N s.
Proof. induction n as [|n IH]; [done|]. exact IH. Qed.

Lemma length_zeros n : String.length (zeros n) = n.
Proof. induction n as [|n IH]; simpl; [done|by rewrite IH]. Qed.

(** ** Lines in the stream of bytes *)

Lemma lineless_app s t : lineless (s +:+ t) = lineless s && lineless t.
Proof.
  induction s as [|c s IH]; [done|]. rewrite string_app_cons. simpl.
  by rewrite IH, andb_assoc.
Qed.

Lemma split_lines_line v rest :
  lineless v → split_lines (v +:+ nl +:+ rest) = (v +:+ nl) :: split_lines rest.
Proof.
  induction v as [|c v IH]; [done|]. simpl.
  intros [Hc Hv%IH]%andb_prop_elim. apply bool_decide_unpack in Hc.
  rewrite string_app_cons. simpl. rewrite decide_False by done. by rewrite Hv.
Qed.

(** Lines written one after the other are recovered from the bytes. *)
(** The bytes of a list of lines are those of its parts. *)
Lemma length_text_app ls1 ls2 :
  String.length (text (ls1 ++ ls2)) =
  String.length (text ls1) + String.length (text ls2).
Proof.
  induction ls1 as [|l ls1 IH]; [done|]. cbn [app text foldr].
  fold (text (ls1 ++ ls2)) (text ls1). rewrite !string_length_app, IH. lia.
Qed.

Lemma split_lines_text ls : Forall one_line ls → split_lines (text ls) = ls.
Proof.
  induction 1 as [|l ls (v & -> & Hv) _ IH]; [done|]. cbn [text foldr].
  fold (text ls). by rewrite string_app_assoc, split_lines_line, IH.
Qed.

(** A decimal number holds no line feed. *)
Lemma lineless_pretty_N_go x s : lineless s → lineless (pretty_N_go x s).
Proof.
  revert s. induction (N.lt_wf_0 x) as [x _ IH]; intros s Hs.
  destruct (decide (x = 0%N)) as [->|Hx]; [by rewrite pretty_N_go_0|].
  rewrite pretty_N_go_step by lia. apply IH; [apply N.div_lt; lia|].
  simpl. apply andb_prop_intro. split; [|done]. apply bool_decide_pack.
  unfold pretty_N_char. by repeat case_match.
Qed.

Lemma lineless_pretty_N (x : N) : lineless (pretty x).
Proof.
  unfold pretty, pretty_N. case_decide; [done|].
  by apply lineless_pretty_N_go.
Qed.
