(* ===== verification/Blocks.v ===== *)
(** * Blocks: lines up to the order inside the blocks of entries

    The program prints a map as a header line followed by one line per
    entry, each of which starts with a tab, in the order of the traversal
    of the map, which the language leaves open.  Two outputs of the same
    command on the same answer may therefore differ, but only so: entry
    lines that follow each other may have changed places.  [blockwise] is
    that relation: the equivalence generated by exchanging two adjacent
    entry lines.  It is finer than being a permutation: every line that is
    not an entry is at the same position in both texts. *)

From S2P Require Import Prelude Text.

(** A line of a block of entries: it starts with a tab. *)
Definition is_entry (l : string) : Prop := is_Some (after_prefix tab l).

#[export] Instance is_entry_dec l : Decision (is_entry l).
Proof. unfold is_entry. apply _. Defined.

(** One step: two adjacent entry lines change places. *)
Inductive swap_entries : relation (list string) :=
| swap_here e1 e2 ls :
    is_entry e1 → is_entry e2 →
    swap_entries (e1 :: e2 :: ls) (e2 :: e1 :: ls)
| swap_later l ls1 ls2 :
    swap_entries ls1 ls2 → swap_entries (l :: ls1) (l :: ls2).

(** Any number of steps. *)
Definition blockwise : relation (list string) := rtc swap_entries.

(** The same line, or two entry lines. *)
Definition same_or_entries (l1 l2 : string) : Prop :=
  l1 = l2 ∨ (is_entry l1 ∧ is_entry l2).

Lemma is_entry_tab rest : is_entry (tab +:+ rest).
Proof. unfold is_entry. by rewrite after_prefix_app. Qed.

#[export] Instance swap_entries_sym : Symmetric swap_entries.
Proof. induction 1; by constructor. Qed.

#[export] Instance blockwise_equivalence : Equivalence blockwise.
Proof.
  split; [apply _| |apply _]. intros ls1 ls2 H.
  induction H as [|ls1 ls2 ls3 H _ IH]; [done|].
  etrans; [exact IH|]. by apply rtc_once.
Qed.

Lemma blockwise_cons l ls1 ls2 :
  blockwise ls1 ls2 → blockwise (l :: ls1) (l :: ls2).
Proof. apply (rtc_congruence (R:=swap_entries) (cons l)). by constructor. Qed.

Lemma swap_entries_app_r ls1 ls2 ls :
  swap_entries ls1 ls2 → swap_entries (ls1 ++ ls) (ls2 ++ ls).
Proof. induction 1; simpl; by constructor. Qed.

#[export] Instance blockwise_app :
  Proper (blockwise ==> blockwise ==> blockwise) (++).
Proof.
  intros a a' Ha b b' Hb. trans (a' ++ b).
  - apply (rtc_congruence (R:=swap_entries) (λ x, x ++ b)); [|done].
    intros ??. apply swap_entries_app_r.
  - clear Ha. induction a' as [|l a' IH]; [done|]. by apply blockwise_cons.
Qed.

(** A block of entries may be printed in any order. *)
Lemma blockwise_entries es1 es2 :
  Forall is_entry es1 → es1 ≡ₚ es2 → blockwise es1 es2.
Proof.
  intros Hes Hp. induction Hp as [|e es1 es2 _ IH|e1 e2 es|es1 es2 es3 Hp1 IH1 _ IH2].
  - done.
  - apply blockwise_cons, IH. by eapply Forall_inv_tail.
  - apply rtc_once. inversion_clear Hes as [|?? H1 H2].
    inversion_clear H2. by constructor.
  - etrans; [by apply IH1|]. apply IH2. by rewrite <-Hp1.
Qed.

(** The relation only permutes. *)
#[export] Instance blockwise_Permutation : subrelation blockwise (≡ₚ).
Proof.
  intros ls1 ls2 H. induction H as [|ls1 ls2 ls3 H _ IH]; [done|].
  etrans; [|exact IH]. clear IH. induction H; [apply perm_swap|by constructor].
Qed.

#[export] Instance same_or_entries_refl : Reflexive same_or_entries.
Proof. by left. Qed.

#[export] Instance same_or_entries_trans : Transitive same_or_entries.
Proof. unfold same_or_entries. intros l1 l2 l3 [->|[??]] [<-|[??]]; auto. Qed.

(** A line that is not an entry stays where it is: at every position the
    two texts have the same line, or two entry lines. *)
Lemma blockwise_fixed ls1 ls2 :
  blockwise ls1 ls2 → Forall2 same_or_entries ls1 ls2.
Proof.
  intros H. induction H as [ls|ls1 ls2 ls3 H _ IH]; [done|].
  etrans; [|exact IH]. clear IH.
  induction H; repeat constructor; by auto.
Qed.
