(* ===== verification/GoRuntime.v ===== *)
(** * GoRuntime: the fragment of Go the client is written in

    Computations of type [Go W A] run over a world [W] and end in one of
    three ways: a normal return, the return of a non-nil [error], or a
    run-time panic.  The combinators are the statements the program uses:
    sequencing, early return of an error, dereference of a pointer that may
    be nil, deferred calls, range loops over slices, and wrapping of a
    callee's error.  A range loop has a big-step semantics of its own,
    [loop_exec], which counts the iterations made; the loop function
    [for_each] is total for it and determined by it. *)

From S2P Require Import Prelude.

(** A Go [error] is observed through its [Error()] string only. *)
Definition error : Type := string.

(** The message of the panic raised by a nil dereference. *)
Definition nil_deref : string :=
  "runtime error: invalid memory address or nil pointer dereference".

(** How a call ends. *)
Inductive outcome (A : Type) : Type :=
| Ret (a : A)
| Err (e : error)
| Panic (p : string).
Arguments Ret {A} a.
Arguments Err {A} e.
Arguments Panic {A} p.

#[export] Instance outcome_eq_dec `{EqDecision A} : EqDecision (outcome A).
Proof. solve_decision. Defined.

(** A value paired with an [error], as Go functions return them:
    [Success a] is [(a, nil)] and [Failure e] is [(nil, e)]. *)
Inductive result (A : Type) : Type :=
| Success (a : A)
| Failure (e : error).
Arguments Success {A} a.
Arguments Failure {A} e.

#[export] Instance result_eq_dec `{EqDecision A} : EqDecision (result A).
Proof. solve_decision. Defined.

(** The outcome with its error, if any, rewritten by [h]. *)
Definition map_err {A} (h : error → error) (o : outcome A) : outcome A :=
  match o with
  | Err e => Err (h e)
  | _ => o
  end.

Definition Go (W A : Type) : Type := W → outcome A * W.

#[export] Instance Go_ret {W} : MRet (Go W) := λ A a w, (Ret a, w).

#[export] Instance Go_bind {W} : MBind (Go W) := λ A B f m w,
  match m w with
  | (Ret a, w') => f a w'
  | (Err e, w') => (Err e, w')
  | (Panic p, w') => (Panic p, w')
  end.

(** Two computations are equivalent when they agree on every world. *)
#[export] Instance Go_equiv {W A} : Equiv (Go W A) := λ m1 m2, ∀ w, m1 w = m2 w.

Section Combinators.
Context {W : Type}.

(** [return err] with [err != nil]. *)
Definition raise {A} (e : error) : Go W A := λ w, (Err e, w).

(** A run-time panic. *)
Definition panic {A} (p : string) : Go W A := λ w, (Panic p, w).

(** [*p]: the pointee, or the panic of a nil dereference. *)
Definition deref {A} (p : option A) : Go W A :=
  match p with
  | Some a => mret a
  | None => panic nil_deref
  end.

(** [if p != nil { ... }], the body using the pointee. *)
Definition if_nonnil {A} (p : option A) (k : A → Go W ()) : Go W () :=
  match p with
  | Some a => k a
  | None => mret ()
  end.

(** [(a, err)] received from a callee and tested by [if err != nil
    { return err }]. *)
Definition check {A} (r : result A) : Go W A :=
  match r with
  | Success a => mret a
  | Failure e => raise e
  end.

(** A state update that cannot fail. *)
Definition modify (f : W → W) : Go W () := λ w, (Ret (), f w).

(** [defer cleanup(); body]: the deferred call runs when the body is left,
    by return or by panic.  Its own results are dropped; if it panics, that
    panic is the one the caller sees. *)
Definition defer {A} (cleanup : Go W ()) (body : Go W A) : Go W A := λ w,
  let '(o, w1) := body w in
  match cleanup w1 with
  | (Panic p, w2) => (Panic p, w2)
  | (_, w2) => (o, w2)
  end.

(** [err := callee(); if err != nil { return h(err) }]. *)
Definition wrap_err {A} (h : error → error) (m : Go W A) : Go W A := λ w,
  let '(o, w') := m w in (map_err h o, w').

(** [for _, x := range l { body }] over a slice. *)
Fixpoint for_each {A} (l : list A) (body : A → Go W ()) : Go W () :=
  match l with
  | [] => mret ()
  | x :: l' => body x ;; for_each l' body
  end.

(** The executions of [for _, x := range l { body }]: the number of times
    the body ran, the outcome and the world at the exit.  There is one rule
    per way out of the loop: the slice is exhausted, or the body returns an
    error, or it panics. *)
Inductive loop_exec {A} (body : A → Go W ()) :
    list A → W → nat → outcome () → W → Prop :=
| loop_done w : loop_exec body [] w 0 (Ret ()) w
| loop_next x l w w1 n o w2 :
    body x w = (Ret (), w1) → loop_exec body l w1 n o w2 →
    loop_exec body (x :: l) w (S n) o w2
| loop_err x l w e w1 :
    body x w = (Err e, w1) → loop_exec body (x :: l) w 1 (Err e) w1
| loop_panic x l w p w1 :
    body x w = (Panic p, w1) → loop_exec body (x :: l) w 1 (Panic p) w1.

(** The number of times the loop runs its body. *)
Fixpoint iterations {A} (l : list A) (body : A → Go W ()) (w : W) : nat :=
  match l with
  | [] => 0
  | x :: l' =>
      match body x w with
      | (Ret _, w1) => S (iterations l' body w1)
      | _ => 1
      end
  end.

(** ** Equations of the monad *)

Lemma run_bind {A B} (m : Go W A) (f : A → Go W B) (w : W) :
  (m ≫= f) w =
  match m w with
  | (Ret a, w') => f a w'
  | (Err e, w') => (Err e, w')
  | (Panic p, w') => (Panic p, w')
  end.
Proof. reflexivity. Qed.

Lemma run_bind_Ret {A B} (m : Go W A) (f : A → Go W B) w a w' :
  m w = (Ret a, w') → (m ≫= f) w = f a w'.
Proof. intros H. by rewrite run_bind, H. Qed.

Lemma run_bind_Err {A B} (m : Go W A) (f : A → Go W B) w e w' :
  m w = (Err e, w') → (m ≫= f) w = (Err e, w').
Proof. intros H. by rewrite run_bind, H. Qed.

Lemma run_bind_Panic {A B} (m : Go W A) (f : A → Go W B) w p w' :
  m w = (Panic p, w') → (m ≫= f) w = (Panic p, w').
Proof. intros H. by rewrite run_bind, H. Qed.

Lemma run_ret {A} (a : A) (w : W) : (mret a : Go W A) w = (Ret a, w).
Proof. reflexivity. Qed.

Lemma run_modify (f : W → W) (w : W) : modify f w = (Ret (), f w).
Proof. reflexivity. Qed.

(** A successful run of a sequence splits into successful runs. *)
Lemma bind_Ret_inv {A B} (m : Go W A) (f : A → Go W B) w b w2 :
  (m ≫= f) w = (Ret b, w2) →
  ∃ a w1, m w = (Ret a, w1) ∧ f a w1 = (Ret b, w2).
Proof.
  rewrite run_bind. destruct (m w) as [[a|e|p] w1]; [eauto|done..].
Qed.

#[export] Instance Go_equivalence {A} : Equivalence (≡@{Go W A}).
Proof.
  split; [by intros m w|by intros m1 m2 H w|].
  intros m1 m2 m3 H1 H2 w. by rewrite H1.
Qed.

#[export] Instance bind_proper {A B} :
  Proper (pointwise_relation A (≡) ==> (≡) ==> (≡@{Go W B})) mbind.
Proof.
  intros f g Hfg m1 m2 Hm w. rewrite !run_bind, Hm.
  destruct (m2 w) as [[a|e|p] w']; [apply Hfg|done..].
Qed.

Lemma bind_ret_l {A B} (a : A) (f : A → Go W B) : mret a ≫= f ≡ f a.
Proof. by intros w. Qed.

Lemma bind_ret_r {A} (m : Go W A) : m ≫= mret ≡ m.
Proof. intros w. rewrite run_bind. by destruct (m w) as [[a|e|p] w']. Qed.

Lemma bind_assoc {A B C} (m : Go W A) (f : A → Go W B) (g : B → Go W C) :
  (m ≫= f) ≫= g ≡ m ≫= (λ a, f a ≫= g).
Proof. intros w. rewrite !run_bind. by destruct (m w) as [[a|e|p] w']. Qed.

(** ** Loops *)

Lemma for_each_app {A} (l1 l2 : list A) (body : A → Go W ()) :
  for_each (l1 ++ l2) body ≡ (for_each l1 body ;; for_each l2 body).
Proof.
  induction l1 as [|x l1 IH]; simpl; [by rewrite bind_ret_l|].
  rewrite bind_assoc. by setoid_rewrite IH.
Qed.

(** A loop whose body only updates the world performs the updates in
    order. *)
Lemma for_each_modify {A} (l : list A) (f : A → W → W) (w : W) :
  for_each l (λ x, modify (f x)) w = (Ret (), foldl (λ w x, f x w) w l).
Proof. revert w; induction l as [|x l IH]; intros w; simpl; [done|apply IH]. Qed.

(** *** Termination of range loops

    [loop_exec] is a relation: a priori a loop could have no execution, or
    several.  It has exactly one, the one [for_each] computes, and it runs
    the body at most once per element. *)

Lemma for_each_cons {A} (x : A) l (body : A → Go W ()) w :
  for_each (x :: l) body w =
  match body x w with
  | (Ret _, w1) => for_each l body w1
  | (Err e, w1) => (Err e, w1)
  | (Panic p, w1) => (Panic p, w1)
  end.
Proof. reflexivity. Qed.

(** Every loop has an execution. *)
Lemma for_each_loop_exec {A} (l : list A) (body : A → Go W ()) w :
  loop_exec body l w (iterations l body w)
    (for_each l body w).1 (for_each l body w).2.
Proof.
  revert w; induction l as [|x l IH]; intros w; [constructor|].
  rewrite for_each_cons. simpl.
  destruct (body x w) as [[[]|e|p] w1] eqn:Hx;
    [eapply loop_next; [done|apply IH]|by constructor..].
Qed.

(** Every execution is the one [for_each] computes. *)
Lemma loop_exec_for_each {A} (l : list A) (body : A → Go W ()) w n o w' :
  loop_exec body l w n o w' →
  for_each l body w = (o, w') ∧ iterations l body w = n.
Proof.
  induction 1 as [w|x l w w1 n o w2 Hx _ [IH1 IH2]|x l w e w1 Hx
                 |x l w p w1 Hx]; [done|..];
    rewrite for_each_cons; simpl; rewrite Hx; [|done..].
  by rewrite IH1, IH2.
Qed.

Lemma iterations_le {A} (l : list A) (body : A → Go W ()) w :
  iterations l body w ≤ length l.
Proof.
  revert w; induction l as [|x l IH]; intros w; simpl; [lia|].
  destruct (body x w) as [[[]|e|p] w1]; [specialize (IH w1)|..]; lia.
Qed.

(** A loop that completes has visited every element. *)
Lemma iterations_Ret {A} (l : list A) (body : A → Go W ()) w :
  (for_each l body w).1 = Ret () → iterations l body w = length l.
Proof.
  revert w; induction l as [|x l IH]; intros w; [done|].
  rewrite for_each_cons. simpl.
  destruct (body x w) as [[[]|e|p] w1]; [|done..]. intros H. by rewrite IH.
Qed.

(** ** Wrapped errors and deferred calls *)

Lemma run_wrap_err {A} (h : error → error) (m : Go W A) (w : W) :
  wrap_err h m w = (map_err h (m w).1, (m w).2).
Proof. unfold wrap_err. by destruct (m w). Qed.

(** A deferred update is applied whatever the outcome of the body. *)
Lemma run_defer_modify {A} (f : W → W) (body : Go W A) (w : W) :
  defer (modify f) body w = ((body w).1, f (body w).2).
Proof. unfold defer. by destruct (body w). Qed.

End Combinators.

#[export] Hint Rewrite @run_ret @run_modify : go.
