(* ===== verification/Proto.v ===== *)
(** * Proto: the messages and the contract of the runtime service

    The records follow the protocol package the client imports as [pb]
    (proto2: every scalar field is a pointer, absent when nil).  A field of
    type [*T] is an [option T]; a [map[string]string] is an optional finite
    map, [None] being the nil map, which the program distinguishes from an
    empty one.  Field names carry a prefix per message, since the messages
    share field names.  The messages are those of the package, which is
    outside the repository: their shape follows the specification and the
    uses the client makes of them.  The contract has two sides: what the
    service requires of a request ([wf_request]) and what it promises of
    its answers and of its state ([wf_response], [ServiceContract]). *)

From S2P Require Import Prelude GoRuntime.

(** The module is named after the package, so that the messages read
    [pb.PodSandboxStatus] as in the source, apart from the function
    [PodSandboxStatus] of the client. *)
Module pb.

(** ** Sandbox metadata: name, uid, namespace and attempt count ([uint32]). *)
Record PodSandboxMetadata : Type := mkMetadata {
  md_Name : option string;
  md_Uid : option string;
  md_Namespace : option string;
  md_Attempt : option N;
}.

(** The attempt count is a 32-bit unsigned integer. *)
Definition wf_metadata (md : PodSandboxMetadata) : Prop :=
  ∀ a, md_Attempt md = Some a → (a < 2 ^ 32)%N.

(** ** The configuration sent at creation: the metadata and the
    runtime-specific settings, which the client passes on untouched. *)
Record PodSandboxConfig : Type := mkConfig {
  cfg_Metadata : option PodSandboxMetadata;
  cfg_Runtime : gmap string string;
}.

(** ** Lifecycle state, owned by the service. *)
Inductive PodSandBoxState : Type := UNKNOWN | READY | NOT_READY.

(** The symbolic name [String()] gives. *)
Definition PodSandBoxState_String (s : PodSandBoxState) : string :=
  match s with
  | UNKNOWN => "UNKNOWN"
  | READY => "READY"
  | NOT_READY => "NOT_READY"
  end.

(** The verb [%s] applied to a pointer to a state: the symbolic name, or
    the text the formatter prints for a nil pointer. *)
Definition state_text (s : option PodSandBoxState) : string :=
  match s with
  | Some s => PodSandBoxState_String s
  | None => "<nil>"
  end.

Record Namespace : Type := mkNamespace { ns_Network : option string }.

Record LinuxPodSandboxStatus : Type := mkLinux {
  lx_Namespaces : option Namespace;
}.

Record PodSandboxNetworkStatus : Type := mkNetwork { net_Ip : option string }.

(** ** The status snapshot returned by [PodSandboxStatus]. *)
Record PodSandboxStatus : Type := mkStatus {
  st_Id : option string;
  st_Metadata : option PodSandboxMetadata;
  st_State : option PodSandBoxState;
  st_CreatedAt : option Z;
  st_Network : option PodSandboxNetworkStatus;
  st_Linux : option LinuxPodSandboxStatus;
  st_Labels : option (gmap string string);
  st_Annotations : option (gmap string string);
}.

(** ** One entry of a list response: a status without the network and
    Linux details. *)
Record PodSandbox : Type := mkPodSandbox {
  pod_Id : option string;
  pod_Metadata : option PodSandboxMetadata;
  pod_State : option PodSandBoxState;
  pod_CreatedAt : option Z;
  pod_Labels : option (gmap string string);
  pod_Annotations : option (gmap string string);
}.

(** ** Requests and responses of the five operations. *)
Record RunPodSandboxRequest : Type := mkRunReq {
  run_Config : option PodSandboxConfig;
}.
Record RunPodSandboxResponse : Type := mkRunResp {
  run_PodSandboxId : option string;
}.
Record StopPodSandboxRequest : Type := mkStopReq {
  stop_PodSandboxId : option string;
}.
Inductive StopPodSandboxResponse : Type := mkStopResp.
Record RemovePodSandboxRequest : Type := mkRemoveReq {
  remove_PodSandboxId : option string;
}.
Inductive RemovePodSandboxResponse : Type := mkRemoveResp.
Record PodSandboxStatusRequest : Type := mkStatusReq {
  status_PodSandboxId : option string;
}.
Record PodSandboxStatusResponse : Type := mkStatusResp {
  status_Status : option PodSandboxStatus;
}.
Record PodSandboxFilter : Type := mkFilter {
  flt_Id : option string;
  flt_State : option PodSandBoxState;
}.
Record ListPodSandboxRequest : Type := mkListReq {
  list_Filter : option PodSandboxFilter;
}.
Record ListPodSandboxResponse : Type := mkListResp {
  list_Items : list (option PodSandbox);
}.

(** A request of any of the five operations, as the trace records it. *)
Inductive request : Type :=
| ReqRun (r : RunPodSandboxRequest)
| ReqStop (r : StopPodSandboxRequest)
| ReqRemove (r : RemovePodSandboxRequest)
| ReqStatus (r : PodSandboxStatusRequest)
| ReqList (r : ListPodSandboxRequest).

(** ** Well-formed requests

    What the service requires of a request: the configuration of a
    creation is present and its attempt count fits its 32 bits; the
    identifier of a stop, a removal or a status request is present and not
    empty.  A list request has no required field. *)

Definition wf_config (c : PodSandboxConfig) : Prop :=
  ∀ md, cfg_Metadata c = Some md → wf_metadata md.

Definition wf_id (id : option string) : Prop :=
  ∃ s, id = Some s ∧ s ≠ "".

Definition wf_request (rq : request) : Prop :=
  match rq with
  | ReqRun r => ∃ c, run_Config r = Some c ∧ wf_config c
  | ReqStop r => wf_id (stop_PodSandboxId r)
  | ReqRemove r => wf_id (remove_PodSandboxId r)
  | ReqStatus r => wf_id (status_PodSandboxId r)
  | ReqList _ => True
  end.

(** ** Decidable equality of every message *)

#[export] Instance PodSandboxMetadata_eq_dec : EqDecision PodSandboxMetadata.
Proof. solve_decision. Defined.
#[export] Instance PodSandboxConfig_eq_dec : EqDecision PodSandboxConfig.
Proof. solve_decision. Defined.
#[export] Instance PodSandBoxState_eq_dec : EqDecision PodSandBoxState.
Proof. solve_decision. Defined.
#[export] Instance Namespace_eq_dec : EqDecision Namespace.
Proof. solve_decision. Defined.
#[export] Instance LinuxPodSandboxStatus_eq_dec :
  EqDecision LinuxPodSandboxStatus.
Proof. solve_decision. Defined.
#[export] Instance PodSandboxNetworkStatus_eq_dec :
  EqDecision PodSandboxNetworkStatus.
Proof. solve_decision. Defined.
#[export] Instance PodSandboxStatus_eq_dec : EqDecision PodSandboxStatus.
Proof. solve_decision. Defined.
#[export] Instance PodSandbox_eq_dec : EqDecision PodSandbox.
Proof. solve_decision. Defined.
#[export] Instance PodSandboxFilter_eq_dec : EqDecision PodSandboxFilter.
Proof. solve_decision. Defined.
#[export] Instance RunPodSandboxRequest_eq_dec :
  EqDecision RunPodSandboxRequest.
Proof. solve_decision. Defined.
#[export] Instance StopPodSandboxRequest_eq_dec :
  EqDecision StopPodSandboxRequest.
Proof. solve_decision. Defined.
#[export] Instance RemovePodSandboxRequest_eq_dec :
  EqDecision RemovePodSandboxRequest.
Proof. solve_decision. Defined.
#[export] Instance PodSandboxStatusRequest_eq_dec :
  EqDecision PodSandboxStatusRequest.
Proof. solve_decision. Defined.
#[export] Instance ListPodSandboxRequest_eq_dec :
  EqDecision ListPodSandboxRequest.
Proof. solve_decision. Defined.
#[export] Instance request_eq_dec : EqDecision request.
Proof. solve_decision. Defined.

#[export] Instance wf_metadata_dec md : Decision (wf_metadata md).
Proof.
  unfold wf_metadata. destruct (md_Attempt md) as [a|].
  - destruct (decide (a < 2 ^ 32)%N); [left|right]; naive_solver.
  - left. naive_solver.
Defined.

#[export] Instance wf_config_dec c : Decision (wf_config c).
Proof.
  unfold wf_config. destruct (cfg_Metadata c) as [md|].
  - destruct (decide (wf_metadata md)); [left|right]; naive_solver.
  - left. naive_solver.
Defined.

#[export] Instance wf_id_dec id : Decision (wf_id id).
Proof.
  unfold wf_id. destruct id as [s|]; [|right; by intros (? & ? & ?)].
  destruct (decide (s = "")) as [->|Hs];
    [right; by intros (? & [= <-] & ?)|left; by exists s].
Defined.

#[export] Instance wf_request_dec rq : Decision (wf_request rq).
Proof.
  destruct rq as [[[c|]]| | | |]; simpl; try apply _;
    [|right; by intros (? & ? & ?)].
  destruct (decide (wf_config c));
    [left; by exists c|right; by intros (? & [= <-] & ?)].
Defined.

(** The symbolic names of the states are pairwise distinct. *)
#[export] Instance PodSandBoxState_String_inj : Inj (=) (=) PodSandBoxState_String.
Proof. by intros [] [] H; simplify_eq. Qed.

(** ** The contract of the remote service

    [RuntimeServiceClient S] is what the client assumes of the service: five
    operations, each taking a request and a service state [S] to a response
    or an error and a new service state.  Nothing else is known of the
    service; the theorems about the client hold for every instance. *)
Class RuntimeServiceClient (S : Type) : Type := {
  client_RunPodSandbox :
    RunPodSandboxRequest → S → result RunPodSandboxResponse * S;
  client_StopPodSandbox :
    StopPodSandboxRequest → S → result StopPodSandboxResponse * S;
  client_RemovePodSandbox :
    RemovePodSandboxRequest → S → result RemovePodSandboxResponse * S;
  client_PodSandboxStatus :
    PodSandboxStatusRequest → S → result PodSandboxStatusResponse * S;
  client_ListPodSandbox :
    ListPodSandboxRequest → S → result ListPodSandboxResponse * S;
}.

(** An answer of the service, of any of the five operations. *)
Inductive response : Type :=
| RespRun (r : RunPodSandboxResponse)
| RespStop (r : StopPodSandboxResponse)
| RespRemove (r : RemovePodSandboxResponse)
| RespStatus (r : PodSandboxStatusResponse)
| RespList (r : ListPodSandboxResponse).

(** The identifier a request names, if it names one. *)
Definition request_id (rq : request) : option string :=
  match rq with
  | ReqStop r => stop_PodSandboxId r
  | ReqRemove r => remove_PodSandboxId r
  | ReqStatus r => status_PodSandboxId r
  | ReqRun _ | ReqList _ => None
  end.

(** The requests that only observe the service. *)
Definition observes (rq : request) : Prop :=
  match rq with
  | ReqStatus _ | ReqList _ => True
  | ReqRun _ | ReqStop _ | ReqRemove _ => False
  end.

Definition answer {A S} (f : A → response) (x : result A * S) :
    result response * S :=
  (match x.1 with Success a => Success (f a) | Failure e => Failure e end,
   x.2).

(** The five operations as one: the answer to a request of any kind. *)
Definition serve {S : Type} {client : RuntimeServiceClient S}
    (rq : request) (s : S) :
    result response * S :=
  match rq with
  | ReqRun r => answer RespRun (client_RunPodSandbox r s)
  | ReqStop r => answer RespStop (client_StopPodSandbox r s)
  | ReqRemove r => answer RespRemove (client_RemovePodSandbox r s)
  | ReqStatus r => answer RespStatus (client_PodSandboxStatus r s)
  | ReqList r => answer RespList (client_ListPodSandbox r s)
  end.

(** What the service promises of an entry of a list. *)
Definition wf_item (item : option PodSandbox) : Prop :=
  ∃ pod, item = Some pod ∧ is_Some (pod_Id pod).

(** What the service promises of its answer to [rq]: a creation returns
    an identifier; a status request is answered by the status of the
    sandbox it names, with its identifier; every entry of a list is there
    and carries its identifier.  Every other field may be absent. *)
Definition wf_response (rq : request) (resp : response) : Prop :=
  match resp with
  | RespRun r => is_Some (run_PodSandboxId r)
  | RespStop _ | RespRemove _ => True
  | RespStatus r =>
      ∃ st id, status_Status r = Some st ∧ st_Id st = Some id ∧
               request_id rq = Some id
  | RespList r => Forall wf_item (list_Items r)
  end.

(** ** What the client may assume of the service

    [ServiceContract client inv]: on the states that satisfy [inv], which
    the service never leaves, a successful answer is well formed, a call
    that fails changes nothing (an operation is all or nothing), and a
    status or list request changes nothing either (a status is a read-only
    snapshot).  The theorems of [Contract] are proved from these laws
    alone; [Stubs] discharges them for the service that keeps a table. *)
Class ServiceContract {S : Type} (client : RuntimeServiceClient S)
    (inv : S → Prop) : Prop := {
  serve_inv rq s : inv s → inv (serve rq s).2;
  serve_wf rq s resp s' :
    inv s → serve rq s = (Success resp, s') → wf_response rq resp;
  serve_failure rq s e s' :
    inv s → serve rq s = (Failure e, s') → s' = s;
  serve_observes rq s : inv s → observes rq → (serve rq s).2 = s;
}.

End pb.

Export pb.
