(* ===== verification/World.v ===== *)
(** * World: what a process of the client observes and changes

    A process runs against a [World]: the trace of the events it has caused
    so far, the state of the remote service, and the count of map traversals
    made so far.  What the machine decides is the class [Host].  The
    primitives below are the library calls of the program ([fmt.Println],
    [fmt.Printf], a range over a map, the five remote calls, the connection
    and the configuration loader). *)

From S2P Require Import Prelude GoRuntime Proto.

(** ** Events *)

Inductive event : Type :=
| EvDial                      (* a connection to the service was opened *)
| EvDialFailed (e : error)    (* the service could not be reached *)
| EvClose                     (* the connection was closed *)
| EvLoad (path : string)      (* the configuration file was read *)
| EvCall (rq : request)       (* a remote call was issued *)
| EvWrite (s : string).       (* bytes were written to standard output *)

#[export] Instance event_eq_dec : EqDecision event.
Proof. solve_decision. Defined.

(** ** The host of the process *)

Class Host : Type := {
  (** The order in which the [n]-th traversal of the process visits the
      entries of a map: unspecified by the language, so any permutation. *)
  range_order : nat → list (string * string) → list (string * string);
  range_order_perm n l : range_order n l ≡ₚ l;
  (** [time.Unix(sec, 0)] rendered by the verb [%v] in the local zone. *)
  time_String : Z → string;
  (** The configuration read from a path, or why it could not be. *)
  config_file : string → result PodSandboxConfig;
  (** Why the service cannot be reached, if it cannot. *)
  dial_error : option error;
}.

(** ** The world *)

Record World (S : Type) : Type := mkWorld {
  trace : list event;
  svc : S;
  seed : nat;
}.
Arguments mkWorld {S} trace svc seed.
Arguments trace {S} w.
Arguments svc {S} w.
Arguments seed {S} w.

Section World.
Context {S : Type}.
Implicit Types (w : World S) (ev : event) (ls : list string).

(** The world after one more event. *)
Definition record (ev : event) (w : World S) : World S :=
  mkWorld (trace w ++ [ev]) (svc w) (seed w).

(** The world after the lines [ls] were written, one write each. *)
Definition emit (ls : list string) (w : World S) : World S :=
  mkWorld (trace w ++ (EvWrite <$> ls)) (svc w) (seed w).

(** The world after [n] more map traversals. *)
Definition bump (n : nat) (w : World S) : World S :=
  mkWorld (trace w) (svc w) (seed w + n).

(** The world after the remote call [rq] moved the service to [s']. *)
Definition after_call (rq : request) (s' : S) (w : World S) : World S :=
  mkWorld (trace w ++ [EvCall rq]) s' (seed w).

(** What a trace wrote to standard output, and the calls it issued. *)
Definition writes (t : list event) : list string :=
  omap (λ ev, match ev with EvWrite s => Some s | _ => None end) t.

Definition calls (t : list event) : list request :=
  omap (λ ev, match ev with EvCall rq => Some rq | _ => None end) t.

Definition stdout (w : World S) : list string := writes (trace w).

(** The events a lifecycle function may cause while the connection is
    open: reads of the configuration, remote calls and writes. *)
Definition inner (ev : event) : Prop :=
  match ev with
  | EvLoad _ | EvCall _ | EvWrite _ => True
  | _ => False
  end.

#[export] Instance inner_dec ev : Decision (inner ev).
Proof. destruct ev; simpl; apply _. Defined.

(** [m] only appends inner events to the trace, at most one remote call
    among them. *)
Definition appends_inner {A} (m : Go (World S) A) : Prop :=
  ∀ w, ∃ evs, trace (m w).2 = trace w ++ evs ∧ Forall inner evs ∧
              length (calls evs) ≤ 1.

(** ** Primitives *)

Definition log (ev : event) : Go (World S) () := modify (record ev).

(** [fmt.Printf] with its verbs already expanded into [s]. *)
Definition Printf (s : string) : Go (World S) () := log (EvWrite s).

(** [fmt.Println(s)]. *)
Definition Println (s : string) : Go (World S) () := Printf (s +:+ nl).

(** The entries of [m] in the order a [range] statement visits them. *)
Definition range {host : Host} (m : gmap string string) :
    Go (World S) (list (string * string)) := λ w,
  (Ret (range_order (seed w) (map_to_list m)), bump 1 w).

(** A remote call: the request is recorded, the service moves to its next
    state, and the call returns the response or the error. *)
Definition rpc {A} (rq : request) (op : S → result A * S) : Go (World S) A :=
  λ w,
  let '(r, s') := op (svc w) in
  match r with
  | Success a => (Ret a, after_call rq s' w)
  | Failure e => (Err e, after_call rq s' w)
  end.

(** [loadPodSandboxConfig(path)]. *)
Definition loadPodSandboxConfig {host : Host} (path : string) :
    Go (World S) PodSandboxConfig :=
  log (EvLoad path) ;; check (config_file path).

(** [getClientConnection(context)]. *)
Definition getClientConnection {host : Host} : Go (World S) () :=
  match dial_error with
  | None => log EvDial
  | Some e => log (EvDialFailed e) ;; raise e
  end.

(** [conn.Close()]. *)
Definition conn_Close : Go (World S) () := log EvClose.

(** ** Equations of the world *)

Lemma emit_nil w : emit [] w = w.
Proof. destruct w. unfold emit. simpl. by rewrite app_nil_r. Qed.

Lemma emit_app ls1 ls2 w : emit (ls1 ++ ls2) w = emit ls2 (emit ls1 w).
Proof. unfold emit. simpl. by rewrite fmap_app, app_assoc. Qed.

Lemma bump_0 w : bump 0 w = w.
Proof. destruct w. unfold bump. simpl. by rewrite Nat.add_0_r. Qed.

Lemma bump_bump n1 n2 w : bump n2 (bump n1 w) = bump (n1 + n2) w.
Proof. unfold bump. simpl. by rewrite Nat.add_assoc. Qed.

Lemma bump_emit n ls w : bump n (emit ls w) = emit ls (bump n w).
Proof. reflexivity. Qed.

Lemma seed_emit ls w : seed (emit ls w) = seed w.
Proof. reflexivity. Qed.

Lemma seed_bump n w : seed (bump n w) = seed w + n.
Proof. reflexivity. Qed.

Lemma svc_emit ls w : svc (emit ls w) = svc w.
Proof. reflexivity. Qed.

Lemma svc_bump n w : svc (bump n w) = svc w.
Proof. reflexivity. Qed.

Lemma trace_emit ls w : trace (emit ls w) = trace w ++ (EvWrite <$> ls).
Proof. reflexivity. Qed.

Lemma trace_bump n w : trace (bump n w) = trace w.
Proof. reflexivity. Qed.

Lemma record_write s w : record (EvWrite s) w = emit [s] w.
Proof. reflexivity. Qed.

Lemma run_Printf s w : Printf s w = (Ret (), emit [s] w).
Proof. reflexivity. Qed.

Lemma run_Println s w : Println s w = (Ret (), emit [s +:+ nl] w).
Proof. reflexivity. Qed.

Lemma run_log ev w : log ev w = (Ret (), record ev w).
Proof. reflexivity. Qed.

Lemma run_rpc_Success {A} rq (op : S → result A * S) w a s' :
  op (svc w) = (Success a, s') → rpc rq op w = (Ret a, after_call rq s' w).
Proof. unfold rpc. by intros ->. Qed.

Lemma run_rpc_Failure {A} rq (op : S → result A * S) w e s' :
  op (svc w) = (Failure e, s') → rpc rq op w = (Err e, after_call rq s' w).
Proof. unfold rpc. by intros ->. Qed.

Lemma seed_after_call rq s' w : seed (after_call rq s' w) = seed w.
Proof. reflexivity. Qed.

Lemma trace_after_call rq s' w :
  trace (after_call rq s' w) = trace w ++ [EvCall rq].
Proof. reflexivity. Qed.

Lemma trace_record ev w : trace (record ev w) = trace w ++ [ev].
Proof. reflexivity. Qed.

(** A remote call followed by the code that uses its response. *)
Lemma run_rpc_bind {A B} rq (op : S → result A * S)
    (k : A → Go (World S) B) w :
  (rpc rq op ≫= k) w =
  match op (svc w) with
  | (Success a, s') => k a (after_call rq s' w)
  | (Failure e, s') => (Err e, after_call rq s' w)
  end.
Proof. rewrite run_bind. unfold rpc. by destruct (op (svc w)) as [[a|e] s']. Qed.

Lemma writes_app t1 t2 : writes (t1 ++ t2) = writes t1 ++ writes t2.
Proof. apply omap_app. Qed.

Lemma writes_EvWrite ls : writes (EvWrite <$> ls) = ls.
Proof. induction ls as [|l ls IH]; [done|]. simpl. f_equal. exact IH. Qed.

Lemma calls_app t1 t2 : calls (t1 ++ t2) = calls t1 ++ calls t2.
Proof. apply omap_app. Qed.

Lemma calls_EvWrite ls : calls (EvWrite <$> ls) = [].
Proof. induction ls as [|l ls IH]; [done|]. simpl. exact IH. Qed.

Lemma Forall_inner_EvWrite ls : Forall inner (EvWrite <$> ls).
Proof. apply Forall_fmap, Forall_true. done. Qed.

(** A run that leaves the trace as it is appends no event. *)
Lemma inner_nil (t : list event) :
  ∃ evs, t = t ++ evs ∧ Forall inner evs ∧ length (calls evs) ≤ 1.
Proof. exists []. rewrite app_nil_r. repeat split; [constructor|simpl; lia]. Qed.

(** The calls of a run that appends inner events. *)
Lemma appends_inner_calls {A} (m : Go (World S) A) w :
  appends_inner m →
  length (calls (trace (m w).2)) ≤ Datatypes.S (length (calls (trace w))).
Proof.
  intros Hm. destruct (Hm w) as (evs & -> & _ & Hevs).
  rewrite calls_app, length_app. lia.
Qed.

(** Standard output only grows by what is emitted; traversals and the
    service do not touch it. *)
Lemma stdout_emit ls w : stdout (emit ls w) = stdout w ++ ls.
Proof. unfold stdout, emit. cbn [trace]. by rewrite writes_app, writes_EvWrite. Qed.

Lemma stdout_bump n w : stdout (bump n w) = stdout w.
Proof. reflexivity. Qed.

End World.

#[export] Hint Rewrite @trace_after_call @trace_record @seed_after_call @seed_emit @seed_bump @svc_emit @svc_bump @trace_emit
  @trace_bump : go.
#[export] Hint Rewrite @emit_nil @bump_0 @bump_bump @bump_emit @run_Printf
  @run_Println @run_log @stdout_emit @stdout_bump @writes_app @writes_EvWrite
  @calls_app @calls_EvWrite : go.
