(* ===== verification/Time.v ===== *)
(** * Time: the calendar rendering of a creation time

    The status and list printers convert the creation time of a sandbox, a
    number of seconds since the Unix epoch, with [time.Unix(sec, 0)] and
    print it with the verb [%v], which is [Time.String]: the date and the
    time of day in the zone of the machine, the offset of the zone and its
    name.  The zone is the host's; this file gives the rendering for a
    machine whose zone is UTC ([utc_String]), for a zone with an offset
    ([zone_String]) and for a machine whose zone changes its offset at
    given instants ([local_String]).  The two functions belong to Go's
    standard library, which is not part of the repository: the
    definitions follow the documented behaviour of the library (the
    layout 2006-01-02 15:04:05 -0700 MST, the sign of the offset taken
    from its whole minutes), and the program is tied to them through the
    hosts [utc_host] and [local_host] of [Stubs].  The date is the one of the
    proleptic Gregorian calendar and the conversions are total on [Z].
    [civil_of_unix] and [unix_of_civil] are inverse of each other on valid
    dates; [read_utc] and [read_zoned] read the text back. *)

From S2P Require Import Prelude Text.

#[local] Open Scope Z_scope.

(** ** Dates *)

Record civil : Type := mkCivil {
  year : Z;
  month : Z;
  day : Z;
  hour : Z;
  minute : Z;
  second : Z;
}.

#[export] Instance civil_eq_dec : EqDecision civil.
Proof. solve_decision. Defined.

Definition is_leap (y : Z) : bool :=
  (y mod 4 =? 0) && (negb (y mod 100 =? 0) || (y mod 400 =? 0)).

Definition days_in_month (y m : Z) : Z :=
  if m =? 2 then (if is_leap y then 29 else 28)
  else if (m =? 4) || (m =? 6) || (m =? 9) || (m =? 11) then 30
  else 31.

Definition valid_civil (c : civil) : Prop :=
  1 ≤ month c ≤ 12 ∧ 1 ≤ day c ≤ days_in_month (year c) (month c) ∧
  0 ≤ hour c < 24 ∧ 0 ≤ minute c < 60 ∧ 0 ≤ second c < 60.

#[export] Instance valid_civil_dec c : Decision (valid_civil c).
Proof. unfold valid_civil. apply _. Defined.

(** ** Days since the epoch and dates

    Years are counted from the first of March, so that the leap day is the
    last day of its year, in eras of 400 years (146097 days). *)

(** The year of the era of the day [doe] of the era. *)
Definition yoe_of (doe : Z) : Z :=
  (doe - doe / 1460 + doe / 36524 - doe / 146096) / 365.

(** The day of the year, the first of March being day 0. *)
Definition doy_of (doe : Z) : Z :=
  let yoe := yoe_of doe in doe - (365 * yoe + yoe / 4 - yoe / 100).

(** The month of the day of the year, March being month 0. *)
Definition mp_of (doy : Z) : Z := (5 * doy + 2) / 153.

(** The day of the month. *)
Definition dom_of (doy : Z) : Z := doy - (153 * mp_of doy + 2) / 5 + 1.

(** Year, month and day of the day [z] days after 1970-01-01. *)
Definition date_of_days (z : Z) : Z * Z * Z :=
  let era := (z + 719468) / 146097 in
  let doe := (z + 719468) mod 146097 in
  let doy := doy_of doe in
  let m := if mp_of doy <? 10 then mp_of doy + 3 else mp_of doy - 9 in
  let y := yoe_of doe + era * 400 in
  (if m <=? 2 then y + 1 else y, m, dom_of doy).

(** The number of days from 1970-01-01 to the given date. *)
Definition days_of_date (y0 m d : Z) : Z :=
  let y := if m <=? 2 then y0 - 1 else y0 in
  let era := y / 400 in
  let yoe := y mod 400 in
  let mp := if 2 <? m then m - 3 else m + 9 in
  let doy := (153 * mp + 2) / 5 + d - 1 in
  let doe := yoe * 365 + yoe / 4 - yoe / 100 + doy in
  era * 146097 + doe - 719468.

(** [time.Unix(sec, 0)] in UTC, as date and time of day. *)
Definition civil_of_unix (sec : Z) : civil :=
  let '(y, m, d) := date_of_days (sec / 86400) in
  let rem := sec mod 86400 in
  mkCivil y m d (rem / 3600) (rem mod 3600 / 60) (rem mod 60).

Definition unix_of_civil (c : civil) : Z :=
  days_of_date (year c) (month c) (day c) * 86400 +
  hour c * 3600 + minute c * 60 + second c.

(** ** The text *)

(** A decimal number padded with zeros to [width] digits, with its sign
    first when negative. *)
Definition appendInt (x : Z) (width : nat) : string :=
  let digits := pretty (Z.abs_N x) in
  (if x <? 0 then "-" else "") +:+
  zeros (width - String.length digits) +:+ digits.

(** [Time.String] of [time.Unix(sec, 0)] on a machine in UTC: the layout
    2006-01-02 15:04:05 -0700 MST. *)
Definition utc_String (sec : Z) : string :=
  let c := civil_of_unix sec in
  appendInt (year c) 4 +:+ "-" +:+ appendInt (month c) 2 +:+ "-" +:+
  appendInt (day c) 2 +:+ " " +:+ appendInt (hour c) 2 +:+ ":" +:+
  appendInt (minute c) 2 +:+ ":" +:+ appendInt (second c) 2 +:+
  " +0000 UTC".

(** ** Zones *)

(** What the machine knows of its zone at an instant: the offset east of
    UTC, in seconds, and the abbreviation of the zone, which may be
    unknown. *)
Record zone : Type := mkZone {
  offset : Z;
  abbreviation : string;
}.

#[export] Instance zone_eq_dec : EqDecision zone.
Proof. solve_decision. Defined.

Definition UTC : zone := mkZone 0 "UTC".

(** The zone of a machine: the zone in force before every transition,
    and the transitions, each an instant and the zone in force from it, in
    increasing order of their instants. *)
Record location : Type := mkLocation {
  first_zone : zone;
  transitions : list (Z * zone);
}.

(** The zone in force at [sec]: the one of the last transition that is
    not after it. *)
Definition zone_at (l : location) (sec : Z) : zone :=
  foldl (λ z t, if decide (t.1 ≤ sec) then t.2 else z) (first_zone l)
    (transitions l).

(** The date and the time of day in the layout 2006-01-02 15:04:05. *)
Definition clock_text (c : civil) : string :=
  appendInt (year c) 4 +:+ "-" +:+ appendInt (month c) 2 +:+ "-" +:+
  appendInt (day c) 2 +:+ " " +:+ appendInt (hour c) 2 +:+ ":" +:+
  appendInt (minute c) 2 +:+ ":" +:+ appendInt (second c) 2.

(** An offset in the layout -0700.  The library first converts the offset
    to minutes, by a division that rounds towards zero, and takes the sign,
    the hours and the minutes from that number: the seconds of the offset
    are not printed, and an offset of less than a minute to the west
    prints with the sign plus. *)
Definition offset_text (off : Z) : string :=
  let zone := off ÷ 60 in
  (if zone <? 0 then "-" else "+") +:+
  appendInt (Z.abs zone / 60) 2 +:+ appendInt (Z.abs zone mod 60) 2.

(** The name of the zone in the layout MST: the abbreviation, or the
    offset when the abbreviation is not known. *)
Definition zone_name (z : zone) : string :=
  if decide (abbreviation z = "") then offset_text (offset z)
  else abbreviation z.

(** [Time.String] of [time.Unix(sec, 0)] in the zone [z]: the layout
    2006-01-02 15:04:05 -0700 MST on the local date and time of day. *)
Definition zone_String (z : zone) (sec : Z) : string :=
  clock_text (civil_of_unix (sec + offset z)) +:+ " " +:+
  offset_text (offset z) +:+ " " +:+ zone_name z.

(** [Time.String] of [time.Unix(sec, 0)] on a machine whose zone is [l]. *)
Definition local_String (l : location) (sec : Z) : string :=
  zone_String (zone_at l sec) sec.

(** ** Arithmetic of the calendar *)

(** Case analysis on the comparisons of a goal. *)
Ltac cases :=
  repeat match goal with
  | |- context [?a <? ?b] => destruct (Z.ltb_spec a b)
  | |- context [?a <=? ?b] => destruct (Z.leb_spec a b)
  | |- context [?a =? ?b] => destruct (Z.eqb_spec a b)
  end.

(** Linear arithmetic with quotients and remainders by constants. *)
Ltac zdiv := Z.div_mod_to_equations; lia.

Lemma yoe_range doe : 0 ≤ doe < 146097 → 0 ≤ yoe_of doe ≤ 399.
Proof. unfold yoe_of. zdiv. Qed.

Lemma doy_range doe : 0 ≤ doe < 146097 → 0 ≤ doy_of doe ≤ 365.
Proof. unfold doy_of, yoe_of. cbv zeta. zdiv. Qed.

(** The last day of a year of 366 days is in a leap year. *)
Lemma doy_leap doe :
  0 ≤ doe < 146097 → doy_of doe = 365 → is_leap (yoe_of doe + 1) = true.
Proof.
  unfold doy_of, yoe_of, is_leap. cbv zeta. intros.
  cases; simpl; try reflexivity; zdiv.
Qed.

Lemma mp_range doy : 0 ≤ doy ≤ 365 → 0 ≤ mp_of doy ≤ 11.
Proof. unfold mp_of. zdiv. Qed.

(** The day of the month is within the month: 31 days, 30 for the months
    1, 3, 6 and 8 after March, 28 for February and 29 on the last day of a
    year of 366 days. *)
Lemma dom_range doy :
  0 ≤ doy ≤ 365 →
  1 ≤ dom_of doy ≤ 31 ∧
  (mp_of doy = 11 → dom_of doy ≤ 29 ∧ (dom_of doy = 29 → doy = 365)) ∧
  (mp_of doy = 1 ∨ mp_of doy = 3 ∨ mp_of doy = 6 ∨ mp_of doy = 8 →
   dom_of doy ≤ 30).
Proof. unfold dom_of, mp_of. zdiv. Qed.

(** Leap years repeat every 400 years. *)
Lemma is_leap_era y era : is_leap (y + era * 400) = is_leap y.
Proof. unfold is_leap. cases; simpl; try reflexivity; zdiv. Qed.

Lemma is_leap_spec y :
  is_leap y = true ↔ y mod 4 = 0 ∧ (y mod 100 ≠ 0 ∨ y mod 400 = 0).
Proof. unfold is_leap. cases; simpl; intuition congruence. Qed.

(** ** From days to dates and back *)

Lemma date_of_days_valid z :
  let '(y, m, d) := date_of_days z in
  1 ≤ m ≤ 12 ∧ 1 ≤ d ≤ days_in_month y m.
Proof.
  unfold date_of_days. cbv zeta.
  set (doe := (z + 719468) mod 146097). set (era := (z + 719468) / 146097).
  assert (0 ≤ doe < 146097) as Hdoe by (apply Z.mod_pos_bound; lia).
  pose proof (doy_range doe Hdoe) as Hdoy.
  pose proof (mp_range _ Hdoy) as Hmp.
  pose proof (dom_range _ Hdoy) as (Hd & Hfeb & H30).
  pose proof (doy_leap doe Hdoe) as Hleap.
  unfold days_in_month. cases; simpl; try lia.
  all: replace (yoe_of doe + era * 400 + 1) with (yoe_of doe + 1 + era * 400)
         by lia; rewrite is_leap_era.
  all: destruct (is_leap (yoe_of doe + 1)) eqn:Hl; [lia|].
  all: assert (dom_of (doy_of doe) ≠ 29)
         by (intros ?; rewrite Hleap in Hl; (done || lia)); lia.
Qed.

Lemma days_date_roundtrip z :
  let '(y, m, d) := date_of_days z in days_of_date y m d = z.
Proof.
  unfold date_of_days, days_of_date, dom_of, mp_of, doy_of, yoe_of.
  cbv zeta. cases; zdiv.
Qed.

Lemma time_of_day_roundtrip sec :
  let rem := sec mod 86400 in
  (0 ≤ rem / 3600 < 24 ∧ 0 ≤ rem mod 3600 / 60 < 60 ∧ 0 ≤ rem mod 60 < 60) ∧
  sec / 86400 * 86400 + rem / 3600 * 3600 + rem mod 3600 / 60 * 60 +
    rem mod 60 = sec.
Proof. cbv zeta. zdiv. Qed.

(** ** From dates to days and back *)

Lemma yoe_doy_of yoe doy :
  0 ≤ yoe ≤ 399 → 0 ≤ doy ≤ 365 →
  (doy = 365 → is_leap (yoe + 1) = true) →
  let doe := yoe * 365 + yoe / 4 - yoe / 100 + doy in
  yoe_of doe = yoe ∧ doy_of doe = doy ∧ 0 ≤ doe < 146097.
Proof.
  cbv zeta. intros Hy Hd Hl.
  assert (doy ≤ 364 ∨ doy = 365 ∧ (yoe + 1) mod 4 = 0 ∧
          ((yoe + 1) mod 100 ≠ 0 ∨ (yoe + 1) mod 400 = 0)) as Hcase.
  { destruct (decide (doy = 365)) as [Heq|]; [right|lia].
    split; [done|]. by apply is_leap_spec, Hl. }
  clear Hl.
  assert (yoe_of (yoe * 365 + yoe / 4 - yoe / 100 + doy) = yoe) as Hyoe.
  { unfold yoe_of. zdiv. }
  unfold doy_of. cbv zeta. rewrite Hyoe. split; [done|]. split; [lia|].
  zdiv.
Qed.

Lemma mp_dom_of mp d :
  0 ≤ mp ≤ 11 → 1 ≤ d ≤ 31 →
  (mp = 1 ∨ mp = 3 ∨ mp = 6 ∨ mp = 8 → d ≤ 30) → (mp = 11 → d ≤ 29) →
  let doy := (153 * mp + 2) / 5 + d - 1 in
  mp_of doy = mp ∧ dom_of doy = d ∧ 0 ≤ doy ≤ 365 ∧
  (doy = 365 → mp = 11 ∧ d = 29).
Proof. unfold dom_of, mp_of. cbv zeta. zdiv. Qed.

(** What a valid day of a month says in terms of the month counted from
    March. *)
Lemma days_in_month_mp y m d :
  1 ≤ m ≤ 12 → 1 ≤ d ≤ days_in_month y m →
  let mp := if 2 <? m then m - 3 else m + 9 in
  0 ≤ mp ≤ 11 ∧ d ≤ 31 ∧
  (mp = 1 ∨ mp = 3 ∨ mp = 6 ∨ mp = 8 → d ≤ 30) ∧
  (mp = 11 → d ≤ 29 ∧ (d = 29 → is_leap y = true)) ∧
  (if mp <? 10 then mp + 3 else mp - 9) = m.
Proof.
  unfold days_in_month. cbv zeta. destruct (is_leap y); cases; simpl; lia.
Qed.

Lemma is_leap_mod y : is_leap (y mod 400) = is_leap y.
Proof.
  rewrite (Z.div_mod y 400) at 2 by lia.
  rewrite Z.add_comm, Z.mul_comm. symmetry. apply is_leap_era.
Qed.

Lemma date_days_roundtrip y m d :
  1 ≤ m ≤ 12 → 1 ≤ d ≤ days_in_month y m →
  date_of_days (days_of_date y m d) = (y, m, d).
Proof.
  intros Hm Hd. unfold days_of_date. cbv zeta.
  destruct (days_in_month_mp y m d Hm Hd) as (Hmp & H31 & H30 & Hfeb & Hmm).
  set (mp := if 2 <? m then m - 3 else m + 9) in *.
  set (y' := if m <=? 2 then y - 1 else y).
  destruct (mp_dom_of mp d) as (Hmp' & Hdom & Hdoy & H365);
    [lia|lia|done|by intros [? _]%Hfeb|].
  set (doy := (153 * mp + 2) / 5 + d - 1) in *.
  destruct (yoe_doy_of (y' mod 400) doy) as (Hyoe & Hdoy' & Hdoe);
    [zdiv|done| |].
  { intros [Hmp11 Hd29]%H365. destruct (Hfeb Hmp11) as [_ Hl].
    rewrite <-(Hl Hd29), <-(is_leap_mod (_ + 1)), <-(is_leap_mod y).
    f_equal. subst y' mp. clear -Hm Hmp11. revert Hmp11. cases; intros; zdiv. }
  set (doe := y' mod 400 * 365 + y' mod 400 / 4 - y' mod 400 / 100 + doy) in *.
  unfold date_of_days. cbv zeta.
  replace ((y' / 400 * 146097 + doe - 719468 + 719468) mod 146097)
    with doe by zdiv.
  replace ((y' / 400 * 146097 + doe - 719468 + 719468) / 146097)
    with (y' / 400) by zdiv.
  rewrite Hdoy', Hyoe, Hmp', Hdom, Hmm. f_equal. f_equal.
  subst y'. cases; zdiv.
Qed.

(** ** Seconds and dates *)

Lemma civil_unix_roundtrip c :
  valid_civil c → civil_of_unix (unix_of_civil c) = c.
Proof.
  destruct c as [y m d h mi s]. intros (Hm & Hd & Hh & Hmi & Hs).
  cbn [year month day hour minute second] in *.
  unfold civil_of_unix, unix_of_civil.
  cbn [year month day hour minute second].
  set (z := days_of_date y m d).
  replace ((z * 86400 + h * 3600 + mi * 60 + s) / 86400) with z by zdiv.
  replace ((z * 86400 + h * 3600 + mi * 60 + s) mod 86400)
    with (h * 3600 + mi * 60 + s) by zdiv.
  subst z. rewrite date_days_roundtrip by done. f_equal; zdiv.
Qed.

Lemma unix_civil_roundtrip sec :
  valid_civil (civil_of_unix sec) ∧ unix_of_civil (civil_of_unix sec) = sec.
Proof.
  unfold civil_of_unix, unix_of_civil, valid_civil.
  pose proof (date_of_days_valid (sec / 86400)) as Hv.
  pose proof (days_date_roundtrip (sec / 86400)) as Hr.
  pose proof (time_of_day_roundtrip sec) as (Ht & Hs).
  destruct (date_of_days (sec / 86400)) as [[y m] d]. simpl.
  rewrite Hr. by repeat split; try apply Hv; try apply Ht.
Qed.

(** The conversion of a number of seconds to a date and
    a time of day in UTC gives a valid date of the Gregorian calendar, from
    which the number of seconds is recovered; and every valid date is the
    conversion of its number of seconds: the two conversions are inverse
    bijections between the integers and the valid dates. *)
Corollary unix_civil_bijection :
  (∀ sec, valid_civil (civil_of_unix sec) ∧
          unix_of_civil (civil_of_unix sec) = sec) ∧
  (∀ c, valid_civil c → civil_of_unix (unix_of_civil c) = c).
Proof. split; [apply unix_civil_roundtrip|apply civil_unix_roundtrip]. Qed.

(** ** The width of the text *)

(** A number that fits its width is printed on exactly that width. *)
Lemma length_appendInt x (width : nat) :
  (0 < width)%nat → 0 ≤ x < 10 ^ Z.of_nat width →
  String.length (appendInt x width) = width.
Proof.
  intros Hw Hx. unfold appendInt.
  destruct (Z.ltb_spec x 0) as [|_]; [lia|].
  change ("" +:+ ?s) with s. rewrite string_length_app, length_zeros.
  pose proof (length_pretty_N width (Z.abs_N x) Hw) as Hlen.
  cut ((String.length (pretty (Z.abs_N x)) ≤ width)%nat); [lia|].
  apply Hlen. apply N2Z.inj_lt.
  rewrite N2Z.inj_abs_N, N2Z.inj_pow, nat_N_Z, Z.abs_eq by lia. simpl. lia.
Qed.

Lemma length_appendInt_2 x :
  0 ≤ x < 100 → String.length (appendInt x 2) = 2%nat.
Proof. intros. by apply length_appendInt; [lia|]. Qed.

Lemma length_appendInt_4 x :
  0 ≤ x < 10000 → String.length (appendInt x 4) = 4%nat.
Proof. intros. by apply length_appendInt; [lia|]. Qed.

Lemma days_in_month_le y m : days_in_month y m ≤ 31.
Proof. unfold days_in_month. destruct (is_leap y); cases; simpl; lia. Qed.

(** Dates after the year 9999 and before the year 0 are out of the range
    of day counts of the years with four digits. *)
Lemma days_of_date_bounds y m d :
  1 ≤ m ≤ 12 → 1 ≤ d ≤ 31 →
  (10000 ≤ y → 2932896 < days_of_date y m d) ∧
  (y < 0 → days_of_date y m d < -719528).
Proof. intros Hm Hd. unfold days_of_date. cbv zeta. cases; zdiv. Qed.

(** The creation times whose year has four digits. *)
Lemma year_range sec :
  -62167219200 ≤ sec ≤ 253402300799 → 0 ≤ year (civil_of_unix sec) ≤ 9999.
Proof.
  intros Hsec.
  destruct (unix_civil_roundtrip sec) as [(Hm & Hd & Hh & Hmi & Hs) Hr].
  pose proof (days_in_month_le (year (civil_of_unix sec))
                (month (civil_of_unix sec))) as H31.
  destruct (days_of_date_bounds (year (civil_of_unix sec))
              (month (civil_of_unix sec)) (day (civil_of_unix sec)))
    as [Hhi Hlo]; [done|lia|].
  unfold unix_of_civil in Hr. lia.
Qed.

(** The text of a creation time whose year has four digits has 29
    characters. *)
Lemma length_utc_String sec :
  -62167219200 ≤ sec ≤ 253402300799 →
  String.length (utc_String sec) = 29%nat.
Proof.
  intros Hsec. pose proof (year_range sec Hsec) as Hy.
  destruct (unix_civil_roundtrip sec) as [(Hm & Hd & Hh & Hmi & Hs) _].
  pose proof (days_in_month_le (year (civil_of_unix sec))
                (month (civil_of_unix sec))) as H31.
  unfold utc_String. cbv zeta.
  rewrite !string_length_app, length_appendInt_4, !length_appendInt_2 by lia.
  done.
Qed.

(** ** The epoch *)

(** Second 0 is the first second of 1970, and the last second of 1969
    precedes it. *)
Example utc_String_epoch :
  utc_String 0 = "1970-01-01 00:00:00 +0000 UTC" ∧
  utc_String (-1) = "1969-12-31 23:59:59 +0000 UTC" ∧
  utc_String 951782400 = "2000-02-29 00:00:00 +0000 UTC".
Proof. by vm_compute. Qed.

(** ** Reading the text back *)

(** A number of [width] digits at the head of [s], and what follows it. *)
Definition number (width : nat) (s : string) : option (Z * string) :=
  '(t, s') ← take_n width s; x ← read_N t; Some (Z.of_N x, s').

(** The number of seconds a text in the layout of [utc_String] denotes;
    [None] if the text is not in the layout or its date is not valid. *)
Definition read_utc (s : string) : option Z :=
  '(y, s) ← number 4 s; s ← after_prefix "-" s;
  '(m, s) ← number 2 s; s ← after_prefix "-" s;
  '(d, s) ← number 2 s; s ← after_prefix " " s;
  '(h, s) ← number 2 s; s ← after_prefix ":" s;
  '(mi, s) ← number 2 s; s ← after_prefix ":" s;
  '(se, s) ← number 2 s;
  let c := mkCivil y m d h mi se in
  if decide (s = " +0000 UTC" ∧ valid_civil c) then Some (unix_of_civil c)
  else None.

(** The date and the time of day at the head of a text in the layout of
    [clock_text], and what follows them. *)
Definition read_clock (s : string) : option (civil * string) :=
  '(y, s) ← number 4 s; s ← after_prefix "-" s;
  '(m, s) ← number 2 s; s ← after_prefix "-" s;
  '(d, s) ← number 2 s; s ← after_prefix " " s;
  '(h, s) ← number 2 s; s ← after_prefix ":" s;
  '(mi, s) ← number 2 s; s ← after_prefix ":" s;
  '(se, s) ← number 2 s;
  Some (mkCivil y m d h mi se, s).

(** The sign at the head of an offset. *)
Definition read_sign (s : string) : option (Z * string) :=
  match after_prefix "+" s, after_prefix "-" s with
  | Some s', _ => Some (1, s')
  | None, Some s' => Some (-1, s')
  | None, None => None
  end.

(** The offset at the head of a text in the layout of [offset_text], in
    seconds, and what follows it. *)
Definition read_offset (s : string) : option (Z * string) :=
  '(sign, s) ← read_sign s;
  '(h, s) ← number 2 s;
  '(m, s) ← number 2 s;
  Some (sign * (h * 3600 + m * 60), s).

(** The number of seconds a text in the layout of [zone_String] denotes,
    in whatever zone it was printed: the local date and time of day, less
    the offset the text gives.  The name of the zone is not read. *)
Definition read_zoned (s : string) : option Z :=
  '(c, s) ← read_clock s; s ← after_prefix " " s;
  '(off, s) ← read_offset s;
  if decide (valid_civil c) then Some (unix_of_civil c - off) else None.

Lemma read_N_appendInt x width :
  0 ≤ x → read_N (appendInt x width) = Some (Z.to_N x).
Proof.
  intros Hx. unfold appendInt. destruct (Z.ltb_spec x 0) as [|_]; [lia|].
  change ("" +:+ ?s) with s. rewrite read_N_zeros, read_N_pretty.
  f_equal. lia.
Qed.

Lemma number_appendInt (width : nat) x rest :
  (0 < width)%nat → 0 ≤ x < 10 ^ Z.of_nat width →
  number width (appendInt x width +:+ rest) = Some (x, rest).
Proof.
  intros Hw Hx. unfold number.
  pose proof (take_n_app (appendInt x width) rest) as Ht.
  rewrite length_appendInt in Ht by done. rewrite Ht. cbn [mbind option_bind].
  rewrite read_N_appendInt by lia. cbn [mbind option_bind].
  by rewrite Z2N.id by lia.
Qed.

Lemma number_appendInt_2 x rest :
  0 ≤ x < 100 → number 2 (appendInt x 2 +:+ rest) = Some (x, rest).
Proof. intros. by apply number_appendInt; [lia|]. Qed.

Lemma number_appendInt_4 x rest :
  0 ≤ x < 10000 → number 4 (appendInt x 4 +:+ rest) = Some (x, rest).
Proof. intros. by apply number_appendInt; [lia|]. Qed.

(** The text a machine in UTC prints for a creation time whose year has
    four digits reads back as that number of seconds, with the reader of
    that zone. *)
Lemma utc_String_reads_back sec :
  -62167219200 ≤ sec ≤ 253402300799 → read_utc (utc_String sec) = Some sec.
Proof.
  intros Hsec. pose proof (year_range sec Hsec) as Hy.
  destruct (unix_civil_roundtrip sec) as [Hv Hr].
  pose proof Hv as (Hm & Hd & Hh & Hmi & Hs).
  pose proof (days_in_month_le (year (civil_of_unix sec))
                (month (civil_of_unix sec))) as H31.
  unfold utc_String, read_utc. cbv zeta.
  rewrite number_appendInt_4 by lia. cbn [mbind option_bind].
  repeat (rewrite after_prefix_app; cbn [mbind option_bind];
          rewrite number_appendInt_2 by lia; cbn [mbind option_bind]).
  destruct (civil_of_unix sec) as [y m d h mi se] eqn:Hc.
  cbn [year month day hour minute second] in *.
  by rewrite decide_True, Hr.
Qed.

(** ** Reading the text of any zone back *)

Lemma read_clock_text c rest :
  valid_civil c → 0 ≤ year c ≤ 9999 →
  read_clock (clock_text c +:+ rest) = Some (c, rest).
Proof.
  intros (Hm & Hd & Hh & Hmi & Hs) Hy.
  pose proof (days_in_month_le (year c) (month c)) as H31.
  unfold clock_text, read_clock. rewrite !string_app_assoc.
  rewrite number_appendInt_4 by lia. cbn [mbind option_bind].
  repeat (rewrite after_prefix_app; cbn [mbind option_bind];
          rewrite number_appendInt_2 by lia; cbn [mbind option_bind]).
  by destruct c.
Qed.

Lemma read_sign_plus s : read_sign ("+" +:+ s) = Some (1, s).
Proof. unfold read_sign. by rewrite after_prefix_app. Qed.

Lemma read_sign_minus s : read_sign ("-" +:+ s) = Some (-1, s).
Proof.
  unfold read_sign. by rewrite after_prefix_differ, after_prefix_app.
Qed.

(** An offset that is a number of minutes is sixty times the number the
    library takes the sign, the hours and the minutes from. *)
Lemma quot_minutes off : off mod 60 = 0 → off = 60 * (off ÷ 60).
Proof.
  intros Hmin. destruct (Z.le_gt_cases 0 off) as [Hpos|Hneg].
  - rewrite Z.quot_div_nonneg by lia. zdiv.
  - rewrite <-(Z.opp_involutive off) at 2.
    rewrite Z.quot_opp_l, Z.quot_div_nonneg by lia. zdiv.
Qed.

Lemma read_offset_text off rest :
  off mod 60 = 0 → -360000 < off < 360000 →
  read_offset (offset_text off +:+ rest) = Some (off, rest).
Proof.
  intros Hmin Hoff. unfold offset_text, read_offset. cbv zeta.
  rewrite !string_app_assoc. pose proof (quot_minutes off Hmin) as Hq.
  assert (0 ≤ Z.abs (off ÷ 60) / 60 < 100 ∧ 0 ≤ Z.abs (off ÷ 60) mod 60 < 100)
    as [Hh Hm] by zdiv.
  destruct (Z.ltb_spec (off ÷ 60) 0) as [Hneg|Hpos];
    rewrite ?read_sign_plus, ?read_sign_minus; cbn [mbind option_bind];
    rewrite number_appendInt_2 by done; cbn [mbind option_bind];
    rewrite number_appendInt_2 by done; cbn [mbind option_bind];
    do 2 f_equal; zdiv.
Qed.

(** The text of an instant, in a zone whose offset is a number of minutes,
    reads back as the instant. *)
Lemma zone_String_reads_back_aux z sec :
  offset z mod 60 = 0 → -360000 < offset z < 360000 →
  -62167219200 ≤ sec + offset z ≤ 253402300799 →
  read_zoned (zone_String z sec) = Some sec.
Proof.
  intros Hmin Hoff Hsec. pose proof (year_range _ Hsec) as Hy.
  destruct (unix_civil_roundtrip (sec + offset z)) as [Hv Hr].
  unfold zone_String, read_zoned.
  rewrite read_clock_text by (done || lia). cbn [mbind option_bind].
  rewrite after_prefix_app. cbn [mbind option_bind].
  rewrite read_offset_text by done. cbn [mbind option_bind].
  rewrite decide_True, Hr by done. f_equal. lia.
Qed.

(** The zone in force at an instant is one of the zones of the
    location. *)
Lemma zone_at_elem l sec :
  zone_at l sec ∈ first_zone l :: (transitions l).*2.
Proof.
  unfold zone_at. generalize (first_zone l).
  induction (transitions l) as [|t ts IH]; intros z; [set_solver|].
  simpl. case_decide; specialize (IH (if decide (t.1 ≤ sec) then t.2 else z));
    rewrite ?decide_True, ?decide_False in IH by done; set_solver.
Qed.

(** On a machine in UTC the text is the one of [utc_String]. *)
Lemma zone_String_UTC sec : zone_String UTC sec = utc_String sec.
Proof.
  unfold zone_String, utc_String, clock_text. cbv zeta.
  rewrite Z.add_0_r, !string_app_assoc. done.
Qed.

(** A zone the layout prints in full: its offset is a number of minutes,
    of less than a hundred hours. *)
Definition whole_minutes (z : zone) : Prop :=
  offset z mod 60 = 0 ∧ -360000 < offset z < 360000.

#[export] Instance whole_minutes_dec z : Decision (whole_minutes z).
Proof. unfold whole_minutes. apply _. Defined.

(** Round trip of the creation time in the zone of the machine.
    Whatever the zone of the machine and its changes of offset (daylight
    saving time), provided the offsets are numbers of minutes, the text
    printed for a creation time whose local year has four digits reads
    back as that number of seconds: the layout prints the offset in force,
    so the Created line determines the instant even in the hour that a
    change of offset repeats. *)
Lemma local_String_reads_back l sec :
  Forall whole_minutes (first_zone l :: (transitions l).*2) →
  -62167219200 ≤ sec + offset (zone_at l sec) ≤ 253402300799 →
  read_zoned (local_String l sec) = Some sec.
Proof.
  intros Hl Hsec. rewrite Forall_forall in Hl.
  destruct (Hl _ (zone_at_elem l sec)) as [Hmin Hoff].
  by apply zone_String_reads_back_aux.
Qed.

(** The texts of some instants: an offset to the east, an offset of half
    an hour to the west, a zone whose abbreviation is not known. *)
Example zone_String_examples :
  zone_String (mkZone 3600 "CET") 0 = "1970-01-01 01:00:00 +0100 CET" ∧
  zone_String (mkZone (-12600) "NST") 0 = "1969-12-31 20:30:00 -0330 NST" ∧
  zone_String (mkZone 19800 "") 951782400 =
    "2000-02-29 05:30:00 +0530 +0530".
Proof. by vm_compute. Qed.

(** A zone with daylight saving time: summer time from the last Sunday
    of March 2016 to the last Sunday of October 2016. *)
Definition sample_location : location :=
  mkLocation (mkZone 3600 "CET")
    [(1459040400, mkZone 7200 "CEST"); (1477789200, mkZone 3600 "CET")].

(** The hour from two to three of the night of 30 October 2016 happens
    twice: the two instants print the same time of day and differ by the
    offset, and each reads back as itself. *)
Example repeated_hour :
  local_String sample_location 1477787400 =
    "2016-10-30 02:30:00 +0200 CEST" ∧
  local_String sample_location 1477791000 =
    "2016-10-30 02:30:00 +0100 CET" ∧
  read_zoned "2016-10-30 02:30:00 +0200 CEST" = Some 1477787400 ∧
  read_zoned "2016-10-30 02:30:00 +0100 CET" = Some 1477791000.
Proof. by vm_compute. Qed.

(** The seconds of an offset are not printed: in a zone whose offset is
    not a number of minutes the text is that of another instant, and an
    offset of half a minute to the west prints as no offset at all, with
    the sign plus. *)
Example offset_seconds_lost :
  zone_String (mkZone 1172 "LMT") 0 = "1970-01-01 00:19:32 +0019 LMT" ∧
  read_zoned (zone_String (mkZone 1172 "LMT") 0) = Some 32 ∧
  zone_String (mkZone (-30) "LMT") 0 = "1969-12-31 23:59:30 +0000 LMT" ∧
  zone_String (mkZone (-90) "LMT") 0 = "1969-12-31 23:58:30 -0001 LMT".
Proof. by vm_compute. Qed.

(** The reader refuses what is not a date: the thirtieth of February, and
    a text in another layout. *)
Example read_utc_examples :
  read_utc "2000-02-29 00:00:00 +0000 UTC" = Some 951782400 ∧
  read_utc "2001-02-29 00:00:00 +0000 UTC" = None ∧
  read_utc "1970-01-01T00:00:00Z" = None.
Proof. by vm_compute. Qed.

