(* ===== verification/Protocol.v ===== *)
(** * Protocol: the connection protocol of a process

    What a process may do with its connection to the runtime service, as an
    automaton over the events of a trace: a connection is dialled when none
    is open, remote calls are issued and the connection is closed only
    while it is open.  [protocol] is the relation, [conn_run] the function
    that decides it.  A world is [quiescent] when its trace follows the
    protocol and ends with no connection open; a trace is [answered] when
    every dial in it is followed by a close. *)

From S2P Require Import Prelude GoRuntime Proto World.

(** ** The automaton *)

Inductive conn_state : Type := Closed | Open.

#[export] Instance conn_state_eq_dec : EqDecision conn_state.
Proof. solve_decision. Defined.

(** One event of the protocol: a connection is dialled when none is open,
    calls are issued and the connection is closed only while it is open;
    reads of files and writes may happen at any time. *)
Inductive conn_step : conn_state → event → conn_state → Prop :=
| step_dial : conn_step Closed EvDial Open
| step_dial_failed e : conn_step Closed (EvDialFailed e) Closed
| step_close : conn_step Open EvClose Closed
| step_call rq : conn_step Open (EvCall rq) Open
| step_load st path : conn_step st (EvLoad path) st
| step_write st s : conn_step st (EvWrite s) st.

(** A trace that follows the protocol from one state to another. *)
Inductive protocol : conn_state → list event → conn_state → Prop :=
| protocol_nil st : protocol st [] st
| protocol_cons st ev st' evs st'' :
    conn_step st ev st' → protocol st' evs st'' →
    protocol st (ev :: evs) st''.

(** The automaton, as a function. *)
Definition conn_next (st : conn_state) (ev : event) : option conn_state :=
  match st, ev with
  | Closed, EvDial => Some Open
  | Closed, EvDialFailed _ => Some Closed
  | Open, EvClose => Some Closed
  | Open, EvCall _ => Some Open
  | _, EvLoad _ | _, EvWrite _ => Some st
  | _, _ => None
  end.

Fixpoint conn_run (st : conn_state) (evs : list event) : option conn_state :=
  match evs with
  | [] => Some st
  | ev :: evs' => st' ← conn_next st ev; conn_run st' evs'
  end.

(** A world is quiescent when its trace follows the protocol and leaves
    no connection open. *)
Definition quiescent {S} (w : World S) : Prop :=
  protocol Closed (trace w) Closed.

(** Every dial of the trace is followed, later in the trace, by a close. *)
Definition answered (t : list event) : Prop :=
  ∀ i, t !! i = Some EvDial → ∃ j, i < j ∧ t !! j = Some EvClose.

(** The same, as a function. *)
Fixpoint answeredb (t : list event) : bool :=
  match t with
  | [] => true
  | EvDial :: t' => bool_decide (EvClose ∈ t') && answeredb t'
  | _ :: t' => answeredb t'
  end.

(** ** The protocol automaton *)

Lemma conn_next_step st ev st' :
  conn_next st ev = Some st' ↔ conn_step st ev st'.
Proof.
  split; [|by destruct 1 as [| | | |[]|[]]].
  destruct st, ev; simpl; intros [= <-]; constructor.
Qed.

(** The function [conn_run] decides the relation [protocol]. *)
Lemma conn_run_protocol st evs st' :
  conn_run st evs = Some st' ↔ protocol st evs st'.
Proof.
  split.
  - revert st; induction evs as [|ev evs IH]; intros st; simpl.
    { intros [= ->]. constructor. }
    destruct (conn_next st ev) as [st1|] eqn:H1; [simpl|done].
    intros H. econstructor; [by apply conn_next_step|by apply IH].
  - induction 1 as [|st ev st1 evs st2 H1 _ IH]; [done|].
    simpl. apply conn_next_step in H1. by rewrite H1.
Qed.

Lemma conn_run_app st evs1 evs2 :
  conn_run st (evs1 ++ evs2) = conn_run st evs1 ≫= λ st', conn_run st' evs2.
Proof.
  revert st; induction evs1 as [|ev evs1 IH]; intros st; simpl; [done|].
  destruct (conn_next st ev); simpl; [apply IH|done].
Qed.

Lemma quiescent_run {S} (w : World S) : quiescent w ↔ conn_run Closed (trace w) = Some Closed.
Proof. symmetry. apply conn_run_protocol. Qed.

#[export] Instance quiescent_dec {S} (w : World S) : Decision (quiescent w).
Proof. refine (cast_if (decide (conn_run Closed (trace w) = Some Closed)));
  by rewrite quiescent_run. Defined.

(** Reads, calls and writes keep an open connection open. *)
Lemma conn_run_inner evs : Forall inner evs → conn_run Open evs = Some Open.
Proof. induction 1 as [|[] evs Hev _ IH]; done. Qed.

(** A session: a dial, inner events, a close. *)
Lemma conn_run_session t evs :
  conn_run Closed t = Some Closed → Forall inner evs →
  conn_run Closed ((t ++ [EvDial]) ++ evs ++ [EvClose]) = Some Closed.
Proof.
  intros Ht Hevs. rewrite !conn_run_app, Ht. simpl.
  rewrite conn_run_app, conn_run_inner by done. reflexivity.
Qed.

(** ** The relation, composed and taken apart *)

Lemma protocol_app st t1 st1 t2 st2 :
  protocol st t1 st1 → protocol st1 t2 st2 → protocol st (t1 ++ t2) st2.
Proof.
  rewrite <-!conn_run_protocol, conn_run_app. by intros -> ?.
Qed.

Lemma protocol_inner t : Forall inner t → protocol Open t Open.
Proof. intros. by apply conn_run_protocol, conn_run_inner. Qed.

(** ** Every dial is answered *)

(** From an open connection, the protocol reaches the closed state only
    through a close. *)
Lemma protocol_open_closes st t st' :
  protocol st t st' → st = Open → st' = Closed → EvClose ∈ t.
Proof.
  induction 1 as [|st ev st1 evs st2 Hstep _ IH]; intros ??; subst; [done|].
  inversion Hstep; subst; [left|right; by apply IH..].
Qed.

Lemma answered_cons ev t :
  answered (ev :: t) ↔ (ev = EvDial → EvClose ∈ t) ∧ answered t.
Proof.
  split.
  - intros H. split.
    + intros ->. destruct (H 0 eq_refl) as ([|j] & ? & Hj); [lia|].
      by eapply list_elem_of_lookup_2.
    + intros i Hi. destruct (H (S i) Hi) as ([|j] & ? & Hj); [lia|].
      exists j. split; [lia|done].
  - intros [H0 Ht] [|i] Hi; simpl in Hi.
    + injection Hi as ->. apply list_elem_of_lookup_1 in H0 as [j Hj]; [|done].
      exists (S j). split; [lia|done].
    + destruct (Ht i Hi) as (j & ? & Hj). exists (S j). split; [lia|done].
Qed.

Lemma answeredb_spec t : answeredb t ↔ answered t.
Proof.
  induction t as [|ev t IH]; [by split; [intros _ i|]|].
  rewrite answered_cons, <-IH. destruct ev; simpl;
    rewrite ?andb_True, ?bool_decide_spec; intuition congruence.
Qed.

#[export] Instance answered_dec t : Decision (answered t).
Proof. refine (cast_if (decide (answeredb t))); by rewrite <-answeredb_spec. Defined.

Lemma answered_app t1 t2 : answered t1 → answered t2 → answered (t1 ++ t2).
Proof.
  induction t1 as [|ev t1 IH]; [done|]. simpl. rewrite !answered_cons.
  intros [H1 Ht1] Ht2. split; [|by apply IH].
  intros Hev. apply elem_of_app. left. by apply H1.
Qed.

Lemma answered_inner t : Forall inner t → answered t.
Proof.
  induction 1 as [|ev t Hev _ IH]; [by intros i|].
  apply answered_cons. split; [|done]. by intros ->.
Qed.

(** A session leaves no dial unanswered. *)
Lemma answered_session t :
  Forall inner t → answered (EvDial :: t ++ [EvClose]).
Proof.
  intros Ht. apply answered_cons. split; [intros _; set_solver|].
  apply answered_app; [by apply answered_inner|]. by intros [|i].
Qed.

(** A trace that follows the protocol and ends with no connection open
    leaves no dial unanswered. *)
Lemma protocol_answered st t st' :
  protocol st t st' → st' = Closed → answered t.
Proof.
  induction 1 as [|st ev st1 evs st2 Hstep Hrest IH]; intros ->; [by intros i|].
  apply answered_cons. split; [|by apply IH].
  intros ->. inversion Hstep; subst. by eapply protocol_open_closes.
Qed.
