(* ===== verification/Stubs.v ===== *)
(** * Stubs: executable stand-ins for the host and for the remote service

    The theorems of the development hold for every [Host] and every
    [RuntimeServiceClient].  The instances of this file are the ones the
    theorems are instantiated on: a host whose maps are ranged over in an
    order that rotates at each traversal, a host that visits them in the
    order of their keys, a host whose zone is UTC, a host whose zone is
    taken from a [location] of [Time], a host that cannot reach the
    service, a service that keeps the sandboxes in a table and a service
    that fails every call.  They stand for the parts
    of the system that are outside the repository; none of the theorems
    depends on them.  The last part proves that the table service keeps
    the contract of [Proto]. *)

From S2P Require Import Prelude GoRuntime Proto World Time.

(** ** A host *)

(** The host reads configurations from the table [files], reaches the
    service unless [dial] says why not, visits a map starting from a
    position that moves at each traversal, and shows a timestamp as its
    number of seconds. *)
Definition stub_host (files : gmap string PodSandboxConfig)
    (dial : option error) : Host := {|
  range_order n l := rotate n l;
  range_order_perm := rotate_Permutation;
  time_String sec := "unix:" +:+ pretty sec;
  config_file path :=
    match files !! path with
    | Some c => Success c
    | None => Failure ("config at " +:+ path +:+ " not found")
    end;
  dial_error := dial;
|}.

(** A host that visits every map in the order of its table, at every
    traversal. *)
Definition fixed_host : Host := {|
  range_order _ l := l;
  range_order_perm _ l := reflexivity l;
  time_String sec := "unix:" +:+ pretty sec;
  config_file path := Failure ("config at " +:+ path +:+ " not found");
  dial_error := None;
|}.

(** ** A service *)

Record table : Type := mkTable {
  sandboxes : gmap string PodSandboxStatus;
  next : nat;
}.

Definition summary (st : PodSandboxStatus) : PodSandbox :=
  mkPodSandbox (st_Id st) (st_Metadata st) (st_State st) (st_CreatedAt st)
    (st_Labels st) (st_Annotations st).

Definition set_state (s : PodSandBoxState) (st : PodSandboxStatus) :
    PodSandboxStatus :=
  mkStatus (st_Id st) (st_Metadata st) (Some s) (st_CreatedAt st)
    (st_Network st) (st_Linux st) (st_Labels st) (st_Annotations st).

Definition not_found {A} (id : string) : result A :=
  Failure ("sandbox " +:+ id +:+ " not found").

Definition table_run (rq : RunPodSandboxRequest) (t : table) :
    result RunPodSandboxResponse * table :=
  match run_Config rq with
  | None => (Failure "no config", t)
  | Some c =>
      let id := "pod" +:+ pretty (next t) in
      let st := mkStatus (Some id) (cfg_Metadata c) (Some READY)
                  (Some (Z.of_nat (next t))) None None None None in
      (Success (mkRunResp (Some id)),
       mkTable (<[id := st]> (sandboxes t)) (Datatypes.S (next t)))
  end.

Definition with_sandbox {A} (id : option string) (t : table)
    (k : string → PodSandboxStatus → result A * table) : result A * table :=
  match id with
  | None => (Failure "no id", t)
  | Some id =>
      match sandboxes t !! id with
      | None => (not_found id, t)
      | Some st => k id st
      end
  end.

Definition table_stop (rq : StopPodSandboxRequest) (t : table) :
    result StopPodSandboxResponse * table :=
  with_sandbox (stop_PodSandboxId rq) t (λ id st,
    (Success mkStopResp,
     mkTable (<[id := set_state NOT_READY st]> (sandboxes t)) (next t))).

Definition table_remove (rq : RemovePodSandboxRequest) (t : table) :
    result RemovePodSandboxResponse * table :=
  with_sandbox (remove_PodSandboxId rq) t (λ id st,
    (Success mkRemoveResp, mkTable (delete id (sandboxes t)) (next t))).

Definition table_status (rq : PodSandboxStatusRequest) (t : table) :
    result PodSandboxStatusResponse * table :=
  with_sandbox (status_PodSandboxId rq) t (λ id st,
    (Success (mkStatusResp (Some st)), t)).

Definition table_list (rq : ListPodSandboxRequest) (t : table) :
    result ListPodSandboxResponse * table :=
  (Success (mkListResp ((λ kv, Some (summary kv.2)) <$>
                          map_to_list (sandboxes t))), t).

#[export] Instance table_service : RuntimeServiceClient table := {|
  client_RunPodSandbox := table_run;
  client_StopPodSandbox := table_stop;
  client_RemovePodSandbox := table_remove;
  client_PodSandboxStatus := table_status;
  client_ListPodSandbox := table_list;
|}.

(** The invariants of the table: every sandbox is stored under its
    identifier and satisfies [P]. *)
Definition table_all (P : PodSandboxStatus → Prop) (t : table) : Prop :=
  map_Forall (λ id st, st_Id st = Some id ∧ P st) (sandboxes t).

#[export] Instance table_all_dec P `{∀ st, Decision (P st)} t :
  Decision (table_all P t).
Proof. unfold table_all. apply _. Defined.

(** A property of a sandbox that lasts: it holds when the sandbox is
    created and it does not depend on the state of the sandbox. *)
Class Lasting (P : PodSandboxStatus → Prop) : Prop := {
  lasting_new id md t :
    P (mkStatus (Some id) md (Some READY) (Some t) None None None None);
  lasting_state s st : P st → P (set_state s st);
}.

#[export] Instance True_lasting : Lasting (λ _, True).
Proof. done. Qed.

(** The invariant that says no more than where the sandboxes are. *)
Definition table_inv : table → Prop := table_all (λ _, True).

(** A service that fails every call with the same error and counts the
    calls it receives. *)
#[export] Instance failing_service (e : error) : RuntimeServiceClient nat | 10 := {|
  client_RunPodSandbox _ n := (Failure e, Datatypes.S n);
  client_StopPodSandbox _ n := (Failure e, Datatypes.S n);
  client_RemovePodSandbox _ n := (Failure e, Datatypes.S n);
  client_PodSandboxStatus _ n := (Failure e, Datatypes.S n);
  client_ListPodSandbox _ n := (Failure e, Datatypes.S n);
|}.

(** ** Sample data *)

Definition sample_metadata : PodSandboxMetadata :=
  mkMetadata (Some "A") (Some "uid-1") (Some "default") (Some 1%N).

Definition sample_config : PodSandboxConfig :=
  mkConfig (Some sample_metadata) {["hostname" := "h1"]}.

Definition sample_files : gmap string PodSandboxConfig :=
  {["config.json" := sample_config]}.

Definition sample_labels : gmap string string :=
  {["app" := "web"; "tier" := "front"; "zone" := "a"]}.

(** A status with every field present. *)
Definition full_status : PodSandboxStatus :=
  mkStatus (Some "s1") (Some sample_metadata) (Some READY) (Some 0%Z)
    (Some (mkNetwork (Some "10.0.0.2")))
    (Some (mkLinux (Some (mkNamespace (Some "/proc/7/ns/net")))))
    (Some sample_labels) (Some {["note" := "x"]}).

(** A status with the identifier and the state only. *)
Definition bare_status : PodSandboxStatus :=
  mkStatus (Some "s1") None (Some READY) None None None None None.

(** A stopped sandbox created at second 5. *)
Definition stopped_status : PodSandboxStatus :=
  mkStatus (Some "s2") None (Some NOT_READY) (Some 5%Z) None None None None.

(** A table holding two sandboxes. *)
Definition sample_table : table :=
  mkTable {["s1" := full_status; "s2" := stopped_status]} 2.

(** The host of the examples: one configuration file, a reachable
    service. *)
Definition sample_host : Host := stub_host sample_files None.

(** The same host when the service cannot be reached. *)
Definition unreachable_host : Host :=
  stub_host sample_files (Some "connection refused").

(** The host of the examples on a machine whose zone is UTC: creation
    times are shown as dates. *)
Definition utc_host : Host := {|
  range_order n l := rotate n l;
  range_order_perm := rotate_Permutation;
  time_String := utc_String;
  config_file := @config_file sample_host;
  dial_error := None;
|}.

(** The host of the examples on a machine whose zone is [l]: creation
    times are shown as local dates, with the offset in force. *)
Definition local_host (l : location) : Host := {|
  range_order n l := rotate n l;
  range_order_perm := rotate_Permutation;
  time_String := local_String l;
  config_file := @config_file sample_host;
  dial_error := None;
|}.

(** The order of two entries of a map: the order of their keys. *)
Definition key_le (kv1 kv2 : string * string) : Prop :=
  String.le kv1.1 kv2.1.

#[export] Instance key_le_dec : RelDecision key_le.
Proof. intros kv1 kv2. unfold key_le. apply _. Defined.

(** A host that visits every map in the order of its keys, at every
    traversal: the order the design notes of the specification recommend
    to make the output reproducible. *)
Definition sorted_host : Host := {|
  range_order _ l := merge_sort key_le l;
  range_order_perm _ l := merge_sort_Permutation key_le l;
  time_String := utc_String;
  config_file := @config_file sample_host;
  dial_error := None;
|}.

(** The world a process starts in. *)
Definition start {S} (s : S) : World S := mkWorld [] s 0.

(** ** The table service keeps the contract *)

(** The two ways [with_sandbox] ends: a failure that leaves the table as
    it is, or the continuation on a sandbox of the table. *)
Lemma with_sandbox_cases {A} id t (k : string → PodSandboxStatus → result A * table) :
  (∃ e, with_sandbox id t k = (Failure e, t)) ∨
  (∃ i st, id = Some i ∧ sandboxes t !! i = Some st ∧
           with_sandbox id t k = k i st).
Proof.
  unfold with_sandbox, not_found. destruct id as [i|]; [|by eauto].
  destruct (sandboxes t !! i) as [st|] eqn:Hi; [right|left]; eauto.
Qed.

Ltac cases_with_sandbox :=
  match goal with
  | |- context [with_sandbox ?id ?t ?k] =>
      let He := fresh "He" in
      destruct (with_sandbox_cases id t k) as [[? He]|(? & ? & ? & ? & He)];
      rewrite He; clear He
  end.

Section Table.
Context (P : PodSandboxStatus → Prop) `{!Lasting P}.

Lemma table_serve_inv rq t : table_all P t → table_all P (serve rq t).2.
Proof.
  intros Ht. destruct rq as [r|r|r|r|r]; simpl;
    unfold table_run, table_stop, table_remove, table_status;
    [destruct (run_Config r)|cases_with_sandbox..|]; simpl; try done;
    [apply map_Forall_insert_2; [split; [done|apply lasting_new]|done]
    | |by apply map_Forall_delete].
  apply map_Forall_insert_2; [|done]. simpl.
  split; [by eapply Ht|]. by eapply lasting_state, Ht.
Qed.

Lemma table_serve_wf rq t resp t' :
  table_all P t → serve rq t = (Success resp, t') → wf_response rq resp.
Proof.
  intros Ht. destruct rq as [r|r|r|r|r]; simpl; unfold answer;
    unfold table_run, table_stop, table_remove, table_status, table_list;
    [destruct (run_Config r)|cases_with_sandbox..|]; simpl;
    intros [= <- <-]; simpl; eauto.
  { eexists _, _. split; [done|]. split; [by eapply Ht|done]. }
  apply Forall_fmap, Forall_forall. intros [k st] Hk%elem_of_map_to_list.
  exists (summary st). split; [done|]. simpl.
  rewrite (proj1 (Ht _ _ Hk)). eauto.
Qed.

Lemma table_serve_failure rq t e t' :
  serve rq t = (Failure e, t') → t' = t.
Proof.
  destruct rq as [r|r|r|r|r]; simpl; unfold answer;
    unfold table_run, table_stop, table_remove, table_status, table_list;
    [destruct (run_Config r)|cases_with_sandbox..|]; simpl;
    by intros [= <- <-].
Qed.

Lemma table_serve_observes rq t : observes rq → (serve rq t).2 = t.
Proof.
  destruct rq as [r|r|r|r|r]; simpl; try done. intros _.
  unfold table_status. by cases_with_sandbox.
Qed.

(** The table service keeps the contract on each of its invariants. *)
#[export] Instance table_service_contract :
  ServiceContract table_service (table_all P).
Proof.
  split; eauto using table_serve_inv, table_serve_wf, table_serve_failure,
    table_serve_observes.
Qed.

End Table.
