(* ===== verification/Render.v ===== *)
(** * Render: the specification of what the client prints

    A [rendering] says what a piece of the program does to standard output:
    the lines it writes (one write each), how many maps it ranges over, and
    the panic that stops it, if one does.  Renderings compose in sequence
    with [+++]; a stopped rendering absorbs what follows.  The renderings
    of the status and list commands are defined from those of their fields,
    in the order the program prints them.  Two renderings are equivalent
    when they differ by the order of the entries inside each block only
    ([blockwise]), which is what the order of a map traversal can
    change.  The last part reads the output
    back with the readers of [Text]: [read_entry] is the inverse of the
    line of a map entry; and bounds the bytes of the metadata block. *)

From S2P Require Import Prelude Text Blocks GoRuntime Proto World Stubs.

Record rendering : Type := mkRendering {
  lines : list string;
  ranges : nat;
  stopped : option string;
}.

#[export] Instance rendering_eq_dec : EqDecision rendering.
Proof. solve_decision. Defined.

(** Nothing printed. *)
Definition rnil : rendering := mkRendering [] 0 None.

(** The given lines, and no panic. *)
Definition rlines (ls : list string) : rendering := mkRendering ls 0 None.

(** A panic before anything is printed. *)
Definition rpanic (p : string) : rendering := mkRendering [] 0 (Some p).

(** Sequence: the second rendering happens only if the first completes. *)
Definition rseq (r1 r2 : rendering) : rendering :=
  match stopped r1 with
  | Some _ => r1
  | None =>
      mkRendering (lines r1 ++ lines r2) (ranges r1 + ranges r2) (stopped r2)
  end.
Infix "+++" := rseq (at level 60, right associativity) : stdpp_scope.

(** What a dereference contributes: nothing, or a panic. *)
Definition rderef {A} (p : option A) (k : A → rendering) : rendering :=
  match p with
  | Some a => k a
  | None => rpanic nil_deref
  end.

(** The number of traversals a range over an optional map makes. *)
Definition nonnil {A} (m : option A) : nat :=
  match m with
  | Some _ => 1
  | None => 0
  end.

(** What a block guarded by a nil test contributes. *)
Definition ropt {A} (p : option A) (k : A → rendering) : rendering :=
  match p with
  | Some a => k a
  | None => rnil
  end.

(** ** Lines *)

(** [fmt.Printf("<label>: %s\n", v)]. *)
Definition field_line (label v : string) : string :=
  label +:+ ": " +:+ v +:+ nl.

(** [fmt.Printf("\t%s -> %s\n", k, v)]. *)
Definition entry_line (kv : string * string) : string :=
  tab +:+ kv.1 +:+ " -> " +:+ kv.2 +:+ nl.

(** A line printed only if its field is present. *)
Definition opt_line (label : string) (v : option string) : list string :=
  match v with
  | Some s => [field_line label s]
  | None => []
  end.

(** ** Fields *)

(** The metadata block: Name, UID, Namespace, Attempt, each if present. *)
Definition metadata_rendering (md : option PodSandboxMetadata) : rendering :=
  ropt md (λ m,
    ropt (md_Name m) (λ v, rlines [field_line "Name" v]) +++
    ropt (md_Uid m) (λ v, rlines [field_line "UID" v]) +++
    ropt (md_Namespace m) (λ v, rlines [field_line "Namespace" v]) +++
    ropt (md_Attempt m) (λ v, rlines [field_line "Attempt" (pretty v)])).

(** A map under its header, if the map is not nil; [s] is the number of
    traversals made before this one. *)
Definition map_rendering {host : Host} (header : string) (s : nat)
    (m : option (gmap string string)) : rendering :=
  ropt m (λ m,
    mkRendering
      ((header +:+ nl) :: (entry_line <$> range_order s (map_to_list m)))
      1 None).

(** Labels, then annotations. *)
Definition maps_rendering {host : Host} (s : nat)
    (labels annotations : option (gmap string string)) : rendering :=
  let r := map_rendering "Labels:" s labels in
  r +++ map_rendering "Annotations:" (s + ranges r) annotations.

(** The network namespace of the Linux block: both pointers on the way
    are dereferenced without a test. *)
Definition linux_rendering (lx : option LinuxPodSandboxStatus) : rendering :=
  ropt lx (λ l,
    rderef (lx_Namespaces l) (λ ns,
    rderef (ns_Network ns) (λ n,
    rlines [field_line "Network namespace" n]))).

Definition network_rendering (nw : option PodSandboxNetworkStatus) :
    rendering :=
  ropt nw (λ n,
    rderef (net_Ip n) (λ ip, rlines [field_line "IP Address" ip])).

(** ** The status command *)

Definition status_rendering {host : Host} (s : nat) (st : PodSandboxStatus) :
    rendering :=
  rderef (st_Id st) (λ id, rlines [field_line "ID" id]) +++
  metadata_rendering (st_Metadata st) +++
  ropt (st_State st) (λ s,
    rlines [field_line "Status" (PodSandBoxState_String s)]) +++
  ropt (st_CreatedAt st) (λ t, rlines [field_line "Created" (time_String t)]) +++
  linux_rendering (st_Linux st) +++
  network_rendering (st_Network st) +++
  maps_rendering s (st_Labels st) (st_Annotations st).

(** The fields the status command dereferences without a test are
    present. *)
Definition status_complete (st : PodSandboxStatus) : Prop :=
  is_Some (st_Id st) ∧
  (∀ l, st_Linux st = Some l →
     ∃ ns, lx_Namespaces l = Some ns ∧ is_Some (ns_Network ns)) ∧
  (∀ n, st_Network st = Some n → is_Some (net_Ip n)).

(** ** The list command *)

(** One entry in full: the state is printed whether present or not, and
    the creation time is dereferenced without a test. *)
Definition pod_rendering {host : Host} (s : nat) (pod : PodSandbox) : rendering :=
  rderef (pod_Id pod) (λ id, rlines [field_line "ID" id]) +++
  metadata_rendering (pod_Metadata pod) +++
  rlines [field_line "Status" (state_text (pod_State pod))] +++
  rderef (pod_CreatedAt pod) (λ t,
    rlines [field_line "Created" (time_String t)]) +++
  maps_rendering s (pod_Labels pod) (pod_Annotations pod).

(** One entry, in quiet mode or in full. *)
Definition item_rendering {host : Host} (quiet : bool) (s : nat)
    (item : option PodSandbox) : rendering :=
  rderef item (λ pod,
    if quiet then rderef (pod_Id pod) (λ id, rlines [id +:+ nl])
    else pod_rendering s pod).

(** The entries in the order of the response. *)
Fixpoint items_rendering {host : Host} (quiet : bool) (s : nat)
    (items : list (option PodSandbox)) : rendering :=
  match items with
  | [] => rnil
  | item :: items' =>
      let r := item_rendering quiet s item in
      r +++ items_rendering quiet (s + ranges r) items'
  end.

(** ** Renderings up to the order of the entries

    Two renderings are equivalent when they write the same lines up to the
    order of the entries inside each block ([blockwise]), make the same
    number of traversals and end the same way: what two runs of a command
    have in common when the host ranges over the maps in different
    orders. *)
#[export] Instance rendering_equiv : Equiv rendering := λ r1 r2,
  blockwise (lines r1) (lines r2) ∧ ranges r1 = ranges r2 ∧
  stopped r1 = stopped r2.

(** ** The monoid of renderings *)

Lemma rseq_nil_l r : rnil +++ r = r.
Proof. by destruct r. Qed.

Lemma rseq_nil_r r : r +++ rnil = r.
Proof.
  destruct r as [ls n [p|]]; unfold rseq; simpl; [done|].
  by rewrite app_nil_r, Nat.add_0_r.
Qed.

Lemma rseq_assoc r1 r2 r3 : (r1 +++ r2) +++ r3 = r1 +++ r2 +++ r3.
Proof.
  destruct r1 as [l1 n1 [p1|]], r2 as [l2 n2 [p2|]]; unfold rseq; simpl;
    try done.
  by rewrite app_assoc, Nat.add_assoc.
Qed.

Lemma rseq_rlines ls1 ls2 : rlines ls1 +++ rlines ls2 = rlines (ls1 ++ ls2).
Proof. reflexivity. Qed.

Lemma rseq_rpanic p r : rpanic p +++ r = rpanic p.
Proof. reflexivity. Qed.

(** A sequence completes exactly when both parts do. *)
Lemma stopped_rseq_None r1 r2 :
  stopped (r1 +++ r2) = None ↔ stopped r1 = None ∧ stopped r2 = None.
Proof.
  destruct r1 as [l1 n1 [p1|]]; unfold rseq; simpl; [|tauto].
  split; [done|by intros [? _]].
Qed.

(** When the first part completes, the lines and traversals add up. *)
Lemma lines_rseq r1 r2 :
  stopped r1 = None → lines (r1 +++ r2) = lines r1 ++ lines r2.
Proof. unfold rseq. by intros ->. Qed.

Lemma ranges_rseq r1 r2 :
  stopped r1 = None → ranges (r1 +++ r2) = ranges r1 + ranges r2.
Proof. unfold rseq. by intros ->. Qed.

(** Whatever happens, the lines of the first part are printed first. *)
Lemma lines_rseq_prefix r1 r2 : lines r1 `prefix_of` lines (r1 +++ r2).
Proof.
  unfold rseq. destruct (stopped r1); simpl; [done|]. by apply prefix_app_r.
Qed.

#[export] Hint Rewrite rseq_nil_l rseq_nil_r rseq_rlines rseq_rpanic : go.

(** The lines of a sequence are at most those of its parts. *)
Lemma length_lines_rseq r1 r2 :
  length (lines (r1 +++ r2)) ≤ length (lines r1) + length (lines r2).
Proof.
  unfold rseq. destruct (stopped r1); simpl; [lia|]. rewrite length_app. lia.
Qed.

Lemma length_lines_rseq_le r1 r2 a b :
  length (lines r1) ≤ a → length (lines r2) ≤ b →
  length (lines (r1 +++ r2)) ≤ a + b.
Proof. intros. etrans; [apply length_lines_rseq|lia]. Qed.

(** ** The blocks: when they stop, what they print *)

Section Blocks.
Context {host : Host}.
Implicit Types (md : option PodSandboxMetadata) (m : option (gmap string string)).

(** The metadata block prints the present fields in the order Name, UID,
    Namespace, Attempt. *)
Lemma lines_metadata_rendering (x : PodSandboxMetadata) :
  lines (metadata_rendering (Some x)) =
  opt_line "Name" (md_Name x) ++ opt_line "UID" (md_Uid x) ++
  opt_line "Namespace" (md_Namespace x) ++
  opt_line "Attempt" (pretty <$> md_Attempt x).
Proof. by destruct x as [[n|] [u|] [ns|] [a|]]. Qed.

Lemma stopped_metadata_rendering md : stopped (metadata_rendering md) = None.
Proof. by destruct md as [[[n|] [u|] [ns|] [a|]]|]. Qed.

Lemma ranges_metadata_rendering md : ranges (metadata_rendering md) = 0.
Proof. by destruct md as [[[n|] [u|] [ns|] [a|]]|]. Qed.

Lemma length_metadata_rendering md :
  length (lines (metadata_rendering md)) ≤ 4.
Proof. destruct md as [[[n|] [u|] [ns|] [a|]]|]; simpl; lia. Qed.

Lemma stopped_map_rendering header s m :
  stopped (map_rendering header s m) = None.
Proof. by destruct m. Qed.

Lemma ranges_map_rendering header s m :
  ranges (map_rendering header s m) = nonnil m.
Proof. by destruct m. Qed.

Lemma length_map_rendering header s m :
  length (lines (map_rendering header s m)) =
  from_option (λ x, Datatypes.S (size x)) 0 m.
Proof.
  destruct m as [x|]; [|done]. simpl. f_equal.
  by rewrite length_fmap, (Permutation_length (range_order_perm _ _)),
    length_map_to_list.
Qed.

Lemma stopped_maps_rendering s m1 m2 :
  stopped (maps_rendering s m1 m2) = None.
Proof.
  unfold maps_rendering. apply stopped_rseq_None.
  split; apply stopped_map_rendering.
Qed.

Lemma lines_maps_rendering s m1 m2 :
  lines (maps_rendering s m1 m2) =
  lines (map_rendering "Labels:" s m1) ++
  lines (map_rendering "Annotations:" (s + nonnil m1) m2).
Proof.
  unfold maps_rendering.
  rewrite lines_rseq, ranges_map_rendering by apply stopped_map_rendering.
  done.
Qed.

Lemma ranges_maps_rendering s m1 m2 :
  ranges (maps_rendering s m1 m2) = nonnil m1 + nonnil m2.
Proof.
  unfold maps_rendering.
  by rewrite ranges_rseq, !ranges_map_rendering
    by apply stopped_map_rendering.
Qed.

(** The Linux block completes when there is no block or both pointers are
    set; the network block likewise. *)
Lemma stopped_linux_rendering lx :
  stopped (linux_rendering lx) = None ↔
  ∀ l, lx = Some l → ∃ ns, lx_Namespaces l = Some ns ∧ is_Some (ns_Network ns).
Proof.
  destruct lx as [[[[[n|]]|]]|]; simpl; split; try done.
  - intros _ l [= <-]. eauto.
  - intros Hl. destruct (Hl _ eq_refl) as (ns & [= <-] & [? [=]]).
  - intros Hl. by destruct (Hl _ eq_refl) as (ns & [=] & _).
Qed.

Lemma stopped_network_rendering nw :
  stopped (network_rendering nw) = None ↔
  ∀ n, nw = Some n → is_Some (net_Ip n).
Proof.
  destruct nw as [[[ip|]]|]; simpl; split; try done.
  - intros _ n [= <-]. eauto.
  - intros Hn. by destruct (Hn _ eq_refl) as [? [=]].
Qed.

Lemma length_linux_rendering lx : length (lines (linux_rendering lx)) ≤ 1.
Proof. destruct lx as [[[[[n|]]|]]|]; simpl; lia. Qed.

Lemma length_network_rendering nw :
  length (lines (network_rendering nw)) ≤ 1.
Proof. destruct nw as [[[ip|]]|]; simpl; lia. Qed.

Lemma stopped_rderef_rlines {A} (p : option A) (f : A → list string) :
  stopped (rderef p (λ a, rlines (f a))) = None ↔ is_Some p.
Proof.
  destruct p as [a|]; simpl; (split; [|done]); [eauto|done..].
Qed.

Lemma stopped_ropt_rlines {A} (p : option A) (f : A → list string) :
  stopped (ropt p (λ a, rlines (f a))) = None.
Proof. by destruct p. Qed.

Lemma length_rderef_line {A} (p : option A) (f : A → string) :
  length (lines (rderef p (λ a, rlines [f a]))) ≤ 1.
Proof. destruct p; simpl; lia. Qed.

Lemma length_ropt_line {A} (p : option A) (f : A → string) :
  length (lines (ropt p (λ a, rlines [f a]))) ≤ 1.
Proof. destruct p; simpl; lia. Qed.

End Blocks.

#[export] Hint Rewrite @stopped_metadata_rendering @ranges_metadata_rendering
  @stopped_map_rendering @ranges_map_rendering @stopped_maps_rendering
  @ranges_maps_rendering @stopped_ropt_rlines : go.

(** ** The equivalence and its morphisms *)

#[export] Instance rendering_equivalence : Equivalence (≡@{rendering}).
Proof.
  split.
  - by intros r.
  - by intros r1 r2 (H1 & H2 & H3).
  - intros r1 r2 r3 (H1 & H2 & H3) (H1' & H2' & H3').
    split; [by etrans|split; congruence].
Qed.

#[export] Instance lines_proper : Proper ((≡) ==> blockwise) lines.
Proof. by intros r1 r2 (H & _). Qed.

#[export] Instance lines_perm : Proper ((≡) ==> (≡ₚ)) lines.
Proof. intros r1 r2 (H & _). by apply blockwise_Permutation. Qed.

#[export] Instance ranges_proper : Proper ((≡) ==> (=)) ranges.
Proof. by intros r1 r2 (_ & H & _). Qed.

#[export] Instance stopped_proper : Proper ((≡) ==> (=)) stopped.
Proof. by intros r1 r2 (_ & _ & H). Qed.

#[export] Instance rseq_proper : Proper ((≡) ==> (≡) ==> (≡)) rseq.
Proof.
  intros r1 r1' (Hl1 & Hr1 & Hs1) r2 r2' (Hl2 & Hr2 & Hs2).
  unfold rseq. rewrite Hs1. destruct (stopped r1') eqn:Hs1'.
  - repeat split; [done|done|congruence].
  - split; simpl; [by rewrite Hl1, Hl2|by rewrite Hr1, Hr2].
Qed.

(** Sequences that differ in their last component only. *)
Ltac rseq_equiv := repeat (apply rseq_proper; [reflexivity|]).

Section Order.
Context {host : Host}.

Lemma map_rendering_equiv header s1 s2 m :
  map_rendering header s1 m ≡ map_rendering header s2 m.
Proof.
  destruct m as [m|]; [|done]. split; [simpl|done].
  apply blockwise_cons, blockwise_entries; [|by rewrite !range_order_perm].
  apply Forall_fmap, Forall_true. intros kv. apply is_entry_tab.
Qed.

Lemma maps_rendering_equiv s1 s2 m1 m2 :
  maps_rendering s1 m1 m2 ≡ maps_rendering s2 m1 m2.
Proof. unfold maps_rendering. f_equiv; apply map_rendering_equiv. Qed.

Lemma status_rendering_equiv s1 s2 st :
  status_rendering s1 st ≡ status_rendering s2 st.
Proof. unfold status_rendering. rseq_equiv. apply maps_rendering_equiv. Qed.

Lemma item_rendering_equiv quiet s1 s2 item :
  item_rendering quiet s1 item ≡ item_rendering quiet s2 item.
Proof.
  destruct item as [pod|], quiet; try done. simpl. unfold pod_rendering.
  rseq_equiv. apply maps_rendering_equiv.
Qed.

Lemma items_rendering_equiv quiet s1 s2 items :
  items_rendering quiet s1 items ≡ items_rendering quiet s2 items.
Proof.
  revert s1 s2; induction items as [|item items IH]; intros s1 s2; [done|].
  simpl. f_equiv; [apply item_rendering_equiv|apply IH].
Qed.

End Order.

(** ** Properties of the renderings *)

Section Properties.
Context {host : Host}.

(** The rendering of a status completes without panic exactly when
    the status is complete: the identifier is present, a Linux block carries
    its namespaces and their network path, and a network block carries its
    address.  Every other field may be absent. *)
Lemma status_completes_iff s st :
  stopped (status_rendering s st) = None ↔ status_complete st.
Proof.
  unfold status_rendering, status_complete.
  rewrite !stopped_rseq_None, stopped_rderef_rlines,
    stopped_linux_rendering, stopped_network_rendering.
  autorewrite with go. tauto.
Qed.

(** The identifier comes first: when the status has an identifier,
    the first line printed is the identifier line; when it has none, the
    rendering panics before printing anything. *)
Lemma identifier_first s st :
  match st_Id st with
  | Some id => head (lines (status_rendering s st)) = Some (field_line "ID" id)
  | None => status_rendering s st = rpanic nil_deref
  end.
Proof. unfold status_rendering. by destruct (st_Id st). Qed.

(** The rendering of a map is its header followed by one line per entry,
    the entries being those of the map in some order: the lines after the
    header are a permutation of the entry lines of the map, so their number
    is the size of the map, whatever order the host chooses. *)
Lemma map_rendering_permutation header s (m : gmap string string) :
  ∃ ls, lines (map_rendering header s (Some m)) = (header +:+ nl) :: ls ∧
        ls ≡ₚ entry_line <$> map_to_list m ∧
        length ls = size m.
Proof.
  eexists. split; [reflexivity|]. split.
  - by rewrite range_order_perm.
  - by rewrite length_fmap, (Permutation_length (range_order_perm _ _)),
      length_map_to_list.
Qed.

(** The status command prints at most eleven lines besides the
    entries of the two maps: identifier, four metadata fields, state,
    creation time, network namespace, address and the two headers. *)
Lemma status_line_count s st :
  length (lines (status_rendering s st)) ≤
  11 + from_option size 0 (st_Labels st)
     + from_option size 0 (st_Annotations st).
Proof.
  unfold status_rendering. etrans.
  { repeat (eapply length_lines_rseq_le;
      [first [apply length_rderef_line|apply length_metadata_rendering
             |apply length_ropt_line|apply length_linux_rendering
             |apply length_network_rendering]|]).
    by rewrite lines_maps_rendering, length_app, !length_map_rendering. }
  destruct (st_Labels st), (st_Annotations st); simpl; lia.
Qed.

(** An entry of a list whose state and creation time are present is
    rendered exactly as the status with the same fields and no Linux or
    network block: the two commands print a sandbox the same way. *)
Lemma pod_rendering_as_status s pod state t :
  pod_State pod = Some state →
  pod_CreatedAt pod = Some t →
  pod_rendering s pod =
  status_rendering s
    (mkStatus (pod_Id pod) (pod_Metadata pod) (pod_State pod)
       (pod_CreatedAt pod) None None (pod_Labels pod) (pod_Annotations pod)).
Proof.
  intros Hs Ht. unfold pod_rendering, status_rendering. simpl.
  rewrite Hs, Ht. simpl. by rewrite !rseq_nil_l.
Qed.

(** An entry without creation time: the rendering stops after the
    identifier, metadata and state lines. *)
Lemma pod_rendering_no_CreatedAt s pod id :
  pod_Id pod = Some id →
  pod_CreatedAt pod = None →
  pod_rendering s pod =
  mkRendering
    (field_line "ID" id :: lines (metadata_rendering (pod_Metadata pod)) ++
     [field_line "Status" (state_text (pod_State pod))])
    0 (Some nil_deref).
Proof.
  intros Hid Ht. unfold pod_rendering. rewrite Hid, Ht.
  pose proof (stopped_metadata_rendering (pod_Metadata pod)) as Hs.
  pose proof (ranges_metadata_rendering (pod_Metadata pod)) as Hr.
  destruct (metadata_rendering (pod_Metadata pod)) as [ls n sp].
  simpl in *. by subst.
Qed.

(** Quiet mode: the identifiers, one per line. *)
Lemma items_rendering_quiet s pods ids :
  pod_Id <$> pods = Some <$> ids →
  items_rendering true s (Some <$> pods) = rlines ((λ id, id +:+ nl) <$> ids).
Proof.
  revert s ids. induction pods as [|pod pods IH]; intros s [|id ids] Hids;
    simplify_eq/=; [done|].
  rewrite H. simpl. rewrite Nat.add_0_r, (IH s ids) by done. done.
Qed.

(** Whatever its identifier, an entry without creation time stops the
    full rendering with a nil dereference. *)
Lemma stopped_pod_rendering_no_CreatedAt s pod :
  pod_CreatedAt pod = None → stopped (pod_rendering s pod) = Some nil_deref.
Proof.
  intros Ht. destruct (pod_Id pod) as [id|] eqn:Hid.
  - by rewrite (pod_rendering_no_CreatedAt s pod id).
  - unfold pod_rendering. by rewrite Hid.
Qed.

(** Two runs of the status command or of the list command on the
    same answer differ by the order of the lines only: whatever the number of
    traversals made before, the lines written are the same up to a
    permutation, and the number of traversals and the outcome are the
    same. *)
Lemma runs_differ_by_order s1 s2 :
  (∀ st, status_rendering s1 st ≡ status_rendering s2 st) ∧
  (∀ quiet items,
     items_rendering quiet s1 items ≡ items_rendering quiet s2 items).
Proof.
  split; intros; [apply status_rendering_equiv|apply items_rendering_equiv].
Qed.

(** *** Hosts with a fixed order *)

Section Fixed.
Hypothesis Hfix : ∀ n1 n2 l, range_order n1 l = range_order n2 l.

Lemma map_rendering_fixed header s1 s2 m :
  map_rendering header s1 m = map_rendering header s2 m.
Proof. destruct m as [m|]; [|done]. simpl. by rewrite (Hfix s1 s2). Qed.

Lemma maps_rendering_fixed s1 s2 m1 m2 :
  maps_rendering s1 m1 m2 = maps_rendering s2 m1 m2.
Proof.
  unfold maps_rendering. rewrite (map_rendering_fixed "Labels:" s1 s2).
  cbv zeta. f_equal. apply map_rendering_fixed.
Qed.

Lemma items_rendering_fixed quiet s1 s2 items :
  items_rendering quiet s1 items = items_rendering quiet s2 items.
Proof.
  revert s1 s2. induction items as [|item items IH]; intros s1 s2; [done|].
  cbn [items_rendering].
  assert (item_rendering quiet s1 item = item_rendering quiet s2 item) as ->.
  { destruct item as [pod|], quiet; try done. unfold item_rendering, rderef,
      pod_rendering. by rewrite (maps_rendering_fixed s1 s2). }
  f_equal. apply IH.
Qed.

End Fixed.

(** The only source of variation in what the status and list commands
    print is the order in which the host ranges over maps: on a host whose
    order does not depend on the traversal, the rendering of a status and
    of a list is the same at every run. *)
Lemma fixed_order_same_rendering s1 s2 :
  (∀ n1 n2 l, range_order n1 l = range_order n2 l) →
  (∀ st, status_rendering s1 st = status_rendering s2 st) ∧
  (∀ quiet items,
     items_rendering quiet s1 items = items_rendering quiet s2 items).
Proof.
  intros Hfix. split; [|by intros; apply items_rendering_fixed].
  intros st. unfold status_rendering.
  by rewrite (maps_rendering_fixed Hfix s1 s2).
Qed.

End Properties.

(** The host that ranges in the order of the keys prints the entries of
    every map in ascending order of their keys. *)
Lemma sorted_host_ascending n l :
  Sorted key_le (@range_order sorted_host n l).
Proof.
  apply Sorted_merge_sort. intros kv1 kv2. apply (total String.le).
Qed.

(** ** Reading the output back *)

(** The entry a line of a map block denotes: the line is a tab, the key,
    an arrow between two spaces, the value and a line feed. *)
Definition read_entry (line : string) : option (string * string) :=
  body ← unline line;
  r ← after_prefix tab body;
  '(k, r') ← split_space r;
  v ← after_prefix "-> " r';
  Some (k, v).

Lemma read_entry_line k v :
  spaceless k → read_entry (entry_line (k, v)) = Some (k, v).
Proof.
  intros Hk. unfold read_entry, entry_line. cbn [fst snd].
  rewrite <-!string_app_assoc, unline_line, !string_app_assoc.
  cbn [mbind option_bind]. rewrite after_prefix_app. cbn [mbind option_bind].
  change (" -> " +:+ v) with (String " " ("-> " +:+ v)).
  rewrite split_space_app by done. cbn [mbind option_bind].
  by rewrite after_prefix_app.
Qed.

(** The entries of a map, in whatever order the host ranges, make the
    map. *)
Lemma list_to_map_range_order {host : Host} s (m : gmap string string) :
  list_to_map (range_order s (map_to_list m)) = m.
Proof.
  rewrite <-(list_to_map_to_list m) at 2.
  apply list_to_map_proper; [|apply range_order_perm].
  rewrite range_order_perm. apply NoDup_fst_map_to_list.
Qed.

(** The entry lines of a map, in whatever order the host ranges, read back
    as the map. *)
Lemma read_entries_map {host : Host} s (m : gmap string string) :
  map_Forall (λ k _, spaceless k) m →
  list_to_map <$> mapM read_entry (entry_line <$> range_order s (map_to_list m))
  = Some m.
Proof.
  intros Hm. rewrite (mapM_fmap_Forall_Some _ entry_line).
  - simpl. by rewrite list_to_map_range_order.
  - rewrite range_order_perm. apply Forall_forall. intros [k v] Hkv.
    apply read_entry_line. apply elem_of_map_to_list in Hkv. by apply Hm in Hkv.
Qed.

(** Without the condition on the keys the text is ambiguous: two different
    entries are printed as the same line. *)
Example entry_line_ambiguous :
  entry_line ("a -> b", "c") = entry_line ("a", "b -> c").
Proof. reflexivity. Qed.

(** The quiet listing can be read back: removing the final line feed of
    each line printed gives the identifiers of the entries, in order. *)
Lemma quiet_listing_roundtrip {host : Host} s pods ids :
  pod_Id <$> pods = Some <$> ids →
  unline <$> lines (items_rendering true s (Some <$> pods)) = Some <$> ids.
Proof.
  intros Hids. rewrite (items_rendering_quiet s pods ids Hids). simpl.
  rewrite <-list_fmap_compose. apply list_fmap_ext. intros i id _. simpl.
  apply unline_line.
Qed.

(** ** The width of the metadata block *)

(** The number of bytes of a field that may be absent. *)
Definition field_length (v : option string) : nat :=
  from_option String.length 0 v.

(** A line takes its label, a colon, a space, its value and a line
    feed. *)
Lemma length_opt_line label v :
  String.length (text (opt_line label v)) ≤
  String.length label + 3 + field_length v.
Proof.
  destruct v as [v|]; simpl; [|lia]. unfold field_line.
  rewrite !string_length_app. simpl. lia.
Qed.

(** A 32-bit unsigned integer is printed with at most ten digits. *)
Lemma length_pretty_uint32 (a : N) :
  (a < 2 ^ 32)%N → String.length (pretty a) ≤ 10.
Proof.
  intros Ha. apply (length_pretty_N 10); [lia|].
  change (10 ^ N.of_nat 10)%N with 10000000000%N.
  change (2 ^ 32)%N with 4294967296%N in Ha. lia.
Qed.

(** The metadata block takes at most forty-five bytes besides those of the
    name, the uid and the namespace: the labels, and at most ten digits
    for the attempt count, which is a 32-bit unsigned integer. *)
Lemma length_text_metadata (x : PodSandboxMetadata) :
  wf_metadata x →
  String.length (text (lines (metadata_rendering (Some x)))) ≤
  45 + field_length (md_Name x) + field_length (md_Uid x) +
  field_length (md_Namespace x).
Proof.
  intros Hwf. rewrite lines_metadata_rendering, !length_text_app.
  pose proof (length_opt_line "Name" (md_Name x)).
  pose proof (length_opt_line "UID" (md_Uid x)).
  pose proof (length_opt_line "Namespace" (md_Namespace x)).
  pose proof (length_opt_line "Attempt" (pretty <$> md_Attempt x)) as Ha.
  assert (field_length (pretty <$> md_Attempt x) ≤ 10).
  { destruct (md_Attempt x) as [a|] eqn:E; simpl; [|lia].
    by apply length_pretty_uint32, Hwf. }
  simpl in *. lia.
Qed.

(** ** Running a rendering in a world *)

Section Run.
Context {S : Type} {host : Host}.
Implicit Types (m : Go (World S) ()) (r : rendering).

(** The outcome and the world after the effects of a rendering. *)
Definition run_rendering (r : rendering) (w : World S) :
    outcome () * World S :=
  (match stopped r with None => Ret () | Some p => Panic p end,
   emit (lines r) (bump (ranges r) w)).

(** [m] refines [R]: in every world, [m] has exactly the effects of the
    rendering [R] computes from the number of traversals made so far. *)
Definition refines (m : Go (World S) ()) (R : nat → rendering) : Prop :=
  ∀ w, m w = run_rendering (R (seed w)) w.

(** [m] prints [r]: it refines [r] and ranges over no map. *)
Definition prints (m : Go (World S) ()) (r : rendering) : Prop :=
  ranges r = 0 ∧ refines m (λ _, r).

Lemma run_rendering_pure r w :
  ranges r = 0 →
  run_rendering r w =
  (match stopped r with None => Ret () | Some p => Panic p end,
   emit (lines r) w).
Proof. unfold run_rendering. intros ->. by rewrite bump_0. Qed.

(** A rendering only appends writes to the trace: it issues no call and
    leaves the service as it is. *)
Lemma trace_run_rendering r w :
  trace (run_rendering r w).2 = trace w ++ (EvWrite <$> lines r).
Proof. reflexivity. Qed.

Lemma svc_run_rendering r w : svc (run_rendering r w).2 = svc w.
Proof. reflexivity. Qed.

Lemma seed_run_rendering r w : seed (run_rendering r w).2 = seed w + ranges r.
Proof. reflexivity. Qed.

Lemma stdout_run_rendering r w :
  stdout (run_rendering r w).2 = stdout w ++ lines r.
Proof. unfold run_rendering. cbn [snd]. by rewrite stdout_emit, stdout_bump. Qed.

(** Equivalent renderings run from worlds with the same output: the
    outcome is the same and the outputs are the same up to the order of the
    entries inside each block. *)
Lemma run_rendering_equiv r1 r2 w1 w2 :
  r1 ≡ r2 → stdout w1 = stdout w2 →
  (run_rendering r1 w1).1 = (run_rendering r2 w2).1 ∧
  blockwise (stdout (run_rendering r1 w1).2) (stdout (run_rendering r2 w2).2).
Proof.
  intros (Hl & _ & Hs) Hw. rewrite !stdout_run_rendering, Hw, Hl.
  split; [|done]. unfold run_rendering. cbn [fst]. by rewrite Hs.
Qed.

(** *** Code that ranges over no map *)

Lemma prints_ret : prints (mret ()) rnil.
Proof. split; [done|]. intros w. rewrite run_rendering_pure by done.
  simpl. by rewrite emit_nil. Qed.

Lemma prints_Printf s : prints (Printf s) (rlines [s]).
Proof. split; [done|]. intros w. by rewrite run_rendering_pure. Qed.

Lemma prints_Println s : prints (Println s) (rlines [s +:+ nl]).
Proof. apply prints_Printf. Qed.

Lemma prints_seq m1 m2 r1 r2 :
  prints m1 r1 → prints m2 r2 → prints (m1 ;; m2) (r1 +++ r2).
Proof.
  intros [Hn1 H1] [Hn2 H2].
  assert (ranges (r1 +++ r2) = 0) as Hn.
  { unfold rseq. destruct (stopped r1); simpl; lia. }
  split; [done|]. intros w.
  rewrite run_bind, H1, !run_rendering_pure by done.
  unfold rseq. destruct (stopped r1) as [p|] eqn:Hs; [simpl; by rewrite Hs|].
  rewrite H2, run_rendering_pure by done. simpl. by rewrite emit_app.
Qed.

Lemma prints_deref {A} (p : option A) (k : A → Go (World S) ()) g :
  (∀ a, prints (k a) (g a)) → prints (deref p ≫= k) (rderef p g).
Proof.
  intros Hk. destruct p as [a|]; [apply Hk|]. split; [done|].
  intros w. rewrite run_rendering_pure by done. simpl. by rewrite emit_nil.
Qed.

Lemma prints_if_nonnil {A} (p : option A) (k : A → Go (World S) ()) g :
  (∀ a, prints (k a) (g a)) → prints (if_nonnil p k) (ropt p g).
Proof. intros Hk. destruct p as [a|]; [apply Hk|apply prints_ret]. Qed.

(** A loop that prints one line per element. *)
Lemma prints_for_each {A} (l : list A) (f : A → string) :
  prints (for_each l (λ x, Printf (f x))) (rlines (f <$> l)).
Proof.
  induction l as [|x l IH]; [apply prints_ret|].
  apply (prints_seq _ _ (rlines [f x]) _ (prints_Printf _) IH).
Qed.

(** *** Code that may range over maps *)

Lemma refines_prints m r : prints m r → refines m (λ _, r).
Proof. by intros [_ ?]. Qed.

(** Sequencing of code is sequencing of renderings, the second one
    starting after the traversals of the first. *)
Lemma refines_seq m1 m2 R1 R2 :
  refines m1 R1 → refines m2 R2 →
  refines (m1 ;; m2) (λ s, R1 s +++ R2 (s + ranges (R1 s))).
Proof.
  intros H1 H2 w. rewrite run_bind, H1. unfold run_rendering at 1.
  destruct (stopped (R1 (seed w))) as [p|] eqn:Hs.
  { unfold run_rendering, rseq. rewrite Hs. by rewrite Hs. }
  rewrite H2. unfold run_rendering, rseq. rewrite Hs.
  cbn [lines ranges stopped]. rewrite seed_emit, seed_bump.
  by rewrite bump_emit, bump_bump, emit_app.
Qed.

(** After code that ranges over no map, the count is unchanged. *)
Lemma refines_seq_prints m1 m2 r1 R2 :
  prints m1 r1 → refines m2 R2 → refines (m1 ;; m2) (λ s, r1 +++ R2 s).
Proof.
  intros [Hn H1] H2 w. rewrite (refines_seq _ _ _ _ H1 H2 w).
  by rewrite Hn, Nat.add_0_r.
Qed.

Lemma refines_deref {A} (p : option A) (k : A → Go (World S) ()) G :
  (∀ a, refines (k a) (G a)) →
  refines (deref p ≫= k) (λ s, rderef p (λ a, G a s)).
Proof.
  intros Hk. destruct p as [a|]; [apply Hk|].
  intros w. rewrite run_rendering_pure by done. simpl. by rewrite emit_nil.
Qed.

(** Refinement only depends on the rendering function pointwise. *)
Lemma refines_ext m R1 R2 : (∀ s, R1 s = R2 s) → refines m R1 → refines m R2.
Proof. intros Hr Hm w. by rewrite <-Hr. Qed.

End Run.

#[export] Hint Rewrite @trace_run_rendering @svc_run_rendering
  @seed_run_rendering : go.

(** [prints_go] and [refines_go] decompose a goal along the structure of
    the code; the rendering is built as the code is traversed.  Lemmas about
    named blocks are taken from the database [go]. *)
Ltac prints_go :=
  lazymatch goal with
  | |- prints (mret _) _ => apply prints_ret
  | |- prints (Printf _) _ => apply prints_Printf
  | |- prints (Println _) _ => apply prints_Println
  | |- prints (deref _ ≫= _) _ => apply prints_deref; intros ?; prints_go
  | |- prints (if_nonnil _ _) _ => apply prints_if_nonnil; intros ?; prints_go
  | |- prints (_ ≫= _) _ => apply prints_seq; prints_go
  | |- prints _ _ => solve [eauto with go]
  end.

Ltac refines_go :=
  lazymatch goal with
  | |- refines (deref _ ≫= _) _ =>
      first [apply refines_prints; prints_go
            |apply refines_deref; intros ?; refines_go]
  | |- refines (_ ≫= _) _ =>
      first [apply refines_seq_prints; [prints_go|refines_go]
            |apply refines_seq; refines_go]
  | |- refines _ _ =>
      first [apply refines_prints; prints_go|solve [eauto with go]]
  end.

(** [refines_by] proves [refines m R] by building the rendering of [m]
    and leaving the equation between it and [R]. *)
Ltac refines_by := eapply refines_ext; [|refines_go].

(** On the host that ranges in the order of the keys, the labels of the
    sample status are printed in that order. *)
Example sorted_host_labels :
  lines (map_rendering (host:=sorted_host) "Labels:" 3 (Some sample_labels)) =
  ["Labels:" +:+ nl; entry_line ("app", "web"); entry_line ("tier", "front");
   entry_line ("zone", "a")].
Proof. by vm_compute. Qed.

