(* ===== verification/Pipeline.v ===== *)
(** * Pipeline: the specification of one invocation

    The design of the client is a pipeline: the Request Builder makes a
    request of the values of the flags, the request goes to the service
    over a connection of its own, and the Response Renderer prints the
    answer.  This file states that pipeline once, for the five subcommands,
    as a function of the flags, of the host and of the state of the
    service: what is built ([build_create], [build_by_id]), what the
    service is asked ([serve]), what is printed ([render]), the events of
    the session in their order ([session]) and the way it ends, as a
    [verdict] whose failures are the four kinds of the error taxonomy.
    [printable] says which answers print without a crash and [visited]
    how many entries the loop of a listing visits.
    Nothing here is written with the statements of the program: it is the
    single scoped helper the design notes ask for.  [Commands] proves that
    the five closures of the command table do exactly this. *)

From S2P Require Import Prelude Blocks GoRuntime Proto World Render.

(** ** How an invocation ends *)

(** The kinds of failure of the error taxonomy, with the error of the
    collaborator that caused it. *)
Inductive failure : Type :=
| ConnectionError (cause : error)
| ValidationError
| ConfigLoadError (cause : error)
| RemoteError (cause : error).

#[export] Instance failure_eq_dec : EqDecision failure.
Proof. solve_decision. Defined.

Inductive verdict : Type :=
| Done
| Failed (f : failure)
| Crashed (p : string).

#[export] Instance verdict_eq_dec : EqDecision verdict.
Proof. solve_decision. Defined.

(** The error of the collaborator, or of the test that failed. *)
Definition cause (f : failure) : error :=
  match f with
  | ValidationError => "ID cannot be empty"
  | ConnectionError e | ConfigLoadError e | RemoteError e => e
  end.

(** The text of a failure of the command whose prefix is [prefix]. *)
Definition message (prefix : string) (f : failure) : error :=
  match f with
  | ConnectionError e => "failed to connect: " +:+ e
  | _ => prefix +:+ cause f
  end.

(** What the caller of the command receives. *)
Definition report (prefix : string) (v : verdict) : outcome () :=
  match v with
  | Done => Ret ()
  | Failed f => Err (message prefix f)
  | Crashed p => Panic p
  end.

(** What a lifecycle function returns to the closure that called it. *)
Definition returned (v : verdict) : outcome () :=
  match v with
  | Done => Ret ()
  | Failed f => Err (cause f)
  | Crashed p => Panic p
  end.

(** What the Request Builder makes of the flags: a request to send, the
    refusal of an argument, a configuration that cannot be loaded, or a
    crash of the client. *)
Inductive built : Type :=
| Send (rq : request)
| Invalid
| Unreadable (e : error)
| Crash (p : string).

(** The metadata [md] under the name [name]. *)
Definition renamed (name : string) (md : PodSandboxMetadata) :
    PodSandboxMetadata :=
  mkMetadata (Some name) (md_Uid md) (md_Namespace md) (md_Attempt md).

(** What a session does: how it ends, the events it adds to the trace,
    the state it leaves the service in, and the map traversals it makes. *)
Record effect (St : Type) : Type := mkEffect {
  ended : verdict;
  events : list event;
  service : St;
  traversals : nat;
}.
Arguments mkEffect {St} ended events service traversals.
Arguments ended {St} e.
Arguments events {St} e.
Arguments service {St} e.
Arguments traversals {St} e.

(** The world after an effect. *)
Definition after {St} (x : effect St) (w : World St) : World St :=
  mkWorld (trace w ++ events x) (service x) (seed w + traversals x).

(** One line of the table of the group: the prefix of the errors of the
    command, the files it reads, what it builds and whether it lists
    quietly. *)
Record line : Type := mkLine {
  l_prefix : string;
  l_reads : list string;
  l_built : built;
  l_quiet : bool;
}.

Section Pipeline.
Context {St : Type} {host : Host} {client : RuntimeServiceClient St}.
Implicit Types (s : St) (rq : request) (b : built) (w : World St).

(** ** The Request Builder *)

(** Create: the configuration of the file, under the name of the command
    line when one is given.  A name can only be put in a metadata block
    that exists. *)
Definition build_create (path name : string) : built :=
  match config_file path with
  | Failure e => Unreadable e
  | Success config =>
      if decide (name = "") then Send (ReqRun (mkRunReq (Some config)))
      else
        match cfg_Metadata config with
        | None => Crash nil_deref
        | Some md =>
            Send (ReqRun (mkRunReq (Some
              (mkConfig (Some (renamed name md)) (cfg_Runtime config)))))
        end
  end.

(** Stop, remove and status: the identifier, which may not be empty. *)
Definition build_by_id (mk : option string → request) (ID : string) : built :=
  if decide (ID = "") then Invalid else Send (mk (Some ID)).

(** ** The Response Renderer *)

(** What is printed for an answer: the identifier the service returned
    for a creation, the identifier of the request for a stop or a removal,
    the status, the list.  [n] is the number of map traversals the process
    has made. *)
Definition render (quiet : bool) (n : nat) rq (resp : response) : rendering :=
  match resp with
  | RespRun r => rderef (run_PodSandboxId r) (λ id, rlines [id +:+ nl])
  | RespStop _ | RespRemove _ => rlines [default "" (request_id rq) +:+ nl]
  | RespStatus r => rderef (status_Status r) (status_rendering n)
  | RespList r => items_rendering quiet n (list_Items r)
  end.

(** ** One session *)

(** What happens while the connection is open: nothing is sent unless a
    request was built; an answer is printed, an error is not. *)
Definition exchange b (quiet : bool) s (n : nat) : effect St :=
  match b with
  | Invalid => mkEffect (Failed ValidationError) [] s 0
  | Unreadable e => mkEffect (Failed (ConfigLoadError e)) [] s 0
  | Crash p => mkEffect (Crashed p) [] s 0
  | Send rq =>
      match serve rq s with
      | (Failure e, s') => mkEffect (Failed (RemoteError e)) [EvCall rq] s' 0
      | (Success resp, s') =>
          let R := render quiet n rq resp in
          mkEffect (from_option Crashed Done (stopped R))
            (EvCall rq :: (EvWrite <$> lines R)) s' (ranges R)
      end
  end.

(** The session of a command: the dial; if it succeeds, the reads of the
    command, the exchange and the close, on every way out. *)
Definition session (l : line) s (n : nat) : effect St :=
  match dial_error with
  | Some e => mkEffect (Failed (ConnectionError e)) [EvDialFailed e] s 0
  | None =>
      let x := exchange (l_built l) (l_quiet l) s n in
      mkEffect (ended x)
        (EvDial :: (EvLoad <$> l_reads l) ++ events x ++ [EvClose])
        (service x) (traversals x)
  end.

(** ** The table of the group *)

Definition pod_lines (strings : gmap string string)
    (bools : gmap string bool) : list (string * line) :=
  let flag name value := default value (strings !! name) in
  [("create",
    mkLine "Creating the pod sandbox failed: " [flag "config" "config.json"]
      (build_create (flag "config" "config.json") (flag "name" "")) false);
   ("stop",
    mkLine "stopping the pod sandbox failed: " []
      (build_by_id (λ id, ReqStop (mkStopReq id)) (flag "id" "")) false);
   ("remove",
    mkLine "removing the pod sandbox failed: " []
      (build_by_id (λ id, ReqRemove (mkRemoveReq id)) (flag "id" "")) false);
   ("status",
    mkLine "getting the pod sandbox status failed: " []
      (build_by_id (λ id, ReqStatus (mkStatusReq id)) (flag "id" "")) false);
   ("list",
    mkLine "listing pod sandboxes failed: " []
      (Send (ReqList (mkListReq None))) (default false (bools !! "quiet")))].

(** The line of the subcommand [name], if there is one. *)
Definition pod_line (name : string) (strings : gmap string string)
    (bools : gmap string bool) : option line :=
  (λ il, il.2.2) <$> list_find (λ nl, nl.1 = name) (pod_lines strings bools).

(** What the subcommand [name] returns and the world it leaves. *)
Definition pod_spec (name : string) (strings : gmap string string)
    (bools : gmap string bool) : option (World St → outcome () * World St) :=
  l ← pod_line name strings bools;
  Some (λ w, let x := session l (svc w) (seed w) in
             (report (l_prefix l) (ended x), after x w)).

(** ** Reading the code against the pipeline *)

(** The world after the reads of a command. *)
Definition loaded (paths : list string) w : World St :=
  mkWorld (trace w ++ (EvLoad <$> paths)) (svc w) (seed w).

(** [body] is the exchange of the line [l]: what a lifecycle function has
    to do to be the inside of the session of [l]. *)
Definition exchanges (body : Go (World St) ()) (l : line) : Prop :=
  ∀ w, let x := exchange (l_built l) (l_quiet l) (svc w) (seed w) in
       body w = (returned (ended x), after x (loaded (l_reads l) w)).

(** ** The answers that print without a crash *)

(** An entry of a list the program can print: it is there with its
    identifier and, unless the list is quiet, with its creation time. *)
Definition printable_item (quiet : bool) (item : option PodSandbox) : Prop :=
  ∃ pod, item = Some pod ∧ is_Some (pod_Id pod) ∧
         (quiet = false → is_Some (pod_CreatedAt pod)).

#[export] Instance printable_item_dec quiet item :
  Decision (printable_item quiet item).
Proof.
  destruct item as [pod|]; [|right; by intros (? & ? & _)].
  destruct (decide (is_Some (pod_Id pod) ∧
                    (quiet = false → is_Some (pod_CreatedAt pod)))) as [H|H];
    [left; by exists pod|right; intros (? & [= <-] & ?); by apply H].
Defined.

(** The number of entries the loop of a listing visits: all of them, or
    those up to and including the first that cannot be printed. *)
Fixpoint visited (quiet : bool) (items : list (option PodSandbox)) : nat :=
  match items with
  | [] => 0
  | item :: items' =>
      if decide (printable_item quiet item) then S (visited quiet items')
      else 1
  end.

(** An answer the program can print. *)
Definition printable (quiet : bool) (resp : response) : Prop :=
  match resp with
  | RespRun r => is_Some (run_PodSandboxId r)
  | RespStop _ | RespRemove _ => True
  | RespStatus r => ∃ st, status_Status r = Some st ∧ status_complete st
  | RespList r => Forall (printable_item quiet) (list_Items r)
  end.

(** A session of [l] from the service state [s] crashes: the builder
    does, or the service gives an answer that cannot be printed. *)
Definition crashes (l : line) s : Prop :=
  match l_built l with
  | Crash _ => True
  | Send rq =>
      ∃ resp s', serve rq s = (Success resp, s') ∧
                 ¬ printable (l_quiet l) resp
  | Invalid | Unreadable _ => False
  end.

(** What a failure of kind [f] of a session of [l] says of the session:
    which collaborator failed, the events [evs] of the session in their
    order, and the state [s'] the service is left in. *)
Definition explained (l : line) s (f : failure) (evs : list event)
    (s' : St) : Prop :=
  match f with
  | ConnectionError c =>
      dial_error = Some c ∧ evs = [EvDialFailed c] ∧ s' = s
  | ValidationError =>
      l_built l = Invalid ∧
      evs = EvDial :: (EvLoad <$> l_reads l) ++ [EvClose] ∧ s' = s
  | ConfigLoadError c =>
      l_built l = Unreadable c ∧
      evs = EvDial :: (EvLoad <$> l_reads l) ++ [EvClose] ∧ s' = s
  | RemoteError c =>
      ∃ rq, l_built l = Send rq ∧ serve rq s = (Failure c, s') ∧
            evs = EvDial :: (EvLoad <$> l_reads l) ++ [EvCall rq; EvClose]
  end.

(** The only crash of [r] is a nil dereference. *)
Definition nil_only (r : rendering) : Prop :=
  ∀ p, stopped r = Some p → p = nil_deref.

(** ** Worlds after an effect *)

Lemma loaded_nil w : loaded [] w = w.
Proof. destruct w. unfold loaded. cbn. by rewrite app_nil_r. Qed.

Lemma after_nothing v w : after (mkEffect v [] (svc w) 0) w = w.
Proof. destruct w. unfold after. cbn. by rewrite app_nil_r, Nat.add_0_r. Qed.

(** A function that returns without an event is an exchange without
    one. *)
Lemma exchange_silent (o : outcome ()) v w :
  (o, w) = (o, after (mkEffect v [] (svc w) 0) w).
Proof. by rewrite after_nothing. Qed.

Lemma after_call_only v rq s' w :
  after (mkEffect v [EvCall rq] s' 0) w = after_call rq s' w.
Proof. unfold after, after_call. cbn. by rewrite Nat.add_0_r. Qed.

Lemma emit_exchange v ls rq s' w :
  emit ls (after_call rq s' w) =
  after (mkEffect v (EvCall rq :: (EvWrite <$> ls)) s' 0) w.
Proof.
  unfold after, emit, after_call. cbn. by rewrite <-app_assoc, Nat.add_0_r.
Qed.

(** A rendering run after the call is the exchange of an answer. *)
Lemma run_rendering_exchange (R : rendering) rq s' w :
  run_rendering R (after_call rq s' w) =
  (returned (from_option Crashed Done (stopped R)),
   after (mkEffect (from_option Crashed Done (stopped R))
            (EvCall rq :: (EvWrite <$> lines R)) s' (ranges R)) w).
Proof.
  unfold run_rendering, after, emit, bump, after_call. cbn.
  rewrite <-app_assoc. by destruct (stopped R).
Qed.

(** What the closure makes of what the function returns is the report of
    the verdict: the exchange never ends with a connection error. *)
Lemma exchange_report prefix b quiet s n :
  map_err (λ err, prefix +:+ err) (returned (ended (exchange b quiet s n))) =
  report prefix (ended (exchange b quiet s n)).
Proof.
  unfold exchange. destruct b as [rq| | |]; try done.
  destruct (serve rq s) as [[resp|e] s']; [|done].
  cbv zeta. cbn [ended]. by destruct (stopped _).
Qed.

(** ** The answers that print *)

Lemma pod_rendering_completes_iff n pod :
  stopped (pod_rendering n pod) = None ↔
  is_Some (pod_Id pod) ∧ is_Some (pod_CreatedAt pod).
Proof.
  unfold pod_rendering.
  rewrite !stopped_rseq_None, !stopped_rderef_rlines.
  autorewrite with go. cbn [stopped rlines]. tauto.
Qed.

Lemma stopped_item_rendering quiet n item :
  stopped (item_rendering quiet n item) = None ↔ printable_item quiet item.
Proof.
  unfold printable_item. destruct item as [pod|]; simpl;
    [|split; [done|by intros (? & ? & _)]].
  destruct quiet; [rewrite stopped_rderef_rlines|rewrite pod_rendering_completes_iff];
    naive_solver.
Qed.

Lemma stopped_items_rendering quiet n items :
  stopped (items_rendering quiet n items) = None ↔
  Forall (printable_item quiet) items.
Proof.
  revert n. induction items as [|item items IH]; intros n; simpl.
  { split; [constructor|done]. }
  by rewrite stopped_rseq_None, Forall_cons, stopped_item_rendering, IH.
Qed.

(** The safety condition of the renderer: an answer is printed without a
    crash exactly when it is printable. *)
Lemma render_completes_iff quiet n rq resp :
  stopped (render quiet n rq resp) = None ↔ printable quiet resp.
Proof.
  destruct resp as [r| | |r|r]; simpl;
    [by rewrite stopped_rderef_rlines|done|done|
    |apply stopped_items_rendering].
  destruct (status_Status r) as [st|]; simpl.
  - rewrite status_completes_iff. naive_solver.
  - split; [done|by intros (? & ? & _)].
Qed.

(** ** Every crash of the renderer is a nil dereference *)

Lemma nil_only_complete r : stopped r = None → nil_only r.
Proof. by intros Hr p; rewrite Hr. Qed.

Lemma nil_only_rseq r1 r2 : nil_only r1 → nil_only r2 → nil_only (r1 +++ r2).
Proof.
  intros H1 H2 p. unfold rseq. destruct (stopped r1) eqn:Hs; [|apply H2].
  rewrite Hs. intros [= <-]. by apply H1.
Qed.

Lemma nil_only_rderef {A} (o : option A) (k : A → rendering) :
  (∀ a, nil_only (k a)) → nil_only (rderef o k).
Proof. intros Hk. destruct o; [apply Hk|]. by intros p [= <-]. Qed.

Lemma nil_only_ropt {A} (o : option A) (k : A → rendering) :
  (∀ a, nil_only (k a)) → nil_only (ropt o k).
Proof. intros Hk. destruct o; [apply Hk|done]. Qed.

Lemma nil_only_rlines ls : nil_only (rlines ls).
Proof. done. Qed.

Ltac nil_only_go :=
  repeat first
    [apply nil_only_complete, stopped_metadata_rendering
    |apply nil_only_complete, stopped_maps_rendering
    |apply nil_only_rlines
    |apply nil_only_rderef; intros ?
    |apply nil_only_ropt; intros ?
    |apply nil_only_rseq].

Lemma nil_only_status n st : nil_only (status_rendering n st).
Proof.
  unfold status_rendering, linux_rendering, network_rendering. nil_only_go.
Qed.

Lemma nil_only_item quiet n item : nil_only (item_rendering quiet n item).
Proof. unfold item_rendering, pod_rendering. destruct quiet; nil_only_go. Qed.

Lemma nil_only_items quiet n items : nil_only (items_rendering quiet n items).
Proof.
  revert n. induction items as [|item items IH]; intros n; [done|].
  cbn [items_rendering]. apply nil_only_rseq; [apply nil_only_item|apply IH].
Qed.

(** ** Where a listing stops *)

(** How a rendering that can only stop on a nil pointer ends, given the
    condition under which it completes. *)
Lemma nil_only_outcome r (P : Prop) `{!Decision P} w :
  nil_only r → (stopped r = None ↔ P) →
  (run_rendering r w).1 = if decide P then Ret () else Panic nil_deref.
Proof.
  intros Hn HP. unfold run_rendering. cbn [fst].
  destruct (stopped r) as [p|] eqn:Hs; case_decide as H; try done.
  - by apply HP in H.
  - by rewrite (Hn p).
  - by destruct H; apply HP.
Qed.

(** An entry the program cannot print stops the listing: nothing of the
    entries after it is rendered. *)
Lemma item_rendering_stops quiet n item r :
  ¬ printable_item quiet item → item_rendering quiet n item +++ r =
                                item_rendering quiet n item.
Proof.
  rewrite <-stopped_item_rendering with (n:=n). unfold rseq.
  by destruct (stopped _).
Qed.

(** The lines of a listing are those of the entries visited. *)
Lemma lines_items_visited quiet n items :
  lines (items_rendering quiet n items) =
  lines (items_rendering quiet n (take (visited quiet items) items)).
Proof.
  revert n. induction items as [|item items IH]; intros n; [done|].
  cbn [visited]. case_decide as Hp; cbn [take items_rendering].
  - apply (stopped_item_rendering quiet n) in Hp.
    by rewrite !lines_rseq, IH by done.
  - by rewrite !item_rendering_stops.
Qed.

Lemma nil_only_render quiet n rq resp : nil_only (render quiet n rq resp).
Proof.
  destruct resp; simpl;
    [by apply nil_only_rderef|done|done| |apply nil_only_items].
  apply nil_only_rderef. intros st. apply nil_only_status.
Qed.

(** ** The ways a session ends *)

Lemma writes_EvLoad paths : writes (EvLoad <$> paths) = [].
Proof. by induction paths. Qed.

Lemma calls_EvLoad paths : calls (EvLoad <$> paths) = [].
Proof. by induction paths. Qed.

(** What is written and called during a session is what is written and
    called during its exchange. *)
Lemma writes_session paths evs :
  writes (EvDial :: (EvLoad <$> paths) ++ evs ++ [EvClose]) = writes evs.
Proof.
  change (EvDial :: ?t) with ([EvDial] ++ t).
  rewrite !writes_app, writes_EvLoad. simpl. by rewrite app_nil_r.
Qed.

Lemma calls_session paths evs :
  calls (EvDial :: (EvLoad <$> paths) ++ evs ++ [EvClose]) = calls evs.
Proof.
  change (EvDial :: ?t) with ([EvDial] ++ t).
  rewrite !calls_app, calls_EvLoad. simpl. by rewrite app_nil_r.
Qed.

(** A session that fails printed nothing and ranged over no map, and its
    failure is explained by the collaborator that failed. *)
Lemma session_failed l s n f :
  ended (session l s n) = Failed f →
  writes (events (session l s n)) = [] ∧ traversals (session l s n) = 0 ∧
  explained l s f (events (session l s n)) (service (session l s n)).
Proof.
  unfold session, exchange, explained. destruct dial_error as [c|].
  { intros [= <-]. by eauto. }
  cbv zeta. destruct (l_built l) as [rq| |c|p]; cbn [ended events];
    [|by intros [= <-]; rewrite writes_session..|done].
  destruct (serve rq s) as [[resp|c] s'] eqn:Hserve; cbn [ended events].
  { by destruct (stopped _). }
  intros [= <-]. rewrite writes_session. eauto 6.
Qed.

(** A session that ends well made one call, which the service answered,
    and printed the whole answer. *)
Lemma session_done l s n :
  ended (session l s n) = Done →
  ∃ rq resp,
    dial_error = None ∧ l_built l = Send rq ∧
    serve rq s = (Success resp, service (session l s n)) ∧
    printable (l_quiet l) resp ∧
    events (session l s n) =
      EvDial :: (EvLoad <$> l_reads l) ++ EvCall rq ::
      (EvWrite <$> lines (render (l_quiet l) n rq resp)) ++ [EvClose] ∧
    traversals (session l s n) = ranges (render (l_quiet l) n rq resp).
Proof.
  unfold session, exchange. destruct dial_error as [c|]; [done|].
  cbv zeta. destruct (l_built l) as [rq| |c|p]; cbn [ended events]; try done.
  destruct (serve rq s) as [[resp|c] s'] eqn:Hserve; cbn; [|done].
  destruct (stopped _) eqn:Hs; [done|]. intros _. exists rq, resp.
  by rewrite <-(render_completes_iff _ n rq).
Qed.

(** A session crashes exactly when the service is reached and the
    builder crashes or the answer cannot be printed. *)
Lemma session_crashed_iff l s n :
  (∃ p, ended (session l s n) = Crashed p) ↔ dial_error = None ∧ crashes l s.
Proof.
  unfold session, exchange, crashes. destruct dial_error as [c|].
  { split; [by intros [? [=]]|by intros [[=] _]]. }
  cbv zeta. destruct (l_built l) as [rq| |c|p]; cbn [ended];
    [|split; [by intros [? [=]]|by intros [_ []]]..|split; eauto].
  destruct (serve rq s) as [[resp|c] s']; cbn [ended].
  - destruct (stopped _) eqn:Hs; simpl.
    + split; [intros _; split; [done|]|by eauto]. exists resp, s'.
      split; [done|]. by rewrite <-(render_completes_iff _ n rq), Hs.
    + split; [by intros [? [=]]|]. intros [_ (? & ? & [= <- <-] & Hp)].
      destruct Hp. by apply (render_completes_iff _ n rq).
  - split; [by intros [? [=]]|by intros [_ (? & ? & [=] & _)]].
Qed.

(** The crash of a session whose builder only crashes on a nil
    dereference is a nil dereference. *)
Lemma session_crash_nil l s n p :
  (∀ q, l_built l = Crash q → q = nil_deref) →
  ended (session l s n) = Crashed p → p = nil_deref.
Proof.
  unfold session, exchange. intros Hl. destruct dial_error as [c|]; [done|].
  cbv zeta. destruct (l_built l) as [rq| |c|q]; cbn [ended]; try done;
    [|intros [= <-]; by apply Hl].
  destruct (serve rq s) as [[resp|c] s']; cbn [ended]; [|done].
  destruct (stopped _) eqn:Hs; [|done]. intros [= <-].
  by apply (nil_only_render _ _ _ _ _ Hs).
Qed.

(** ** The lines of the group *)

(** The builder of a line of the group only crashes on a nil
    dereference. *)
Lemma pod_line_crash name strings bools l q :
  pod_line name strings bools = Some l →
  l_built l = Crash q → q = nil_deref.
Proof.
  unfold pod_line. simpl. repeat case_decide; simpl; intros [= <-]; simpl;
    unfold build_create, build_by_id; repeat case_match; congruence.
Qed.

(** A status request is only built by the status command, a list request
    by the list command, quiet or not as its flag says. *)
Lemma pod_line_built name strings bools l rq :
  pod_line name strings bools = Some l → l_built l = Send rq →
  match rq with
  | ReqStatus _ => name = "status"
  | ReqList _ => name = "list" ∧ l_quiet l = default false (bools !! "quiet")
  | ReqRun _ | ReqStop _ | ReqRemove _ => True
  end.
Proof.
  unfold pod_line. simpl. repeat case_decide; simpl; intros [= <-]; simpl;
    unfold build_create, build_by_id; repeat case_match; intros [= <-];
    by subst.
Qed.

(** The builder of the group crashes only on a configuration without
    metadata. *)
Lemma pod_line_crash_config name strings bools l q :
  pod_line name strings bools = Some l → l_built l = Crash q →
  ∃ path config, config_file path = Success config ∧ cfg_Metadata config = None.
Proof.
  unfold pod_line. simpl. repeat case_decide; simpl; intros [= <-]; simpl;
    unfold build_create, build_by_id; repeat case_match; try done.
  intros _. eauto.
Qed.

(** The kind of an answer is the kind of its request. *)
Lemma serve_kind rq s resp s' :
  serve rq s = (Success resp, s') →
  match rq, resp with
  | ReqRun _, RespRun _ | ReqStop _, RespStop _ | ReqRemove _, RespRemove _
  | ReqStatus _, RespStatus _ | ReqList _, RespList _ => True
  | _, _ => False
  end.
Proof.
  destruct rq; simpl; unfold answer; intros [= H _];
    by repeat case_match; simplify_eq.
Qed.

(** The state a session leaves the service in: the one it found, or the
    one the call it made led to. *)
Lemma session_service l s n :
  service (session l s n) = s ∨
  ∃ rq, l_built l = Send rq ∧ service (session l s n) = (serve rq s).2.
Proof.
  unfold session, exchange. destruct dial_error; [by left|]. cbv zeta.
  destruct (l_built l) as [rq| | |]; try by left.
  right. exists rq. split; [done|]. by destruct (serve rq s) as [[?|?] ?].
Qed.

(** The status and list commands only observe the service. *)
Lemma pod_line_observes name strings bools l rq :
  pod_line name strings bools = Some l →
  name = "status" ∨ name = "list" → l_built l = Send rq → observes rq.
Proof.
  unfold pod_line. intros Hl [-> | ->]; revert Hl; simpl; intros [= <-];
    simpl; unfold build_by_id; repeat case_match; by intros [= <-].
Qed.

(** ** Two sessions from the same state of the service *)

(** What is printed for an answer depends on the traversals made so far
    through the order of the entries only. *)
Lemma render_equiv quiet n1 n2 rq resp :
  render quiet n1 rq resp ≡ render quiet n2 rq resp.
Proof.
  destruct resp as [r| | |r|r]; simpl; try done.
  - destruct (status_Status r); [apply status_rendering_equiv|done].
  - apply items_rendering_equiv.
Qed.

Lemma render_fixed quiet n1 n2 rq resp :
  (∀ k1 k2 l, range_order k1 l = range_order k2 l) →
  render quiet n1 rq resp = render quiet n2 rq resp.
Proof.
  intros Hfix. destruct resp as [r| | |r|r]; simpl; try done.
  - destruct (status_Status r); [|done].
    apply (fixed_order_same_rendering n1 n2 Hfix).
  - apply (fixed_order_same_rendering n1 n2 Hfix).
Qed.

(** Two sessions of a line from the same state of the service end the
    same way, leave the service in the same state and print the same text
    up to the order of the entries; on a host with a fixed order they are
    the same session. *)
Lemma session_again l s n1 n2 :
  ended (session l s n1) = ended (session l s n2) ∧
  service (session l s n1) = service (session l s n2) ∧
  blockwise (writes (events (session l s n1)))
    (writes (events (session l s n2))) ∧
  ((∀ k1 k2 l, range_order k1 l = range_order k2 l) →
   session l s n1 = session l s n2).
Proof.
  unfold session, exchange. destruct dial_error; [done|]. cbv zeta.
  destruct (l_built l) as [rq| | |]; try done.
  destruct (serve rq s) as [[resp|e] s']; [|done]. cbn [ended events service].
  destruct (render_equiv (l_quiet l) n1 n2 rq resp) as (Hl & Hr & Hs).
  rewrite !writes_session, Hs. change (EvCall rq :: ?t) with ([EvCall rq] ++ t).
  rewrite !writes_app, !writes_EvWrite.
  repeat split; [done|]. intros Hfix.
  by rewrite (render_fixed _ n1 n2 _ _ Hfix).
Qed.

End Pipeline.
