(* ===== verification/Sandbox.v ===== *)
(** * Sandbox: the five lifecycle functions of cmd/client/sandbox.go

    [RunPodSandbox], [StopPodSandbox], [RemovePodSandbox],
    [PodSandboxStatus] and [ListPodSandboxes], each translated statement by
    statement into the monad of [GoRuntime] over the world of [World].  The
    [client] argument of the Go functions is the instance of
    [RuntimeServiceClient] in the context.  The theorems relate each
    function to the specification of [Render] and describe every path:
    validation failure, remote error, panic and success; they also show
    that the requests sent are well formed, that the loop of the listing
    visits the entries up to the first it cannot print and no further,
    that a map is printed entry by entry, each once, and reads back as
    the map, that the metadata block has a bounded size, and that each
    function is the exchange of its line of [Pipeline]. *)

From S2P Require Import Prelude Text Blocks GoRuntime Proto World Stubs.
From S2P Require Import Render Pipeline.

Section Sandbox.
Context {St : Type} {host : Host} {client : RuntimeServiceClient St}.
Implicit Types (w : World St) (ID name path : string).

(** ** The blocks the functions share *)

(** [config.Metadata.Name = &name]: an assignment through the metadata
    pointer, which panics if the configuration has no metadata. *)
Definition setMetadataName (name : string) (config : PodSandboxConfig) :
    Go (World St) PodSandboxConfig :=
  md ← deref (cfg_Metadata config);
  mret (mkConfig
          (Some (mkMetadata (Some name) (md_Uid md) (md_Namespace md)
                   (md_Attempt md)))
          (cfg_Runtime config)).

(** What the override rule of [RunPodSandbox] makes of a configuration:
    the name given on the command line replaces the one of the file when it
    is not empty; [None] when there is no metadata to assign through. *)
Definition override_name (name : string) (config : PodSandboxConfig) :
    option PodSandboxConfig :=
  if decide (name ≠ "") then
    md ← cfg_Metadata config;
    Some (mkConfig
            (Some (mkMetadata (Some name) (md_Uid md) (md_Namespace md)
                     (md_Attempt md)))
            (cfg_Runtime config))
  else Some config.

(** The metadata block of the status and list printers. *)
Definition printMetadata (metadata : option PodSandboxMetadata) :
    Go (World St) () :=
  if_nonnil metadata (λ md,
    if_nonnil (md_Name md) (λ v, Printf ("Name: " +:+ v +:+ nl)) ;;
    if_nonnil (md_Uid md) (λ v, Printf ("UID: " +:+ v +:+ nl)) ;;
    if_nonnil (md_Namespace md) (λ v, Printf ("Namespace: " +:+ v +:+ nl)) ;;
    if_nonnil (md_Attempt md) (λ v, Printf ("Attempt: " +:+ pretty v +:+ nl))).

(** A map printed under its header: the header line, then one line per
    entry in the order of the traversal. *)
Definition printMap (header : string) (m : option (gmap string string)) :
    Go (World St) () :=
  if_nonnil m (λ m,
    Println header ;;
    kvs ← range m;
    for_each kvs (λ kv, Printf (tab +:+ kv.1 +:+ " -> " +:+ kv.2 +:+ nl))).

(** ** RunPodSandbox *)

Definition RunPodSandbox (path name : string) : Go (World St) () :=
  config ← loadPodSandboxConfig path;
  config ← (if decide (name ≠ "") then setMetadataName name config
            else mret config);
  let req := mkRunReq (Some config) in
  r ← rpc (ReqRun req) (client_RunPodSandbox req);
  id ← deref (run_PodSandboxId r);
  Println id.

(** ** StopPodSandbox *)

Definition StopPodSandbox (ID : string) : Go (World St) () :=
  if decide (ID = "") then raise "ID cannot be empty"
  else
    let req := mkStopReq (Some ID) in
    _ ← rpc (ReqStop req) (client_StopPodSandbox req);
    Println ID.

(** ** RemovePodSandbox *)

Definition RemovePodSandbox (ID : string) : Go (World St) () :=
  if decide (ID = "") then raise "ID cannot be empty"
  else
    let req := mkRemoveReq (Some ID) in
    _ ← rpc (ReqRemove req) (client_RemovePodSandbox req);
    Println ID.

(** ** PodSandboxStatus *)

(** The printing part of [PodSandboxStatus]: everything after the remote
    call returned [r]. *)
Definition printStatus (r : PodSandboxStatusResponse) : Go (World St) () :=
  st ← deref (status_Status r);
  (id ← deref (st_Id st); Printf ("ID: " +:+ id +:+ nl)) ;;
  printMetadata (st_Metadata st) ;;
  if_nonnil (st_State st) (λ s,
    Printf ("Status: " +:+ PodSandBoxState_String s +:+ nl)) ;;
  if_nonnil (st_CreatedAt st) (λ t,
    Printf ("Created: " +:+ time_String t +:+ nl)) ;;
  if_nonnil (st_Linux st) (λ lx,
    ns ← deref (lx_Namespaces lx);
    n ← deref (ns_Network ns);
    Printf ("Network namespace: " +:+ n +:+ nl)) ;;
  if_nonnil (st_Network st) (λ nw,
    ip ← deref (net_Ip nw);
    Printf ("IP Address: " +:+ ip +:+ nl)) ;;
  printMap "Labels:" (st_Labels st) ;;
  printMap "Annotations:" (st_Annotations st).

Definition PodSandboxStatus (ID : string) : Go (World St) () :=
  if decide (ID = "") then raise "ID cannot be empty"
  else
    let req := mkStatusReq (Some ID) in
    r ← rpc (ReqStatus req) (client_PodSandboxStatus req);
    printStatus r.

(** ** ListPodSandboxes *)

(** The body of the loop over the items of the response. *)
Definition printPod (quiet : bool) (item : option PodSandbox) :
    Go (World St) () :=
  pod ← deref item;
  if quiet then
    id ← deref (pod_Id pod); Println id
  else
    (id ← deref (pod_Id pod); Printf ("ID: " +:+ id +:+ nl)) ;;
    printMetadata (pod_Metadata pod) ;;
    Printf ("Status: " +:+ state_text (pod_State pod) +:+ nl) ;;
    (t ← deref (pod_CreatedAt pod);
     Printf ("Created: " +:+ time_String t +:+ nl)) ;;
    printMap "Labels:" (pod_Labels pod) ;;
    printMap "Annotations:" (pod_Annotations pod).

Definition ListPodSandboxes (quiet : bool) : Go (World St) () :=
  let req := mkListReq None in
  r ← rpc (ReqList req) (client_ListPodSandbox req);
  for_each (list_Items r) (printPod quiet).

(** ** Validation *)

(** C5: an empty identifier is refused by StopPodSandbox, RemovePodSandbox
    and PodSandboxStatus with the error ID cannot be empty, and the world is
    left exactly as it was: no remote call is issued and nothing is
    printed. *)
Theorem empty_id_refused w :
  StopPodSandbox "" w = (Err "ID cannot be empty", w) ∧
  RemovePodSandbox "" w = (Err "ID cannot be empty", w) ∧
  PodSandboxStatus "" w = (Err "ID cannot be empty", w).
Proof. done. Qed.

(** ** The blocks refine their renderings *)

Lemma printMetadata_prints metadata :
  prints (printMetadata metadata) (metadata_rendering metadata).
Proof. unfold printMetadata. prints_go. Qed.

Lemma printMap_refines header m :
  refines (printMap header m) (λ s, map_rendering header s m).
Proof.
  destruct m as [m|]; [|exact (refines_prints _ _ prints_ret)]. intros w.
  unfold printMap, if_nonnil, range. rewrite run_bind, run_Println.
  rewrite run_bind. cbn [seed emit].
  rewrite (refines_prints _ _ (prints_for_each _ entry_line)).
  unfold run_rendering, map_rendering. cbn [lines ranges stopped ropt].
  autorewrite with go. by rewrite <-emit_app.
Qed.

#[local] Hint Resolve printMetadata_prints printMap_refines : go.

Lemma printStatus_refines r :
  refines (printStatus r)
    (λ s, rderef (status_Status r) (status_rendering s)).
Proof. unfold printStatus. refines_by. done. Qed.

Lemma printPod_refines quiet item :
  refines (printPod quiet item) (λ s, item_rendering quiet s item).
Proof. unfold printPod. destruct quiet; refines_by; done. Qed.

Lemma printPods_refines quiet items :
  refines (for_each items (printPod quiet))
    (λ s, items_rendering quiet s items).
Proof.
  induction items as [|item items IH]; [exact (refines_prints _ _ prints_ret)|].
  pose proof (printPod_refines quiet item). simpl. refines_by. done.
Qed.

(** ** The functions, path by path *)

(** The three functions that take an identifier, after the test of the
    identifier: the remote call, then the continuation on its response. *)
Lemma run_StopPodSandbox ID w :
  ID ≠ "" →
  StopPodSandbox ID w =
  let rq := ReqStop (mkStopReq (Some ID)) in
  match client_StopPodSandbox (mkStopReq (Some ID)) (svc w) with
  | (Success _, s') => (Ret (), emit [ID +:+ nl] (after_call rq s' w))
  | (Failure e, s') => (Err e, after_call rq s' w)
  end.
Proof.
  intros ?. unfold StopPodSandbox. case_decide; [done|].
  rewrite run_rpc_bind. by destruct (client_StopPodSandbox _ _) as [[r|e] s'].
Qed.

Lemma run_RemovePodSandbox ID w :
  ID ≠ "" →
  RemovePodSandbox ID w =
  let rq := ReqRemove (mkRemoveReq (Some ID)) in
  match client_RemovePodSandbox (mkRemoveReq (Some ID)) (svc w) with
  | (Success _, s') => (Ret (), emit [ID +:+ nl] (after_call rq s' w))
  | (Failure e, s') => (Err e, after_call rq s' w)
  end.
Proof.
  intros ?. unfold RemovePodSandbox. case_decide; [done|].
  rewrite run_rpc_bind. by destruct (client_RemovePodSandbox _ _) as [[r|e] s'].
Qed.

Lemma run_PodSandboxStatus ID w :
  ID ≠ "" →
  PodSandboxStatus ID w =
  let rq := ReqStatus (mkStatusReq (Some ID)) in
  match client_PodSandboxStatus (mkStatusReq (Some ID)) (svc w) with
  | (Success r, s') =>
      run_rendering (rderef (status_Status r) (status_rendering (seed w)))
        (after_call rq s' w)
  | (Failure e, s') => (Err e, after_call rq s' w)
  end.
Proof.
  intros ?. unfold PodSandboxStatus. case_decide; [done|].
  rewrite run_rpc_bind.
  destruct (client_PodSandboxStatus _ _) as [[r|e] s']; [|done].
  exact (printStatus_refines r _).
Qed.

Lemma run_ListPodSandboxes quiet w :
  ListPodSandboxes quiet w =
  let rq := ReqList (mkListReq None) in
  match client_ListPodSandbox (mkListReq None) (svc w) with
  | (Success r, s') =>
      run_rendering (items_rendering quiet (seed w) (list_Items r))
        (after_call rq s' w)
  | (Failure e, s') => (Err e, after_call rq s' w)
  end.
Proof.
  unfold ListPodSandboxes. cbv zeta. rewrite run_rpc_bind.
  destruct (client_ListPodSandbox _ _) as [[r|e] s']; [|done].
  exact (printPods_refines quiet _ _).
Qed.

(** The remote call of [RunPodSandbox] and the printing of the identifier
    it returns. *)
Lemma run_create_call (c : PodSandboxConfig) w :
  (rpc (ReqRun (mkRunReq (Some c))) (client_RunPodSandbox (mkRunReq (Some c)))
   ≫= λ r, id ← deref (run_PodSandboxId r); Println id) w =
  match client_RunPodSandbox (mkRunReq (Some c)) (svc w) with
  | (Success r, s') =>
      run_rendering (rderef (run_PodSandboxId r) (λ id, rlines [id +:+ nl]))
        (after_call (ReqRun (mkRunReq (Some c))) s' w)
  | (Failure e, s') => (Err e, after_call (ReqRun (mkRunReq (Some c))) s' w)
  end.
Proof.
  rewrite run_rpc_bind.
  destruct (client_RunPodSandbox _ _) as [[r|e] s']; [|done].
  apply (refines_prints (S:=St)). prints_go.
Qed.

Lemma run_RunPodSandbox path name w :
  RunPodSandbox path name w =
  let w1 := record (EvLoad path) w in
  match config_file path with
  | Failure e => (Err e, w1)
  | Success config =>
      match override_name name config with
      | None => (Panic nil_deref, w1)
      | Some c =>
          let rq := ReqRun (mkRunReq (Some c)) in
          match client_RunPodSandbox (mkRunReq (Some c)) (svc w1) with
          | (Success r, s') =>
              run_rendering
                (rderef (run_PodSandboxId r) (λ id, rlines [id +:+ nl]))
                (after_call rq s' w1)
          | (Failure e, s') => (Err e, after_call rq s' w1)
          end
      end
  end.
Proof.
  unfold RunPodSandbox, loadPodSandboxConfig, override_name.
  rewrite !run_bind, run_log. cbv zeta.
  destruct (config_file path) as [config|e]; [|done]. simpl.
  case_decide; [|exact (run_create_call config _)].
  unfold setMetadataName. rewrite run_bind.
  destruct (cfg_Metadata config) as [md|]; [|done].
  exact (run_create_call _ _).
Qed.

(** ** The two printers refine the renderings *)

(** C2: refinement.  When the service answers a status request,
    PodSandboxStatus has exactly the effects of the rendering of the status
    it received: the lines of status_rendering are written in order after
    the call, the outcome is nil or the panic of the rendering, and a
    response without status is a panic before any output. *)
Theorem PodSandboxStatus_renders ID r s' w :
  ID ≠ "" →
  client_PodSandboxStatus (mkStatusReq (Some ID)) (svc w) = (Success r, s') →
  PodSandboxStatus ID w =
  run_rendering (rderef (status_Status r) (status_rendering (seed w)))
    (after_call (ReqStatus (mkStatusReq (Some ID))) s' w).
Proof. intros HID Hrpc. by rewrite run_PodSandboxStatus, Hrpc. Qed.

(** C3: refinement.  When the service answers a list request,
    ListPodSandboxes has exactly the effects of the rendering of the items
    it received, in the order of the response. *)
Theorem ListPodSandboxes_renders quiet r s' w :
  client_ListPodSandbox (mkListReq None) (svc w) = (Success r, s') →
  ListPodSandboxes quiet w =
  run_rendering (items_rendering quiet (seed w) (list_Items r))
    (after_call (ReqList (mkListReq None)) s' w).
Proof. intros Hrpc. by rewrite run_ListPodSandboxes, Hrpc. Qed.

(** The calls a rendering is run after are the calls of the trace: printing
    issues none. *)
Lemma calls_run_rendering r w :
  calls (trace (run_rendering r w).2) = calls (trace w).
Proof. rewrite trace_run_rendering, calls_app, calls_EvWrite. apply app_nil_r. Qed.

Lemma calls_after_call rq s' w :
  calls (trace (after_call rq s' w)) = calls (trace w) ++ [rq].
Proof. by rewrite trace_after_call, calls_app. Qed.

Lemma calls_emit ls w : calls (trace (emit ls w)) = calls (trace w).
Proof. rewrite trace_emit, calls_app, calls_EvWrite. apply app_nil_r. Qed.

Lemma calls_record_load path w :
  calls (trace (record (EvLoad path) w)) = calls (trace w).
Proof. rewrite trace_record, calls_app. apply app_nil_r. Qed.

Lemma stdout_after_call rq s' w : stdout (after_call rq s' w) = stdout w.
Proof. unfold stdout. rewrite trace_after_call, writes_app. apply app_nil_r. Qed.

(** ** The loop of the listing *)

(** The body of the loop on one entry: it returns when the entry can be
    printed and panics on a nil pointer when it cannot. *)
Lemma printPod_outcome quiet item w :
  (printPod quiet item w).1 =
  if decide (printable_item quiet item) then Ret () else Panic nil_deref.
Proof.
  rewrite printPod_refines.
  apply nil_only_outcome; [apply nil_only_item|apply stopped_item_rendering].
Qed.

(** The loop runs its body once per entry visited. *)
Lemma iterations_printPod quiet items w :
  iterations items (printPod quiet) w = visited quiet items.
Proof.
  revert w. induction items as [|item items IH]; intros w; [done|].
  pose proof (printPod_outcome quiet item w) as Ho. cbn [iterations visited].
  destruct (printPod quiet item w) as [[[]|e|p] w1];
    case_decide; simplify_eq/=; by rewrite ?IH.
Qed.

(** C19: termination.  The loop of ListPodSandboxes over the items of the
    response has the execution the function computes, and the number of
    times it runs its body is fixed by the answer: once per entry when every
    entry can be printed (it carries its identifier and, in full mode, its
    creation time), and the function returns nil; otherwise once per entry
    up to and including the first that cannot be printed, where the
    function panics on a nil pointer.  What is printed is what the entries
    visited print: nothing of the entries after the one that stops the
    loop. *)
Theorem list_loop_stops quiet r s' w :
  client_ListPodSandbox (mkListReq None) (svc w) = (Success r, s') →
  loop_exec (printPod quiet) (list_Items r)
    (after_call (ReqList (mkListReq None)) s' w)
    (visited quiet (list_Items r))
    (ListPodSandboxes quiet w).1 (ListPodSandboxes quiet w).2 ∧
  (ListPodSandboxes quiet w).1 =
    (if decide (Forall (printable_item quiet) (list_Items r)) then Ret ()
     else Panic nil_deref) ∧
  stdout (ListPodSandboxes quiet w).2 =
    stdout w ++
    lines (items_rendering quiet (seed w)
             (take (visited quiet (list_Items r)) (list_Items r))).
Proof.
  intros Hrpc. split; [|split].
  - unfold ListPodSandboxes. cbv zeta. rewrite run_rpc_bind, Hrpc.
    rewrite <-(iterations_printPod quiet (list_Items r)
                 (after_call (ReqList (mkListReq None)) s' w)).
    apply for_each_loop_exec.
  - rewrite run_ListPodSandboxes, Hrpc. cbv zeta.
    apply nil_only_outcome;
      [apply nil_only_items|apply stopped_items_rendering].
  - rewrite run_ListPodSandboxes, Hrpc. cbv zeta.
    by rewrite stdout_run_rendering, stdout_after_call, <-lines_items_visited.
Qed.

(** ** Two runs *)

(** C30: round trip of a map.  Whatever the order in which the host ranges
    over it, the lines [printMap] writes after the header read back as the
    map that was printed, provided no key holds a space. *)
Theorem printed_map_reads_back header (m : gmap string string) w :
  map_Forall (λ k _, spaceless k) m →
  ∃ ls, trace (printMap header (Some m) w).2 =
          trace w ++ EvWrite (header +:+ nl) :: (EvWrite <$> ls) ∧
        list_to_map <$> mapM read_entry ls = Some m.
Proof.
  intros Hm. rewrite printMap_refines, trace_run_rendering.
  eexists. split; [reflexivity|]. by apply read_entries_map.
Qed.

(** C38: what printMap writes.  For a nil map, nothing at all; for a map
    that is not nil, the header and then one line per entry of the map, each
    entry exactly once, in the order the host ranges over the map in: the
    function returns nil, has ranged over one map and has written these
    lines and nothing else.  An empty map still has its header written. *)
Theorem printMap_entries header (m : gmap string string) w :
  printMap header None w = (Ret (), w) ∧
  ∃ kvs, kvs ≡ₚ map_to_list m ∧
         printMap header (Some m) w =
         (Ret (), emit ((header +:+ nl) :: (entry_line <$> kvs)) (bump 1 w)).
Proof.
  rewrite !printMap_refines. unfold run_rendering. simpl. split.
  - by rewrite bump_0, emit_nil.
  - eexists. split; [apply range_order_perm|done].
Qed.

(** C40: the size of the metadata block.  printMetadata writes at most four
    lines, and at most forty-five bytes besides those of the name, the uid
    and the namespace it is given: the attempt count is a 32-bit unsigned
    integer, so its line has at most twenty bytes whatever its value. *)
Theorem printMetadata_bounded md w :
  wf_metadata md →
  ∃ ls, printMetadata (Some md) w = (Ret (), emit ls w) ∧
        length ls ≤ 4 ∧
        String.length (text ls) ≤
          45 + field_length (md_Name md) + field_length (md_Uid md) +
          field_length (md_Namespace md).
Proof.
  intros Hwf. exists (lines (metadata_rendering (Some md))).
  destruct (printMetadata_prints (Some md)) as [Hr Hp].
  rewrite Hp, run_rendering_pure, stopped_metadata_rendering by done.
  split; [done|]. split; [apply length_metadata_rendering|].
  by apply length_text_metadata.
Qed.

(** C28: two runs of the status command, or of the list command, against
    the same service state end the same way and print the same text up to
    the order of the entries inside each block of labels or annotations,
    whatever the order in which the host ranges over the maps in each run:
    one output is obtained from the other by exchanging adjacent entry
    lines, so every other line is the same at the same position. *)
Theorem output_up_to_order ID quiet w1 w2 :
  svc w1 = svc w2 → stdout w1 = stdout w2 →
  ((PodSandboxStatus ID w1).1 = (PodSandboxStatus ID w2).1 ∧
   blockwise (stdout (PodSandboxStatus ID w1).2)
     (stdout (PodSandboxStatus ID w2).2)) ∧
  ((ListPodSandboxes quiet w1).1 = (ListPodSandboxes quiet w2).1 ∧
   blockwise (stdout (ListPodSandboxes quiet w1).2)
     (stdout (ListPodSandboxes quiet w2).2)).
Proof.
  intros Hsvc Hout. split.
  - destruct (decide (ID = "")) as [->|HID]; [by simpl; rewrite Hout|].
    rewrite !run_PodSandboxStatus, Hsvc by done. cbv zeta.
    destruct (client_PodSandboxStatus _ _) as [[r|e] s'];
      [|by cbn [fst snd]; rewrite !stdout_after_call, Hout].
    apply run_rendering_equiv; [|by rewrite !stdout_after_call].
    destruct (status_Status r); [apply status_rendering_equiv|done].
  - rewrite !run_ListPodSandboxes, Hsvc. cbv zeta.
    destruct (client_ListPodSandbox _ _) as [[r|e] s'];
      [|by cbn [fst snd]; rewrite !stdout_after_call, Hout].
    apply run_rendering_equiv; [|by rewrite !stdout_after_call].
    apply items_rendering_equiv.
Qed.

(** ** The events of the functions *)

(** [trace_inner] closes a goal of the form: the trace of a run is the
    trace before it followed by inner events, one call at most among
    them. *)
Ltac trace_inner :=
  cbn [snd]; autorewrite with go; rewrite <-?app_assoc;
  eexists; (split; [reflexivity|split]);
  [repeat first [apply Forall_inner_EvWrite | apply Forall_app; split
                | apply Forall_cons; split | apply Forall_nil | exact I]
  |rewrite ?calls_app, ?calls_EvWrite; simpl; lia].

Lemma StopPodSandbox_appends_inner ID : appends_inner (StopPodSandbox ID).
Proof.
  intros w. destruct (decide (ID = "")) as [->|HID].
  { apply inner_nil. }
  rewrite run_StopPodSandbox by done. cbv zeta.
  destruct (client_StopPodSandbox _ _) as [[?|?] ?]; trace_inner.
Qed.

Lemma RemovePodSandbox_appends_inner ID : appends_inner (RemovePodSandbox ID).
Proof.
  intros w. destruct (decide (ID = "")) as [->|HID].
  { apply inner_nil. }
  rewrite run_RemovePodSandbox by done. cbv zeta.
  destruct (client_RemovePodSandbox _ _) as [[?|?] ?]; trace_inner.
Qed.

Lemma PodSandboxStatus_appends_inner ID : appends_inner (PodSandboxStatus ID).
Proof.
  intros w. destruct (decide (ID = "")) as [->|HID].
  { apply inner_nil. }
  rewrite run_PodSandboxStatus by done. cbv zeta.
  destruct (client_PodSandboxStatus _ _) as [[?|?] ?]; trace_inner.
Qed.

Lemma ListPodSandboxes_appends_inner quiet :
  appends_inner (ListPodSandboxes quiet).
Proof.
  intros w. rewrite run_ListPodSandboxes. cbv zeta.
  destruct (client_ListPodSandbox _ _) as [[?|?] ?]; trace_inner.
Qed.

Lemma RunPodSandbox_appends_inner path name :
  appends_inner (RunPodSandbox path name).
Proof.
  intros w. rewrite run_RunPodSandbox. cbv zeta.
  destruct (config_file path) as [config|e]; [|trace_inner].
  destruct (override_name name config) as [c|]; [|trace_inner].
  destruct (client_RunPodSandbox _ _) as [[?|?] ?]; trace_inner.
Qed.

(** ** Request construction *)

(** The calls of the three functions that take an identifier. *)
Lemma request_carries_id_aux ID w :
  ID ≠ "" →
  calls (trace (StopPodSandbox ID w).2) =
    calls (trace w) ++ [ReqStop (mkStopReq (Some ID))] ∧
  calls (trace (RemovePodSandbox ID w).2) =
    calls (trace w) ++ [ReqRemove (mkRemoveReq (Some ID))] ∧
  calls (trace (PodSandboxStatus ID w).2) =
    calls (trace w) ++ [ReqStatus (mkStatusReq (Some ID))].
Proof.
  intros HID.
  rewrite run_StopPodSandbox, run_RemovePodSandbox, run_PodSandboxStatus
    by done. cbv zeta.
  destruct (client_StopPodSandbox _ _) as [[?|?] ?],
    (client_RemovePodSandbox _ _) as [[?|?] ?],
    (client_PodSandboxStatus _ _) as [[?|?] ?]; cbn [snd];
    by rewrite ?calls_run_rendering, ?calls_emit, !calls_after_call.
Qed.

(** C9: for a non-empty identifier, StopPodSandbox, RemovePodSandbox and
    PodSandboxStatus issue exactly one remote call, of their own operation,
    whose request carries the identifier unchanged, whatever the service
    answers. *)
Theorem request_carries_id ID w :
  ID ≠ "" →
  calls (trace (StopPodSandbox ID w).2) =
    calls (trace w) ++ [ReqStop (mkStopReq (Some ID))] ∧
  calls (trace (RemovePodSandbox ID w).2) =
    calls (trace w) ++ [ReqRemove (mkRemoveReq (Some ID))] ∧
  calls (trace (PodSandboxStatus ID w).2) =
    calls (trace w) ++ [ReqStatus (mkStatusReq (Some ID))].
Proof. apply request_carries_id_aux. Qed.

Lemma calls_ListPodSandboxes quiet w :
  calls (trace (ListPodSandboxes quiet w).2) =
    calls (trace w) ++ [ReqList (mkListReq None)].
Proof.
  rewrite run_ListPodSandboxes. cbv zeta.
  destruct (client_ListPodSandbox _ _) as [[?|?] ?]; cbn [snd];
    by rewrite ?calls_run_rendering, !calls_after_call.
Qed.

(** C25: the list request carries no filter, and it is the only call
    ListPodSandboxes issues, in quiet mode or not. *)
Theorem list_request_unfiltered quiet w :
  calls (trace (ListPodSandboxes quiet w).2) =
    calls (trace w) ++ [ReqList (mkListReq None)].
Proof. apply calls_ListPodSandboxes. Qed.

(** The call of a creation: none when the file cannot be loaded or the
    override panics, else the request with the configuration after the
    override. *)
Lemma calls_RunPodSandbox path name w :
  calls (trace (RunPodSandbox path name w).2) =
    calls (trace w) ++
    match config_file path with
    | Success config =>
        match override_name name config with
        | Some c => [ReqRun (mkRunReq (Some c))]
        | None => []
        end
    | Failure _ => []
    end.
Proof.
  rewrite run_RunPodSandbox. cbv zeta.
  destruct (config_file path) as [config|e]; cbn [snd];
    [|by rewrite calls_record_load, app_nil_r].
  destruct (override_name name config) as [c|]; cbn [snd];
    [|by rewrite calls_record_load, app_nil_r].
  destruct (client_RunPodSandbox _ _) as [[?|?] ?]; cbn [snd];
    by rewrite ?calls_run_rendering, !calls_after_call, calls_record_load.
Qed.

(** C6: the configuration sent by RunPodSandbox is the loaded one with
    its metadata name replaced by the name of the command line when that
    name is not empty, and kept when it is empty; the uid, the namespace, the
    attempt count and the runtime settings are those of the file. *)
Theorem name_override_wins path name config md w :
  config_file path = Success config →
  cfg_Metadata config = Some md →
  calls (trace (RunPodSandbox path name w).2) =
    calls (trace w) ++
    [ReqRun (mkRunReq (Some (mkConfig
       (Some (mkMetadata (if decide (name = "") then md_Name md else Some name)
                (md_Uid md) (md_Namespace md) (md_Attempt md)))
       (cfg_Runtime config))))].
Proof.
  intros Hload Hmd. rewrite calls_RunPodSandbox, Hload.
  unfold override_name. rewrite Hmd.
  destruct config as [? rt], md as [n u ns a]; simpl in *; subst.
  by repeat case_decide.
Qed.

(** C11: with an empty name on the command line the configuration is sent
    exactly as loaded, whether it has metadata or not. *)
Theorem empty_name_keeps_config path config w :
  config_file path = Success config →
  calls (trace (RunPodSandbox path "" w).2) =
    calls (trace w) ++ [ReqRun (mkRunReq (Some config))].
Proof.
  intros Hload. by rewrite calls_RunPodSandbox, Hload.
Qed.

(** C13: when the loaded configuration has no metadata and a name is given
    on the command line, RunPodSandbox panics on the assignment of the name:
    the file has been read, and no remote call is issued. *)
Theorem override_without_metadata_panics path name config w :
  config_file path = Success config →
  cfg_Metadata config = None →
  name ≠ "" →
  RunPodSandbox path name w = (Panic nil_deref, record (EvLoad path) w).
Proof.
  intros Hload Hmd Hname. rewrite run_RunPodSandbox, Hload. cbv zeta.
  unfold override_name. rewrite Hmd. by case_decide.
Qed.

(** When the configuration cannot be loaded, RunPodSandbox returns
    the error of the loader as it is, after the attempt to read the file and
    before any remote call. *)
Lemma load_error_before_call path name e w :
  config_file path = Failure e →
  RunPodSandbox path name w = (Err e, record (EvLoad path) w).
Proof. intros Hload. by rewrite run_RunPodSandbox, Hload. Qed.

(** ** Well-formed requests *)

(** The override keeps a configuration well formed: it touches the name
    only. *)
Lemma override_name_wf name config c :
  wf_config config → override_name name config = Some c → wf_config c.
Proof.
  unfold override_name. intros Hwf. case_decide; [|by intros [= <-]].
  destruct (cfg_Metadata config) as [md|] eqn:Hmd; [|done].
  intros [= <-] md' [= <-] a Ha. by apply (Hwf md Hmd a).
Qed.

(** C18: every request the client issues is well formed.  If the
    configurations the host decodes are well formed, each of the five
    functions keeps the invariant that all the requests of the trace are:
    a creation carries a configuration whose attempt count fits 32 bits,
    a stop, a removal and a status request carry an identifier that is
    present and not empty. *)
Theorem requests_well_formed w :
  (∀ path config, config_file path = Success config → wf_config config) →
  Forall wf_request (calls (trace w)) →
  (∀ path name,
     Forall wf_request (calls (trace (RunPodSandbox path name w).2))) ∧
  (∀ ID, Forall wf_request (calls (trace (StopPodSandbox ID w).2))) ∧
  (∀ ID, Forall wf_request (calls (trace (RemovePodSandbox ID w).2))) ∧
  (∀ ID, Forall wf_request (calls (trace (PodSandboxStatus ID w).2))) ∧
  (∀ quiet, Forall wf_request (calls (trace (ListPodSandboxes quiet w).2))).
Proof.
  intros Hhost Hw.
  assert (∀ ID, ID ≠ "" → wf_id (Some ID)) as Hid by (by eexists).
  repeat split; intros.
  - rewrite calls_RunPodSandbox. apply Forall_app. split; [done|].
    destruct (config_file path) as [config|] eqn:Hload; [|done].
    destruct (override_name name config) as [c|] eqn:Hc; [|done].
    apply Forall_singleton. exists c. eauto using override_name_wf.
  - destruct (decide (ID = "")) as [->|HID]; [done|].
    rewrite (proj1 (request_carries_id_aux ID w HID)).
    apply Forall_app. split; [done|]. apply Forall_singleton, Hid, HID.
  - destruct (decide (ID = "")) as [->|HID]; [done|].
    rewrite (proj1 (proj2 (request_carries_id_aux ID w HID))).
    apply Forall_app. split; [done|]. apply Forall_singleton, Hid, HID.
  - destruct (decide (ID = "")) as [->|HID]; [done|].
    rewrite (proj2 (proj2 (request_carries_id_aux ID w HID))).
    apply Forall_app. split; [done|]. apply Forall_singleton, Hid, HID.
  - rewrite calls_ListPodSandboxes. apply Forall_app. split; [done|].
    by apply Forall_singleton.
Qed.

(** ** Success *)

(** When the service accepts the call, StopPodSandbox and
    RemovePodSandbox return nil, and what they print is exactly the
    identifier on a line of its own, after the call. *)
Lemma stop_remove_print_id ID w :
  ID ≠ "" →
  (∀ resp s', client_StopPodSandbox (mkStopReq (Some ID)) (svc w)
                = (Success resp, s') →
     StopPodSandbox ID w =
     (Ret (), emit [ID +:+ nl]
                (after_call (ReqStop (mkStopReq (Some ID))) s' w))) ∧
  (∀ resp s', client_RemovePodSandbox (mkRemoveReq (Some ID)) (svc w)
                = (Success resp, s') →
     RemovePodSandbox ID w =
     (Ret (), emit [ID +:+ nl]
                (after_call (ReqRemove (mkRemoveReq (Some ID))) s' w))).
Proof.
  intros HID. split; intros resp s' Hrpc.
  - by rewrite run_StopPodSandbox, Hrpc.
  - by rewrite run_RemovePodSandbox, Hrpc.
Qed.

(** C27: when the service answers a creation with an identifier,
    RunPodSandbox prints that identifier on a line of its own and returns
    nil; when the answer carries no identifier it panics, the sandbox having
    been created. *)
Theorem create_prints_id path name config c r s' w :
  config_file path = Success config →
  override_name name config = Some c →
  client_RunPodSandbox (mkRunReq (Some c)) (svc w) = (Success r, s') →
  RunPodSandbox path name w =
  (match run_PodSandboxId r with
   | Some _ => Ret ()
   | None => Panic nil_deref
   end,
   emit (option_list ((λ id, id +:+ nl) <$> run_PodSandboxId r))
     (after_call (ReqRun (mkRunReq (Some c))) s' (record (EvLoad path) w))).
Proof.
  intros Hload Hc Hrpc. rewrite run_RunPodSandbox, Hload, Hc. cbv zeta.
  change (svc (record (EvLoad path) w)) with (svc w). rewrite Hrpc.
  rewrite run_rendering_pure by (by destruct (run_PodSandboxId r)).
  by destruct (run_PodSandboxId r).
Qed.

(** ** Remote errors *)

(** C24: an error of the service is returned as it is by each of the five
    functions, and nothing is printed: the trace grows by the call only (and
    by the read of the configuration file for a creation). *)
Theorem remote_error_verbatim e w :
  (∀ ID s', ID ≠ "" →
     client_StopPodSandbox (mkStopReq (Some ID)) (svc w) = (Failure e, s') →
     StopPodSandbox ID w =
     (Err e, after_call (ReqStop (mkStopReq (Some ID))) s' w)) ∧
  (∀ ID s', ID ≠ "" →
     client_RemovePodSandbox (mkRemoveReq (Some ID)) (svc w)
       = (Failure e, s') →
     RemovePodSandbox ID w =
     (Err e, after_call (ReqRemove (mkRemoveReq (Some ID))) s' w)) ∧
  (∀ ID s', ID ≠ "" →
     client_PodSandboxStatus (mkStatusReq (Some ID)) (svc w)
       = (Failure e, s') →
     PodSandboxStatus ID w =
     (Err e, after_call (ReqStatus (mkStatusReq (Some ID))) s' w)) ∧
  (∀ quiet s',
     client_ListPodSandbox (mkListReq None) (svc w) = (Failure e, s') →
     ListPodSandboxes quiet w =
     (Err e, after_call (ReqList (mkListReq None)) s' w)) ∧
  (∀ path name config c s',
     config_file path = Success config →
     override_name name config = Some c →
     client_RunPodSandbox (mkRunReq (Some c)) (svc w) = (Failure e, s') →
     RunPodSandbox path name w =
     (Err e, after_call (ReqRun (mkRunReq (Some c))) s'
               (record (EvLoad path) w))).
Proof.
  repeat split.
  - intros ID s' ? Hrpc. by rewrite run_StopPodSandbox, Hrpc.
  - intros ID s' ? Hrpc. by rewrite run_RemovePodSandbox, Hrpc.
  - intros ID s' ? Hrpc. by rewrite run_PodSandboxStatus, Hrpc.
  - intros quiet s' Hrpc. by rewrite run_ListPodSandboxes, Hrpc.
  - intros path name config c s' Hload Hc Hrpc.
    rewrite run_RunPodSandbox, Hload, Hc. cbv zeta.
    change (svc (record (EvLoad path) w)) with (svc w). by rewrite Hrpc.
Qed.

(** ** Particular responses *)

(** C36: a status that carries its identifier and its state and nothing
    else is printed as two lines, the identifier line and the state line: no
    metadata, creation, network or label section appears. *)
Theorem status_with_id_and_state_only ID id state s' w :
  ID ≠ "" →
  client_PodSandboxStatus (mkStatusReq (Some ID)) (svc w) =
    (Success (mkStatusResp (Some
       (mkStatus (Some id) None (Some state) None None None None None))),
     s') →
  PodSandboxStatus ID w =
  (Ret (),
   emit ["ID: " +:+ id +:+ nl;
         "Status: " +:+ PodSandBoxState_String state +:+ nl]
     (after_call (ReqStatus (mkStatusReq (Some ID))) s' w)).
Proof.
  intros HID Hrpc. rewrite run_PodSandboxStatus, Hrpc by done.
  by rewrite run_rendering_pure.
Qed.

(** C35: in quiet mode, when every entry of the response carries an
    identifier, ListPodSandboxes prints exactly the identifiers, one per
    line, in the order of the response, and returns nil. *)
Theorem quiet_list_prints_ids r pods ids s' w :
  client_ListPodSandbox (mkListReq None) (svc w) = (Success r, s') →
  list_Items r = Some <$> pods →
  pod_Id <$> pods = Some <$> ids →
  ListPodSandboxes true w =
  (Ret (), emit ((λ id, id +:+ nl) <$> ids)
             (after_call (ReqList (mkListReq None)) s' w)).
Proof.
  intros Hrpc Hitems Hids. rewrite run_ListPodSandboxes, Hrpc, Hitems.
  rewrite (items_rendering_quiet _ pods ids Hids).
  by rewrite run_rendering_pure.
Qed.

(** C20: in full mode, when the first entry of the answer has no creation
    time, ListPodSandboxes panics on it with a nil dereference: the lines of
    that entry up to its state are printed, and none of the entries that
    follow.  The same at any position of the answer is the theorem on the
    loop of the listing above. *)
Theorem full_list_needs_CreatedAt r pod rest s' w :
  client_ListPodSandbox (mkListReq None) (svc w) = (Success r, s') →
  list_Items r = Some pod :: rest →
  pod_CreatedAt pod = None →
  ListPodSandboxes false w =
  (Panic nil_deref,
   emit (lines (pod_rendering (seed w) pod))
     (after_call (ReqList (mkListReq None)) s' w)).
Proof.
  intros Hrpc Hitems Ht. rewrite run_ListPodSandboxes, Hrpc, Hitems.
  pose proof (stopped_pod_rendering_no_CreatedAt (seed w) pod Ht) as Hs.
  simpl. unfold rseq, run_rendering. rewrite Hs. cbn [stopped lines ranges].
  rewrite Hs. f_equal. f_equal.
  destruct (pod_Id pod) as [id|] eqn:Hid.
  - rewrite (pod_rendering_no_CreatedAt _ pod id) by done. apply bump_0.
  - unfold pod_rendering. rewrite Hid. apply bump_0.
Qed.

(** C37: in full mode the state of an entry is printed without a test:
    an entry without state still has its state line, which reads <nil>,
    where the status command prints no state line at all. *)
Theorem list_prints_absent_state r id t s' w :
  client_ListPodSandbox (mkListReq None) (svc w) = (Success r, s') →
  list_Items r = [Some (mkPodSandbox (Some id) None None (Some t) None None)] →
  ListPodSandboxes false w =
  (Ret (),
   emit ["ID: " +:+ id +:+ nl; "Status: <nil>" +:+ nl;
         "Created: " +:+ time_String t +:+ nl]
     (after_call (ReqList (mkListReq None)) s' w)).
Proof.
  intros Hrpc Hitems. rewrite run_ListPodSandboxes, Hrpc, Hitems.
  by rewrite run_rendering_pure.
Qed.

(** ** One call at most *)

(** Each of the five functions issues at most one remote call, on
    every path. *)
Lemma at_most_one_call w :
  let n := length (calls (trace w)) in
  (∀ path name, length (calls (trace (RunPodSandbox path name w).2)) ≤ S n) ∧
  (∀ ID, length (calls (trace (StopPodSandbox ID w).2)) ≤ S n) ∧
  (∀ ID, length (calls (trace (RemovePodSandbox ID w).2)) ≤ S n) ∧
  (∀ ID, length (calls (trace (PodSandboxStatus ID w).2)) ≤ S n) ∧
  (∀ quiet, length (calls (trace (ListPodSandboxes quiet w).2)) ≤ S n).
Proof.
  intros n. repeat split; intros; apply appends_inner_calls;
    auto using RunPodSandbox_appends_inner, StopPodSandbox_appends_inner,
      RemovePodSandbox_appends_inner, PodSandboxStatus_appends_inner,
      ListPodSandboxes_appends_inner.
Qed.

(** ** The functions are exchanges

    Each lifecycle function is the inside of the session of its line of
    the pipeline: it reads what the line reads, builds what the line
    builds, sends it once, and prints the answer as [render] says. *)

Lemma RunPodSandbox_exchanges path name :
  exchanges (RunPodSandbox path name)
    (mkLine "Creating the pod sandbox failed: " [path]
       (build_create path name) false).
Proof.
  intros w. cbv zeta. cbn [l_built l_quiet l_reads].
  change (loaded [path] w) with (record (EvLoad path) w).
  rewrite run_RunPodSandbox. cbv zeta. unfold build_create, override_name.
  destruct (config_file path) as [config|e]; [|exact (exchange_silent _ _ _)].
  destruct (decide (name = "")) as [->|Hname]; [rewrite decide_False by auto|
    rewrite decide_True by done;
    destruct (cfg_Metadata config) as [md|]; [|exact (exchange_silent _ _ _)]];
    simpl; unfold exchange, serve, answer;
    destruct (client_RunPodSandbox _ _) as [[r|e] s']; simpl;
    by rewrite ?run_rendering_exchange, ?after_call_only.
Qed.

(** The three functions that take an identifier, each from the equation
    of its run. *)
Ltac by_id_exchanges run_eq op :=
  intros w; cbv zeta; cbn [l_built l_quiet l_reads]; rewrite loaded_nil;
  unfold build_by_id;
  destruct (decide (_ = "")) as [->|HID]; [exact (exchange_silent _ _ _)|];
  rewrite run_eq by done; cbv zeta; unfold exchange, serve, answer;
  destruct (op _ _) as [[r|e] s']; cbn;
  by rewrite ?run_rendering_exchange, ?after_call_only,
    ?(emit_exchange Done).

Lemma StopPodSandbox_exchanges ID :
  exchanges (StopPodSandbox ID)
    (mkLine "stopping the pod sandbox failed: " []
       (build_by_id (λ id, ReqStop (mkStopReq id)) ID) false).
Proof. by_id_exchanges run_StopPodSandbox client_StopPodSandbox. Qed.

Lemma RemovePodSandbox_exchanges ID :
  exchanges (RemovePodSandbox ID)
    (mkLine "removing the pod sandbox failed: " []
       (build_by_id (λ id, ReqRemove (mkRemoveReq id)) ID) false).
Proof. by_id_exchanges run_RemovePodSandbox client_RemovePodSandbox. Qed.

Lemma PodSandboxStatus_exchanges ID :
  exchanges (PodSandboxStatus ID)
    (mkLine "getting the pod sandbox status failed: " []
       (build_by_id (λ id, ReqStatus (mkStatusReq id)) ID) false).
Proof. by_id_exchanges run_PodSandboxStatus client_PodSandboxStatus. Qed.

Lemma ListPodSandboxes_exchanges quiet :
  exchanges (ListPodSandboxes quiet)
    (mkLine "listing pod sandboxes failed: " []
       (Send (ReqList (mkListReq None))) quiet).
Proof.
  intros w. cbv zeta. cbn [l_built l_quiet l_reads]. rewrite loaded_nil.
  rewrite run_ListPodSandboxes. cbv zeta. unfold exchange, serve, answer.
  destruct (client_ListPodSandbox _ _) as [[r|e] s']; cbn [fst snd];
    by rewrite ?run_rendering_exchange, ?after_call_only.
Qed.

End Sandbox.

(** ** The theorems at concrete inputs *)

Lemma request_carries_id_witness :
  calls (trace (StopPodSandbox "s1" (start sample_table)).2) =
    [ReqStop (mkStopReq (Some "s1"))].
Proof.
  exact (proj1 (request_carries_id (host:=sample_host) "s1"
                  (start sample_table) ltac:(done))).
Defined.

Lemma name_override_wins_witness :
  calls (trace (RunPodSandbox (host:=sample_host) "config.json" "B"
                  (start sample_table)).2) =
    [ReqRun (mkRunReq (Some (mkConfig
       (Some (mkMetadata (Some "B") (Some "uid-1") (Some "default")
                (Some 1%N)))
       {["hostname" := "h1"]})))].
Proof.
  exact (name_override_wins (host:=sample_host) "config.json" "B"
           sample_config sample_metadata (start sample_table)
           eq_refl eq_refl).
Defined.

Lemma empty_name_keeps_config_witness :
  calls (trace (RunPodSandbox (host:=sample_host) "config.json" ""
                  (start sample_table)).2) =
    [ReqRun (mkRunReq (Some sample_config))].
Proof.
  exact (empty_name_keeps_config (host:=sample_host) "config.json"
           sample_config (start sample_table) eq_refl).
Defined.

Lemma override_without_metadata_panics_witness :
  RunPodSandbox
    (host:=stub_host {["bare.json" := mkConfig None ∅]} None)
    "bare.json" "B" (start sample_table) =
  (Panic nil_deref, record (EvLoad "bare.json") (start sample_table)).
Proof.
  apply (override_without_metadata_panics _ _ (mkConfig None ∅));
    [reflexivity|reflexivity|done].
Defined.

Lemma create_prints_id_witness :
  let c := mkConfig
             (Some (mkMetadata (Some "B") (Some "uid-1") (Some "default")
                      (Some 1%N)))
             {["hostname" := "h1"]} in
  RunPodSandbox (host:=sample_host) "config.json" "B" (start sample_table) =
  (Ret (),
   emit ["pod2" +:+ nl]
     (after_call (ReqRun (mkRunReq (Some c)))
        (table_run (mkRunReq (Some c)) sample_table).2
        (record (EvLoad "config.json") (start sample_table)))).
Proof.
  exact (create_prints_id (host:=sample_host) "config.json" "B"
           sample_config _ (mkRunResp (Some "pod2")) _ (start sample_table)
           eq_refl eq_refl eq_refl).
Defined.

Lemma remote_error_verbatim_witness :
  StopPodSandbox (client:=failing_service "connection refused") "s1"
    (start 0) =
  (Err "connection refused",
   after_call (ReqStop (mkStopReq (Some "s1"))) 1 (start 0)).
Proof.
  apply (proj1 (remote_error_verbatim (host:=sample_host)
                  (client:=failing_service "connection refused")
                  "connection refused" (start 0))); [done|reflexivity].
Defined.

Lemma PodSandboxStatus_renders_witness :
  PodSandboxStatus (host:=sample_host) "s1" (start sample_table) =
  run_rendering (status_rendering (host:=sample_host) 0 full_status)
    (after_call (ReqStatus (mkStatusReq (Some "s1"))) sample_table
       (start sample_table)).
Proof.
  exact (PodSandboxStatus_renders (host:=sample_host) "s1"
           (mkStatusResp (Some full_status)) sample_table
           (start sample_table) ltac:(done) eq_refl).
Defined.

Lemma ListPodSandboxes_renders_witness :
  stdout (ListPodSandboxes (host:=sample_host) true
            (start sample_table)).2 = ["s1" +:+ nl; "s2" +:+ nl].
Proof.
  rewrite (ListPodSandboxes_renders (host:=sample_host) true
             (mkListResp [Some (summary full_status);
                          Some (summary stopped_status)])
             sample_table (start sample_table))
    by (vm_compute; reflexivity).
  reflexivity.
Defined.

Lemma status_with_id_and_state_only_witness :
  PodSandboxStatus (host:=sample_host) "s1"
    (start (mkTable {["s1" := bare_status]} 1)) =
  (Ret (),
   emit ["ID: " +:+ "s1" +:+ nl; "Status: " +:+ "READY" +:+ nl]
     (after_call (ReqStatus (mkStatusReq (Some "s1")))
        (mkTable {["s1" := bare_status]} 1)
        (start (mkTable {["s1" := bare_status]} 1)))).
Proof.
  apply (status_with_id_and_state_only (host:=sample_host) "s1" "s1" READY);
    [done|reflexivity].
Defined.

Lemma quiet_list_prints_ids_witness :
  ListPodSandboxes (host:=sample_host) true (start sample_table) =
  (Ret (), emit ["s1" +:+ nl; "s2" +:+ nl]
             (after_call (ReqList (mkListReq None)) sample_table
                (start sample_table))).
Proof.
  apply (quiet_list_prints_ids (host:=sample_host)
           (mkListResp [Some (summary full_status);
                        Some (summary stopped_status)])
           [summary full_status; summary stopped_status] ["s1"; "s2"]);
    [vm_compute; reflexivity|reflexivity|reflexivity].
Defined.

Lemma full_list_needs_CreatedAt_witness :
  ListPodSandboxes (host:=sample_host) false
    (start (mkTable {["s1" := bare_status]} 1)) =
  (Panic nil_deref,
   emit ["ID: " +:+ "s1" +:+ nl; "Status: " +:+ "READY" +:+ nl]
     (after_call (ReqList (mkListReq None))
        (mkTable {["s1" := bare_status]} 1)
        (start (mkTable {["s1" := bare_status]} 1)))).
Proof.
  apply (full_list_needs_CreatedAt (host:=sample_host)
           (mkListResp [Some (summary bare_status)])
           (summary bare_status) []);
    [vm_compute; reflexivity|reflexivity|reflexivity].
Defined.

Lemma list_prints_absent_state_witness :
  let item := mkPodSandbox (Some "s3") None None (Some 7%Z) None None in
  let t := mkTable {["s3" := mkStatus (Some "s3") None None (Some 7%Z)
                                None None None None]} 4 in
  ListPodSandboxes (host:=sample_host) false (start t) =
  (Ret (),
   emit ["ID: s3" +:+ nl; "Status: <nil>" +:+ nl; "Created: unix:7" +:+ nl]
     (after_call (ReqList (mkListReq None)) t (start t))).
Proof.
  intros item t.
  apply (list_prints_absent_state (host:=sample_host)
           (mkListResp [Some item]) "s3" 7%Z t (start t));
    vm_compute; reflexivity.
Defined.

Lemma output_up_to_order_witness :
  let w1 := start sample_table in
  let w2 := mkWorld [] sample_table 1 in
  ((PodSandboxStatus (host:=sample_host) "s1" w1).1 =
   (PodSandboxStatus (host:=sample_host) "s1" w2).1 ∧
   blockwise (stdout (PodSandboxStatus (host:=sample_host) "s1" w1).2)
     (stdout (PodSandboxStatus (host:=sample_host) "s1" w2).2)) ∧
  ((ListPodSandboxes (host:=sample_host) false w1).1 =
   (ListPodSandboxes (host:=sample_host) false w2).1 ∧
   blockwise (stdout (ListPodSandboxes (host:=sample_host) false w1).2)
     (stdout (ListPodSandboxes (host:=sample_host) false w2).2)).
Proof.
  intros w1 w2.
  apply (output_up_to_order (host:=sample_host) "s1" false w1 w2);
    reflexivity.
Defined.

Lemma requests_well_formed_witness :
  Forall wf_request
    (calls (trace (RunPodSandbox (host:=sample_host) "config.json" "B"
                     (start sample_table)).2)).
Proof.
  apply (requests_well_formed (host:=sample_host) (start sample_table));
    [|constructor].
  intros path config. simpl. destruct (sample_files !! path) eqn:Hp; [|done].
  unfold sample_files in Hp. apply lookup_singleton_Some in Hp as [_ <-].
  intros [= <-] md [= <-] a [= <-]. reflexivity.
Defined.

Lemma list_loop_stops_witness :
  let t := mkTable {["s1" := bare_status; "s2" := full_status;
                     "s3" := stopped_status]} 3 in
  let items := [Some (summary stopped_status); Some (summary bare_status);
                Some (summary full_status)] in
  let run := ListPodSandboxes (host:=sample_host) false (start t) in
  loop_exec (printPod (host:=sample_host) false) items
    (after_call (ReqList (mkListReq None)) t (start t)) 2 run.1 run.2 ∧
  run.1 = Panic nil_deref ∧
  stdout run.2 =
    stdout (start t) ++
    lines (items_rendering (host:=sample_host) false 0 (take 2 items)).
Proof.
  intros t items run.
  apply (list_loop_stops (host:=sample_host) false (mkListResp items) t
           (start t)).
  vm_compute. reflexivity.
Defined.

(** On a machine in UTC, the status of a sandbox created at second 5
    shows the date of that second. *)
Example status_created_in_utc :
  stdout (PodSandboxStatus (host:=utc_host) "s2" (start sample_table)).2 =
  ["ID: s2" +:+ nl; "Status: NOT_READY" +:+ nl;
   "Created: 1970-01-01 00:00:05 +0000 UTC" +:+ nl].
Proof. by vm_compute. Qed.

Lemma printMetadata_bounded_witness :
  let md := mkMetadata (Some "pod") (Some "uid-1") (Some "default")
              (Some 4294967295%N) in
  ∃ ls, printMetadata (Some md) (start sample_table) =
          (Ret (), emit ls (start sample_table)) ∧
        length ls ≤ 4 ∧ String.length (text ls) ≤ 45 + 3 + 5 + 7.
Proof.
  intros md. apply (printMetadata_bounded md (start sample_table)).
  intros a [= <-]. reflexivity.
Defined.

Lemma printed_map_reads_back_witness :
  ∃ ls,
    trace (printMap (host:=sample_host) "Labels:" (Some sample_labels)
             (start sample_table)).2 =
      trace (start sample_table) ++
      EvWrite ("Labels:" +:+ nl) :: (EvWrite <$> ls) ∧
    list_to_map <$> mapM read_entry ls = Some sample_labels.
Proof.
  apply (printed_map_reads_back (host:=sample_host)).
  apply (bool_decide_unpack _). vm_compute. exact I.
Defined.
