(* ===== verification/ReadBack.v ===== *)
(** * ReadBack: what the commands print determines what they received

    The status and list commands print their answers as lines of text.
    This file reads the lines back: [read_status] and [read_pods] are
    readers for the formats of [PodSandboxStatus] and [ListPodSandboxes],
    and [read_ids] for the quiet listing,
    built from a reader per kind of line (a field behind its label, the
    header of a map, an entry of a map), and the theorems say that reading
    what a command printed gives what the service sent, up to the one
    thing the format does not show: a metadata block that is present with
    no field set prints as an absent one.  The readers are not part of the
    program: they are the inverse that shows its output loses nothing. *)

From S2P Require Import Prelude Text GoRuntime Proto World Time Stubs Render Sandbox.

(** ** Readers of lines *)

(** The value of the field [label] on a line. *)
Definition read_field (label line : string) : option string :=
  unline line ≫= after_prefix (label +:+ ": ").

(** An optional field: its value if the first line carries the label, and
    the lines left. *)
Definition opt_field (label : string) (ls : list string) :
    option string * list string :=
  match ls with
  | l :: ls' =>
      match read_field label l with
      | Some v => (Some v, ls')
      | None => (None, ls)
      end
  | [] => (None, [])
  end.

(** Optional fields in the order of their labels. *)
Fixpoint opt_fields (labels : list string) (ls : list string) :
    list (option string) * list string :=
  match labels with
  | [] => ([], ls)
  | label :: labels' =>
      let '(v, ls1) := opt_field label ls in
      let '(vs, ls2) := opt_fields labels' ls1 in
      (v :: vs, ls2)
  end.

(** The entries at the head of the lines, and the lines left. *)
Fixpoint read_entries (ls : list string) :
    list (string * string) * list string :=
  match ls with
  | l :: ls' =>
      match read_entry l with
      | Some kv => let '(kvs, rest) := read_entries ls' in (kv :: kvs, rest)
      | None => ([], ls)
      end
  | [] => ([], [])
  end.

(** An optional map under its header: nil if the first line is not the
    header. *)
Definition opt_map (header : string) (ls : list string) :
    option (gmap string string) * list string :=
  match ls with
  | l :: ls' =>
      if decide (l = header +:+ nl) then
        let '(kvs, rest) := read_entries ls' in (Some (list_to_map kvs), rest)
      else (None, ls)
  | [] => (None, [])
  end.

(** ** What the lines are made of *)

(** The lines of optional fields. *)
Definition fields_lines (fs : list (string * option string)) : list string :=
  fs ≫= λ f, opt_line f.1 f.2.

(** The labels of a list are distinct when the text of none starts the
    text of a later one. *)
Fixpoint distinct (labels : list string) : bool :=
  match labels with
  | [] => true
  | l :: labels' =>
      forallb (λ l', differ (l +:+ ": ") (l' +:+ ": ")) labels' &&
      distinct labels'
  end.

(** The first line, if any, carries no label of the list. *)
Definition unlabelled (labels : list string) (ls : list string) : Prop :=
  ∀ l, head ls = Some l → Forall (λ label, read_field label l = None) labels.

(** The first line, if any, is no entry of a map. *)
Definition no_entry (ls : list string) : Prop :=
  ∀ l, head ls = Some l → read_entry l = None.

(** The state a symbolic name denotes. *)
Definition read_state (s : string) : option PodSandBoxState :=
  if decide (s = "UNKNOWN") then Some UNKNOWN
  else if decide (s = "READY") then Some READY
  else if decide (s = "NOT_READY") then Some NOT_READY
  else None.

(** The value of an optional field, read by [f] when the field is
    present; [None] when it is present and [f] refuses it. *)
Definition opt_read {A} (f : string → option A) (v : option string) :
    option (option A) :=
  match v with
  | Some s => Some <$> f s
  | None => Some None
  end.

(** The labels of the fields of a status, in the order they are printed. *)
Definition status_labels : list string :=
  ["ID"; "Name"; "UID"; "Namespace"; "Attempt"; "Status"; "Created";
   "Network namespace"; "IP Address"].

(** The metadata block the four fields denote: none when no field is
    set. *)
Definition read_metadata (name uid namespace : option string)
    (attempt : option N) : option PodSandboxMetadata :=
  match name, uid, namespace, attempt with
  | None, None, None, None => None
  | _, _, _, _ => Some (mkMetadata name uid namespace attempt)
  end.

(** The status the lines denote; [read_time] reads the creation time in
    the format of the machine. *)
Definition read_status (read_time : string → option Z) (ls : list string) :
    option pb.PodSandboxStatus :=
  match opt_fields status_labels ls with
  | ([id; name; uid; namespace; attempt; state; created; netns; ip], ls1) =>
      let '(labels, ls2) := opt_map "Labels:" ls1 in
      let '(annotations, ls3) := opt_map "Annotations:" ls2 in
      attempt ← opt_read read_N attempt;
      state ← opt_read read_state state;
      created ← opt_read read_time created;
      if decide (ls3 = []) then
        Some (mkStatus id (read_metadata name uid namespace attempt) state
                created (mkNetwork ∘ Some <$> ip)
                (mkLinux ∘ Some ∘ mkNamespace ∘ Some <$> netns)
                labels annotations)
      else None
  | _ => None
  end.

(** The text of the fields of a status, in the order of [status_labels]. *)
Definition status_values {host : Host} (st : pb.PodSandboxStatus) :
    list (option string) :=
  [st_Id st; st_Metadata st ≫= md_Name; st_Metadata st ≫= md_Uid;
   st_Metadata st ≫= md_Namespace;
   pretty <$> (st_Metadata st ≫= md_Attempt);
   PodSandBoxState_String <$> st_State st;
   time_String <$> st_CreatedAt st;
   (st_Linux st ≫= lx_Namespaces) ≫= ns_Network;
   st_Network st ≫= net_Ip].

(** What the text shows of a status: everything, but for a metadata block
    with no field set, which prints as an absent one. *)
Definition normal (st : pb.PodSandboxStatus) : pb.PodSandboxStatus :=
  mkStatus (st_Id st)
    (md ← st_Metadata st;
     read_metadata (md_Name md) (md_Uid md) (md_Namespace md) (md_Attempt md))
    (st_State st) (st_CreatedAt st) (st_Network st) (st_Linux st)
    (st_Labels st) (st_Annotations st).

(** The keys of the two maps of a status hold no space. *)
Definition spaceless_keys (st : pb.PodSandboxStatus) : Prop :=
  ∀ m, st_Labels st = Some m ∨ st_Annotations st = Some m →
       map_Forall (λ k _, spaceless k) m.

(** The creation time of the status is one the reader of the machine
    reads back. *)
Definition readable {host : Host} (read_time : string → option Z)
    (st : pb.PodSandboxStatus) : Prop :=
  ∀ t, st_CreatedAt st = Some t → read_time (time_String t) = Some t.

(** The free text of a status holds no line feed: its identifier, the
    strings of its metadata, its network namespace and address, the text
    of its creation time, the keys and values of its maps. *)
Definition status_lineless {host : Host} (st : pb.PodSandboxStatus) : Prop :=
  Forall (λ v : option string, from_option lineless true v)
    [st_Id st; st_Metadata st ≫= md_Name; st_Metadata st ≫= md_Uid;
     st_Metadata st ≫= md_Namespace;
     (st_Linux st ≫= lx_Namespaces) ≫= ns_Network;
     st_Network st ≫= net_Ip] ∧
  (∀ t, st_CreatedAt st = Some t → lineless (time_String t)) ∧
  (∀ m, st_Labels st = Some m ∨ st_Annotations st = Some m →
        map_Forall (λ k v, lineless k && lineless v) m).

(** ** The list *)

(** The labels of the fields of an entry after its identifier, in the
    order they are printed. *)
Definition pod_labels : list string :=
  ["Name"; "UID"; "Namespace"; "Attempt"; "Status"; "Created"].

(** The state the text of a pointer to a state denotes. *)
Definition read_state_text (s : string) : option (option PodSandBoxState) :=
  if decide (s = "<nil>") then Some None else Some <$> read_state s.

(** One entry of a full listing at the head of the lines, and the lines
    left. *)
Definition read_pod (read_time : string → option Z) (ls : list string) :
    option (PodSandbox * list string) :=
  match ls with
  | l :: ls0 =>
      id ← read_field "ID" l;
      match opt_fields pod_labels ls0 with
      | ([name; uid; namespace; attempt; Some state; Some created], ls1) =>
          let '(labels, ls2) := opt_map "Labels:" ls1 in
          let '(annotations, ls3) := opt_map "Annotations:" ls2 in
          attempt ← opt_read read_N attempt;
          state ← read_state_text state;
          created ← read_time created;
          Some (mkPodSandbox (Some id)
                  (read_metadata name uid namespace attempt) state
                  (Some created) labels annotations, ls3)
      | _ => None
      end
  | [] => None
  end.

(** The entries of a full listing; one unit of fuel per entry. *)
Fixpoint read_pods (read_time : string → option Z) (fuel : nat)
    (ls : list string) : option (list PodSandbox) :=
  match ls, fuel with
  | [], _ => Some []
  | _, O => None
  | _, S fuel' =>
      '(pod, ls') ← read_pod read_time ls;
      (pod ::.) <$> read_pods read_time fuel' ls'
  end.

(** The text of the fields of an entry, in the order of [pod_labels]: the
    state is printed whether present or not. *)
Definition pod_values {host : Host} (pod : PodSandbox) : list (option string) :=
  [pod_Metadata pod ≫= md_Name; pod_Metadata pod ≫= md_Uid;
   pod_Metadata pod ≫= md_Namespace;
   pretty <$> (pod_Metadata pod ≫= md_Attempt);
   Some (state_text (pod_State pod));
   time_String <$> pod_CreatedAt pod].

(** What the text shows of an entry. *)
Definition normal_pod (pod : PodSandbox) : PodSandbox :=
  mkPodSandbox (pod_Id pod)
    (md ← pod_Metadata pod;
     read_metadata (md_Name md) (md_Uid md) (md_Namespace md) (md_Attempt md))
    (pod_State pod) (pod_CreatedAt pod) (pod_Labels pod)
    (pod_Annotations pod).

(** What the full listing needs of an entry to print it: the identifier
    and the creation time. *)
Definition pod_complete (pod : PodSandbox) : Prop :=
  is_Some (pod_Id pod) ∧ is_Some (pod_CreatedAt pod).

(** What the reader needs of an entry: no space in the keys of its maps,
    a creation time that reads back. *)
Definition pod_readable {host : Host} (read_time : string → option Z)
    (pod : PodSandbox) : Prop :=
  (∀ m, pod_Labels pod = Some m ∨ pod_Annotations pod = Some m →
        map_Forall (λ k _, spaceless k) m) ∧
  (∀ t, pod_CreatedAt pod = Some t → read_time (time_String t) = Some t).

(** The free text of an entry holds no line feed. *)
Definition pod_lineless {host : Host} (pod : PodSandbox) : Prop :=
  Forall (λ v : option string, from_option lineless true v)
    [pod_Id pod; pod_Metadata pod ≫= md_Name; pod_Metadata pod ≫= md_Uid;
     pod_Metadata pod ≫= md_Namespace] ∧
  (∀ t, pod_CreatedAt pod = Some t → lineless (time_String t)) ∧
  (∀ m, pod_Labels pod = Some m ∨ pod_Annotations pod = Some m →
        map_Forall (λ k v, lineless k && lineless v) m).

(** The first line, if any, is the identifier line of an entry. *)
Definition starts_pod (ls : list string) : Prop :=
  ∀ l, head ls = Some l → ∃ id, l = field_line "ID" id.

(** * Reading what was written *)

(** ** Fields *)

Lemma read_field_line label v : read_field label (field_line label v) = Some v.
Proof.
  unfold read_field, field_line.
  rewrite <-!string_app_assoc, unline_line. apply after_prefix_app.
Qed.

Lemma read_field_other label label' v :
  differ (label +:+ ": ") (label' +:+ ": ") →
  read_field label (field_line label' v) = None.
Proof.
  intros Hd. unfold read_field, field_line.
  rewrite <-!string_app_assoc, unline_line. by apply after_prefix_differ.
Qed.

Lemma opt_field_Some label v ls :
  opt_field label (field_line label v :: ls) = (Some v, ls).
Proof. unfold opt_field. by rewrite read_field_line. Qed.

Lemma opt_field_None label ls :
  unlabelled [label] ls → opt_field label ls = (None, ls).
Proof.
  intros Hls. destruct ls as [|l ls]; [done|]. unfold opt_field.
  by rewrite (Forall_inv (Hls l eq_refl)).
Qed.

(** The first line of the lines of fields followed by other lines is the
    line of one of the fields, or the first of the other lines. *)
Lemma head_fields_lines labels vs rest l :
  head (fields_lines (zip labels vs) ++ rest) = Some l →
  (∃ label v, label ∈ labels ∧ l = field_line label v) ∨ head rest = Some l.
Proof.
  revert vs. induction labels as [|label labels IH]; intros vs; [by right|].
  destruct vs as [|[v|] vs]; [by right|..].
  - intros [= <-]. left. exists label, v. split; [left|done].
  - intros [(label' & v' & Hin & ->)|Hr]%IH; [left|by right].
    exists label', v'. split; [by right|done].
Qed.

Lemma fields_lines_cons label v fs :
  fields_lines ((label, v) :: fs) = opt_line label v ++ fields_lines fs.
Proof. reflexivity. Qed.

(** Reading the lines of optional fields gives the fields. *)
Lemma opt_fields_lines labels vs rest :
  length vs = length labels → distinct labels → unlabelled labels rest →
  opt_fields labels (fields_lines (zip labels vs) ++ rest) = (vs, rest).
Proof.
  revert vs. induction labels as [|label labels IH]; intros [|v vs] Hlen;
    try done.
  cbn [distinct]. intros [Hl Hd]%andb_prop_elim Hrest.
  assert (opt_fields labels (fields_lines (zip labels vs) ++ rest) = (vs, rest))
    as Hvs.
  { apply IH; [by injection Hlen|done|].
    intros l Hh. exact (Forall_inv_tail (Hrest l Hh)). }
  cbn [zip zip_with opt_fields]. rewrite fields_lines_cons, <-app_assoc.
  destruct v as [v|]; cbn [opt_line app].
  { by rewrite opt_field_Some, Hvs. }
  rewrite opt_field_None, Hvs; [done|].
  intros l [(label' & v' & Hin & ->)|Hh]%head_fields_lines.
  - constructor; [|done]. apply read_field_other.
    apply Is_true_true in Hl. rewrite forallb_forall in Hl.
    apply Is_true_true, Hl. by apply list_elem_of_In.
  - constructor; [|done]. exact (Forall_inv (Hrest l Hh)).
Qed.

(** ** Map blocks *)

(** Reading the lines of entries, followed by a line that is no entry,
    gives the entries. *)
Lemma read_entries_lines kvs rest :
  Forall (λ kv, spaceless kv.1) kvs → no_entry rest →
  read_entries ((entry_line <$> kvs) ++ rest) = (kvs, rest).
Proof.
  intros Hkvs Hrest. induction Hkvs as [|[k v] kvs Hk _ IH]; cbn.
  - destruct rest as [|l rest]; [done|]. cbn. by rewrite (Hrest l eq_refl).
  - by rewrite read_entry_line, IH.
Qed.

Section Maps.
Context {host : Host}.

(** The first line of a map block followed by other lines is its header,
    or the first of the other lines. *)
Lemma head_map_lines header s m rest l :
  head (lines (map_rendering header s m) ++ rest) = Some l →
  l = header +:+ nl ∨ head rest = Some l.
Proof. destruct m; [intros [= <-]; by left|by right]. Qed.

(** Reading a map block gives the map, whatever the order of its lines. *)
Lemma opt_map_lines header s (m : option (gmap string string)) rest :
  (∀ x, m = Some x → map_Forall (λ k _, spaceless k) x) →
  no_entry rest → head rest ≠ Some (header +:+ nl) →
  opt_map header (lines (map_rendering header s m) ++ rest) = (m, rest).
Proof.
  intros Hm Hrest Hhead. destruct m as [x|]; cbn.
  - rewrite decide_True, read_entries_lines, list_to_map_range_order; try done.
    rewrite range_order_perm. apply Forall_forall. intros [k v] Hkv.
    apply elem_of_map_to_list in Hkv. exact (Hm x eq_refl k v Hkv).
  - destruct rest as [|l rest]; [done|]. cbn. rewrite decide_False; [done|].
    intros ->. by apply Hhead.
Qed.

End Maps.

(** ** The status *)

Lemma read_state_String s : read_state (PodSandBoxState_String s) = Some s.
Proof. by destruct s. Qed.

Lemma opt_read_fmap {A} (f : string → option A) (g : A → string) p :
  (∀ x, p = Some x → f (g x) = Some x) → opt_read f (g <$> p) = Some p.
Proof. intros Hp. destruct p as [x|]; [|done]. cbn. by rewrite (Hp x). Qed.

Section Status.
Context {host : Host}.

Lemma lines_metadata_fields md :
  lines (metadata_rendering md) =
  opt_line "Name" (md ≫= md_Name) ++ opt_line "UID" (md ≫= md_Uid) ++
  opt_line "Namespace" (md ≫= md_Namespace) ++
  opt_line "Attempt" (pretty <$> (md ≫= md_Attempt)).
Proof. destruct md as [x|]; [apply lines_metadata_rendering|done]. Qed.

Lemma lines_ropt_line {A} (p : option A) label (f : A → string) :
  lines (ropt p (λ a, rlines [field_line label (f a)])) =
  opt_line label (f <$> p).
Proof. by destruct p. Qed.

(** The lines of a complete status are the lines of its fields, then
    those of its maps. *)
Lemma status_lines s st :
  status_complete st →
  lines (status_rendering s st) =
  fields_lines (zip status_labels (status_values st)) ++
  lines (maps_rendering s (st_Labels st) (st_Annotations st)).
Proof.
  intros ([id Hid] & Hlx & Hnw). unfold status_rendering.
  rewrite lines_rseq by (by rewrite Hid).
  rewrite lines_rseq by apply stopped_metadata_rendering.
  rewrite !lines_rseq by apply stopped_ropt_rlines.
  rewrite lines_rseq by (by apply stopped_linux_rendering).
  rewrite lines_rseq by (by apply stopped_network_rendering).
  rewrite lines_metadata_fields, !lines_ropt_line, Hid.
  unfold status_values, status_labels. rewrite Hid.
  cbn [zip zip_with]. rewrite !fields_lines_cons. cbn [fields_lines mbind].
  rewrite <-!app_assoc. do 7 f_equal.
  destruct (st_Linux st) as [[[[[n|]]|]]|] eqn:Hl;
    destruct (st_Network st) as [[[ip|]]|] eqn:Hn; try done.
  all: try (by destruct (Hnw _ eq_refl) as [? [=]]).
  all: try (destruct (Hlx _ eq_refl) as (ns & [= <-] & [? [=]])).
  all: by destruct (Hlx _ eq_refl) as (ns & [=] & _).
Qed.

(** The first of the lines of the two maps carries no label of a field. *)
Lemma maps_unlabelled s labels annotations :
  unlabelled status_labels (lines (maps_rendering s labels annotations)).
Proof.
  rewrite lines_maps_rendering.
  rewrite <-(app_nil_r (lines (map_rendering "Annotations:" _ _))).
  intros l [->|[->|[=]]%head_map_lines]%head_map_lines; by_compute.
Qed.

(** A complete status carries its network and Linux blocks in full, so
    the two lines determine them. *)
Lemma complete_blocks st :
  status_complete st →
  mkNetwork ∘ Some <$> (st_Network st ≫= net_Ip) = st_Network st ∧
  mkLinux ∘ Some ∘ mkNamespace ∘ Some <$>
    ((st_Linux st ≫= lx_Namespaces) ≫= ns_Network) = st_Linux st.
Proof.
  intros (_ & Hlx & Hnw).
  destruct (st_Linux st) as [[[[[n|]]|]]|] eqn:Hl;
    destruct (st_Network st) as [[[ip|]]|] eqn:Hn; try done.
  all: try (by destruct (Hnw _ eq_refl) as [? [=]]).
  all: try (destruct (Hlx _ eq_refl) as (ns & [= <-] & [? [=]])).
  all: by destruct (Hlx _ eq_refl) as (ns & [=] & _).
Qed.

Lemma read_metadata_fields md :
  read_metadata (md ≫= md_Name) (md ≫= md_Uid) (md ≫= md_Namespace)
    (md ≫= md_Attempt) =
  md ≫= λ m, read_metadata (md_Name m) (md_Uid m) (md_Namespace m)
               (md_Attempt m).
Proof. by destruct md as [[]|]. Qed.

Section Reader.
Context (read_time : string → option Z).

(** Reading the rendering of a complete status gives the status. *)
Lemma read_status_rendering s st :
  status_complete st → spaceless_keys st → readable read_time st →
  read_status read_time (lines (status_rendering s st)) = Some (normal st).
Proof.
  intros Hc Hk Ht. unfold read_status.
  rewrite (status_lines s st Hc).
  rewrite opt_fields_lines; [|done|done|apply maps_unlabelled].
  cbn [status_values]. rewrite lines_maps_rendering.
  rewrite <-(app_nil_r (lines (map_rendering "Annotations:" _ _))).
  rewrite opt_map_lines; [|by intros x Hx; apply Hk; left|..].
  2: { intros l [->|[=]]%head_map_lines. by_compute. }
  2: { intros [Hl|[=]]%head_map_lines. by vm_compute in Hl. }
  rewrite opt_map_lines; [|by intros x Hx; apply Hk; right|by intros l [=]|done].
  rewrite !opt_read_fmap; [|intros; apply read_N_pretty
                           |intros; apply read_state_String|exact Ht].
  cbn [mbind option_bind]. rewrite decide_True by done.
  destruct (complete_blocks st Hc) as [-> ->].
  by rewrite read_metadata_fields.
Qed.

End Reader.
End Status.

(** ** The list *)

Lemma read_state_text_state s : read_state_text (state_text s) = Some s.
Proof. by destruct s as [[]|]. Qed.

Lemma read_entry_ID id : read_entry (field_line "ID" id) = None.
Proof.
  unfold read_entry, field_line. by rewrite <-!string_app_assoc, unline_line.
Qed.

Lemma starts_pod_unlabelled ls : starts_pod ls → unlabelled pod_labels ls.
Proof.
  intros Hls l [id ->]%Hls. apply Forall_forall. intros label Hin.
  apply read_field_other. revert label Hin. apply Forall_forall. by_compute.
Qed.

Lemma starts_pod_no_entry ls : starts_pod ls → no_entry ls.
Proof. intros Hls l [id ->]%Hls. apply read_entry_ID. Qed.

Lemma starts_pod_no_header ls header :
  differ header "ID" → starts_pod ls → head ls ≠ Some (header +:+ nl).
Proof.
  intros Hd Hls Hh. destruct (Hls _ Hh) as [id Hid].
  apply (f_equal (after_prefix header)) in Hid.
  rewrite after_prefix_app in Hid. unfold field_line in Hid.
  by rewrite after_prefix_differ in Hid.
Qed.

Section List.
Context {host : Host} (read_time : string → option Z).

Lemma stopped_pod_rendering s pod :
  pod_complete pod → stopped (pod_rendering s pod) = None.
Proof.
  intros [[id Hid] [t Ht]]. unfold pod_rendering.
  rewrite !stopped_rseq_None, Hid, Ht.
  repeat split; auto using stopped_metadata_rendering, stopped_maps_rendering.
Qed.

(** The lines of an entry: its identifier line, those of its fields,
    those of its maps. *)
Lemma pod_lines s pod id :
  pod_Id pod = Some id → is_Some (pod_CreatedAt pod) →
  lines (pod_rendering s pod) =
  field_line "ID" id ::
  fields_lines (zip pod_labels (pod_values pod)) ++
  lines (maps_rendering s (pod_Labels pod) (pod_Annotations pod)).
Proof.
  intros Hid [t Ht]. unfold pod_rendering. rewrite Hid, Ht.
  rewrite lines_rseq by done.
  rewrite lines_rseq by apply stopped_metadata_rendering.
  rewrite !lines_rseq by done.
  rewrite lines_metadata_fields. unfold pod_values, pod_labels. rewrite Ht.
  cbn [zip zip_with]. rewrite !fields_lines_cons. cbn [fields_lines mbind].
  by rewrite <-!app_assoc.
Qed.

(** The lines of the two maps followed by an entry: what their first line
    is not. *)
Lemma maps_then_pod s s' labels annotations rest :
  starts_pod rest →
  unlabelled pod_labels
    (lines (maps_rendering s labels annotations) ++ rest) ∧
  no_entry (lines (map_rendering "Annotations:" s' annotations) ++ rest) ∧
  head (lines (map_rendering "Annotations:" s' annotations) ++ rest)
    ≠ Some ("Labels:" +:+ nl).
Proof.
  intros Hrest. rewrite lines_maps_rendering, <-app_assoc. repeat split.
  - intros l [->|[->|Hl]%head_map_lines]%head_map_lines; [by_compute..|].
    by apply (starts_pod_unlabelled rest).
  - intros l [->|Hl]%head_map_lines; [by_compute|].
    by apply (starts_pod_no_entry rest).
  - intros [Hl|Hl]%head_map_lines; [by vm_compute in Hl|].
    by apply (starts_pod_no_header rest "Labels:").
Qed.

(** Reading the lines of an entry, followed by those of other entries,
    gives the entry and leaves the other lines. *)
Lemma read_pod_rendering s pod rest :
  pod_complete pod → pod_readable read_time pod → starts_pod rest →
  read_pod read_time (lines (pod_rendering s pod) ++ rest) =
  Some (normal_pod pod, rest).
Proof.
  intros [[id Hid] [t Ht]] [Hk Hr] Hrest.
  destruct (maps_then_pod s (s + nonnil (pod_Labels pod)) (pod_Labels pod)
              (pod_Annotations pod) rest Hrest)
    as (Hfields & Hentry & Hheader).
  rewrite (pod_lines s pod id) by eauto. cbn [app read_pod].
  rewrite read_field_line. cbn [mbind option_bind].
  rewrite <-app_assoc, opt_fields_lines by done.
  unfold pod_values. rewrite Ht, lines_maps_rendering, <-app_assoc.
  cbn [fmap option_fmap option_map].
  rewrite opt_map_lines; [|by intros x Hx; apply Hk; left|done..].
  rewrite opt_map_lines;
    [|by intros x Hx; apply Hk; right|by apply starts_pod_no_entry
     |by apply starts_pod_no_header].
  rewrite opt_read_fmap by (intros; apply read_N_pretty).
  cbn [mbind option_bind]. rewrite read_state_text_state, (Hr t Ht).
  cbn [mbind option_bind]. unfold normal_pod.
  by rewrite read_metadata_fields, Hid, Ht.
Qed.

(** The lines of a full listing start with an identifier line. *)
Lemma items_start_pod s pods :
  Forall pod_complete pods →
  starts_pod (lines (items_rendering false s (Some <$> pods))).
Proof.
  intros Hc. destruct Hc as [|pod pods' [[id Hid] Ht] _]; [by intros l|].
  intros l.
  cbn [fmap list_fmap items_rendering item_rendering rderef].
  rewrite lines_rseq by (by apply stopped_pod_rendering).
  rewrite (pod_lines s pod id) by done. intros [= <-]. by exists id.
Qed.

(** Reading a full listing gives its entries, with one unit of fuel per
    entry. *)
Lemma read_pods_rendering fuel s pods :
  Forall pod_complete pods → Forall (pod_readable read_time) pods →
  length pods ≤ fuel →
  read_pods read_time fuel (lines (items_rendering false s (Some <$> pods)))
  = Some (normal_pod <$> pods).
Proof.
  intros Hc. revert fuel s.
  induction Hc as [|pod pods Hpod Hpods IH]; intros fuel s Hr Hfuel;
    [by destruct fuel|].
  destruct fuel as [|fuel]; [simpl in Hfuel; lia|].
  cbn [fmap list_fmap items_rendering item_rendering rderef].
  rewrite lines_rseq by (by apply stopped_pod_rendering).
  pose proof Hpod as [[id Hid] Ht].
  assert (∃ l ls, lines (pod_rendering s pod) = l :: ls) as (l & ls & Hl)
    by (rewrite (pod_lines s pod id) by done; eauto).
  pose proof (read_pod_rendering s pod
    (lines (items_rendering false (s + ranges (pod_rendering s pod))
              (Some <$> pods)))
    Hpod (Forall_inv Hr) (items_start_pod _ pods Hpods)) as Hread.
  rewrite Hl in *. cbn [app] in Hread |- *. cbn [read_pods]. rewrite Hread.
  cbn [mbind option_bind].
  rewrite IH; [done|exact (Forall_inv_tail Hr)|simpl in Hfuel; lia].
Qed.

End List.

(** ** The stream of bytes *)

Lemma one_line_field label v :
  lineless label → lineless v → one_line (field_line label v).
Proof.
  intros Hl Hv. exists (label +:+ ": " +:+ v). unfold field_line.
  split; [by rewrite !string_app_assoc|].
  rewrite !lineless_app. by repeat (apply andb_prop_intro; split).
Qed.

Lemma one_line_entry k v :
  lineless k → lineless v → one_line (entry_line (k, v)).
Proof.
  intros Hk Hv. exists (tab +:+ k +:+ " -> " +:+ v). unfold entry_line.
  split; [by rewrite !string_app_assoc|].
  rewrite !lineless_app. by repeat (apply andb_prop_intro; split).
Qed.

Lemma fields_lines_one_line labels vs :
  Forall (λ l, lineless l) labels →
  Forall (λ v : option string, from_option lineless true v) vs →
  Forall one_line (fields_lines (zip labels vs)).
Proof.
  intros Hl. revert vs. induction Hl as [|label labels Hlabel _ IH];
    intros vs Hvs; [constructor|].
  destruct Hvs as [|v vs Hv Hvs]; [constructor|].
  cbn [zip zip_with]. rewrite fields_lines_cons. apply Forall_app. split.
  - destruct v as [v|]; repeat constructor. by apply one_line_field.
  - by apply IH.
Qed.

Section Bytes.
Context {host : Host}.

Lemma map_lines_one_line header s (m : option (gmap string string)) :
  lineless header →
  (∀ x, m = Some x → map_Forall (λ k v, lineless k && lineless v) x) →
  Forall one_line (lines (map_rendering header s m)).
Proof.
  intros Hh Hm. destruct m as [x|]; [|constructor]. cbn. constructor.
  { by exists header. }
  apply Forall_fmap, Forall_forall. intros [k v] Hkv.
  rewrite range_order_perm in Hkv. apply elem_of_map_to_list in Hkv.
  destruct (andb_prop_elim _ _ (Hm x eq_refl k v Hkv)).
  by apply one_line_entry.
Qed.

(** Every line of a complete status without line feed in its free text
    is one line. *)
Lemma status_lines_one_line s st :
  status_complete st → status_lineless st →
  Forall one_line (lines (status_rendering s st)).
Proof.
  intros Hc (Hv & Ht & Hm). rewrite (status_lines s st Hc).
  rewrite lines_maps_rendering.
  apply Forall_app; split; [|apply Forall_app; split].
  - apply fields_lines_one_line; [by_compute|].
    unfold status_values. rewrite !Forall_cons in Hv.
    destruct Hv as (? & ? & ? & ? & ? & ? & _).
    repeat (apply Forall_cons; split); [..|constructor]; try done.
    + destruct (st_Metadata st ≫= md_Attempt); [apply lineless_pretty_N|done].
    + by destruct (st_State st) as [[]|].
    + destruct (st_CreatedAt st) as [t|] eqn:E; [by apply Ht|done].
  - apply map_lines_one_line; [done|]. intros x Hx. apply Hm. by left.
  - apply map_lines_one_line; [done|]. intros x Hx. apply Hm. by right.
Qed.

Lemma pod_lines_one_line s pod :
  pod_complete pod → pod_lineless pod →
  Forall one_line (lines (pod_rendering s pod)).
Proof.
  intros [[id Hid] Hc] (Hv & Ht & Hm). rewrite (pod_lines s pod id) by done.
  rewrite !Forall_cons, Hid in Hv. destruct Hv as (? & ? & ? & ? & _).
  rewrite lines_maps_rendering. constructor; [by apply one_line_field|].
  apply Forall_app; split; [|apply Forall_app; split].
  - apply fields_lines_one_line; [by_compute|]. unfold pod_values.
    repeat (apply Forall_cons; split); [..|constructor]; try done.
    + destruct (pod_Metadata pod ≫= md_Attempt);
        [apply lineless_pretty_N|done].
    + by destruct (pod_State pod) as [[]|].
    + destruct (pod_CreatedAt pod) as [t|] eqn:E; [by apply Ht|done].
  - apply map_lines_one_line; [done|]. intros x Hx. apply Hm. by left.
  - apply map_lines_one_line; [done|]. intros x Hx. apply Hm. by right.
Qed.

Lemma items_lines_one_line s pods :
  Forall pod_complete pods → Forall pod_lineless pods →
  Forall one_line (lines (items_rendering false s (Some <$> pods))).
Proof.
  intros Hc. revert s. induction Hc as [|pod pods Hpod _ IH]; intros s Hl;
    [constructor|].
  cbn [fmap list_fmap items_rendering item_rendering rderef].
  rewrite lines_rseq by (by apply stopped_pod_rendering).
  apply Forall_app. split; [apply pod_lines_one_line; [done|]|apply IH].
  - exact (Forall_inv Hl).
  - exact (Forall_inv_tail Hl).
Qed.

End Bytes.

(** ** The commands *)

(** The reader of the quiet listing: the bytes are cut into lines and each
    line loses the line feed that ends it. *)
Definition read_ids (bytes : string) : option (list string) :=
  mapM unline (split_lines bytes).

Lemma read_ids_text ls ids :
  Forall one_line ls → unline <$> ls = Some <$> ids →
  read_ids (text ls) = Some ids.
Proof.
  intros Hls Hids. unfold read_ids. rewrite split_lines_text by done.
  apply mapM_Some. revert ids Hids.
  induction ls as [|l ls IH]; intros [|id ids] [=];
    constructor; eauto using Forall_inv_tail.
Qed.

Section Commands.
Context {St : Type} {host : Host} {client : RuntimeServiceClient St}.
Context (read_time : string → option Z).

(** The text of a complete status determines it: two statuses that print
    the same lines are the same up to an empty metadata block. *)
Lemma status_text_determines s1 s2 st1 st2 :
  status_complete st1 → spaceless_keys st1 → readable read_time st1 →
  status_complete st2 → spaceless_keys st2 → readable read_time st2 →
  lines (status_rendering s1 st1) = lines (status_rendering s2 st2) →
  normal st1 = normal st2.
Proof.
  intros Hc1 Hk1 Ht1 Hc2 Hk2 Ht2 Hl.
  pose proof (read_status_rendering read_time s1 st1 Hc1 Hk1 Ht1) as H1.
  pose proof (read_status_rendering read_time s2 st2 Hc2 Hk2 Ht2) as H2.
  congruence.
Qed.

(** Two runs of the status command read the same: the order in which the
    host ranges over the maps changes the lines, not what they denote. *)
Corollary runs_read_the_same s1 s2 st :
  status_complete st → spaceless_keys st → readable read_time st →
  read_status read_time (lines (status_rendering s1 st)) =
  read_status read_time (lines (status_rendering s2 st)).
Proof. intros. by rewrite !read_status_rendering. Qed.

(** A full listing has at least one line per entry. *)
Lemma length_items_lines s pods :
  Forall pod_complete pods →
  length pods ≤ length (lines (items_rendering false s (Some <$> pods))).
Proof.
  intros Hc. revert s.
  induction Hc as [|pod pods [[id Hid] Ht] Hpods IH]; intros s; [done|].
  cbn [fmap list_fmap items_rendering item_rendering rderef].
  rewrite lines_rseq by (by apply stopped_pod_rendering).
  rewrite (pod_lines s pod id), length_app by done. cbn [length].
  specialize (IH (s + ranges (pod_rendering s pod))). lia.
Qed.

(** C31: round trip of the status command.  When the service answers with
    a complete status, the lines PodSandboxStatus writes read back as that
    status, whatever the order in which the host ranges over the maps:
    every field, the two maps and the creation time are recovered, and the
    only thing the text does not show is a metadata block with no field
    set.  The keys of the maps hold no space and the creation time is one
    the reader of the machine reads back.  When the free text of the status
    holds no line feed, the lines are recovered from the bytes written by
    cutting them after each line feed. *)
Theorem status_reads_back ID r s' st w :
  ID ≠ "" →
  client_PodSandboxStatus (mkStatusReq (Some ID)) (svc w) = (Success r, s') →
  status_Status r = Some st →
  status_complete st → spaceless_keys st → readable read_time st →
  ∃ ls, stdout (PodSandboxStatus ID w).2 = stdout w ++ ls ∧
        read_status read_time ls = Some (normal st) ∧
        (status_lineless st → split_lines (text ls) = ls).
Proof.
  intros HID Hrpc Hst Hc Hk Ht. rewrite run_PodSandboxStatus, Hrpc by done.
  cbv zeta. rewrite Hst. cbn [rderef].
  rewrite stdout_run_rendering, stdout_after_call.
  eexists. split; [done|]. split; [by apply read_status_rendering|].
  intros Hl. by apply split_lines_text, status_lines_one_line.
Qed.

(** C32: round trip of the list command.  When the service answers with
    entries that all carry an identifier and a creation time, the lines
    the full listing writes read back as the entries, in order, with any
    fuel that is at least the number of lines written; and the lines are
    recovered from the bytes written when the free text of the entries
    holds no line feed.  As for the status, the keys of the maps hold no
    space and the creation times are ones the reader of the machine reads
    back. *)
Theorem listing_reads_back r s' pods w :
  client_ListPodSandbox (mkListReq None) (svc w) = (Success r, s') →
  list_Items r = Some <$> pods →
  Forall pod_complete pods → Forall (pod_readable read_time) pods →
  ∃ ls, stdout (ListPodSandboxes false w).2 = stdout w ++ ls ∧
        (∀ fuel, length ls ≤ fuel →
                 read_pods read_time fuel ls = Some (normal_pod <$> pods)) ∧
        (Forall pod_lineless pods → split_lines (text ls) = ls).
Proof.
  intros Hrpc Hitems Hc Hr. rewrite run_ListPodSandboxes, Hrpc.
  cbv zeta. rewrite Hitems, stdout_run_rendering, stdout_after_call.
  eexists. split; [done|]. split.
  - intros fuel Hfuel. apply read_pods_rendering; [done..|].
    etrans; [by apply (length_items_lines (seed w))|done].
  - intros Hl. by apply split_lines_text, items_lines_one_line.
Qed.

(** C33: round trip of the quiet listing.  When every entry of the answer
    carries its identifier, the lines the quiet listing writes read back as
    the identifiers, in the order of the answer, by removing the line feed
    that ends each line; and the reader of the quiet listing recovers the
    identifiers from the bytes written when no identifier holds a line
    feed.  What the quiet listing prints is what stop, remove and status
    take. *)
Theorem quiet_listing_reads_back r s' pods ids w :
  client_ListPodSandbox (mkListReq None) (svc w) = (Success r, s') →
  list_Items r = Some <$> pods → pod_Id <$> pods = Some <$> ids →
  ∃ ls, stdout (ListPodSandboxes true w).2 = stdout w ++ ls ∧
        unline <$> ls = Some <$> ids ∧
        (Forall lineless ids → read_ids (text ls) = Some ids).
Proof.
  intros Hrpc Hitems Hids. rewrite run_ListPodSandboxes, Hrpc.
  cbv zeta. rewrite Hitems, stdout_run_rendering, stdout_after_call.
  pose proof (quiet_listing_roundtrip (seed w) pods ids Hids) as Hrt.
  eexists. split; [done|]. split; [done|].
  intros Hl. apply read_ids_text; [|done].
  rewrite (items_rendering_quiet _ pods ids Hids). simpl.
  apply Forall_fmap. eapply Forall_impl; [exact Hl|].
  intros id Hid. by exists id.
Qed.

End Commands.

(** ** The creation time in the zone of the machine *)

Section Local.
Context {St : Type} {host : Host} {client : RuntimeServiceClient St}.
Context (l : location).

(** The machine shows a time as [Time.String] does in the zone [l]. *)
Definition in_zone : Prop := ∀ t, time_String t = local_String l t.

(** The Created line of a complete status is among the lines printed. *)
Lemma created_line_printed s st t :
  status_complete st → st_CreatedAt st = Some t →
  field_line "Created" (time_String t) ∈ lines (status_rendering s st).
Proof.
  intros Hc Ht. rewrite status_lines by done. apply elem_of_app. left.
  apply list_elem_of_bind. exists ("Created", Some (time_String t)).
  split; [by apply list_elem_of_singleton|].
  unfold status_values, status_labels. rewrite Ht. cbn [zip zip_with fmap].
  do 6 right. left.
Qed.

(** C39: round trip of the status on a machine in any zone.  On every
    host that shows times in a zone that changes its offset at given
    instants (daylight saving time),
    the offsets being numbers of minutes, the status command prints the
    creation time of a complete status as the local date and time of day
    with the offset in force, and the lines it writes read back as the
    status that was sent, creation time included: the offset printed tells
    the two instants of a repeated hour apart.  The keys of the maps hold no
    space and the local year of the creation time has four digits. *)
Theorem status_reads_back_local ID r s' st (w : World St) :
  in_zone → Forall whole_minutes (first_zone l :: (transitions l).*2) →
  ID ≠ "" →
  client_PodSandboxStatus (mkStatusReq (Some ID)) (svc w) = (Success r, s') →
  status_Status r = Some st →
  status_complete st → spaceless_keys st →
  (∀ t, st_CreatedAt st = Some t →
        (-62167219200 ≤ t + offset (zone_at l t) ≤ 253402300799)%Z) →
  ∃ ls, stdout (PodSandboxStatus ID w).2 = stdout w ++ ls ∧
        (∀ t, st_CreatedAt st = Some t →
              field_line "Created" (local_String l t) ∈ ls) ∧
        read_status read_zoned ls = Some (normal st).
Proof.
  intros Hz Hl HID Hrpc Hst Hc Hk Ht.
  rewrite run_PodSandboxStatus, Hrpc by done.
  cbv zeta. rewrite Hst. cbn [rderef].
  rewrite stdout_run_rendering, stdout_after_call.
  eexists. split; [done|]. split.
  - intros t Hcreated. rewrite <-Hz. by apply created_line_printed.
  - apply read_status_rendering; [done..|].
    intros t Hcreated. rewrite Hz. apply local_String_reads_back; auto.
Qed.

End Local.

(** ** The theorems at concrete inputs *)

(** The status of the sandbox s1 of the sample table, printed on a machine
    in UTC, reads back as it was sent. *)
Lemma status_reads_back_witness :
  ∃ ls,
    stdout (PodSandboxStatus (host:=utc_host) "s1" (start sample_table)).2 =
      stdout (start sample_table) ++ ls ∧
    read_status read_utc ls = Some (normal full_status) ∧
    (status_lineless (host:=utc_host) full_status →
     split_lines (text ls) = ls).
Proof.
  apply (status_reads_back (host:=utc_host) read_utc "s1"
           (mkStatusResp (Some full_status)) sample_table full_status
           (start sample_table)); [done|reflexivity|reflexivity|..].
  - split; [by eexists|]. split; intros ? [= <-]; eauto.
  - intros m [[= <-]|[= <-]]; by_compute.
  - intros t [= <-]. by vm_compute.
Defined.

(** The full listing of the sample table, printed on a machine in UTC,
    reads back as its two entries. *)
Lemma listing_reads_back_witness :
  ∃ ls,
    stdout (ListPodSandboxes (host:=utc_host) false (start sample_table)).2 =
      stdout (start sample_table) ++ ls ∧
    (∀ fuel, length ls ≤ fuel →
             read_pods read_utc fuel ls =
             Some (normal_pod <$> [summary full_status; summary stopped_status])) ∧
    (Forall (pod_lineless (host:=utc_host))
       [summary full_status; summary stopped_status] →
     split_lines (text ls) = ls).
Proof.
  apply (listing_reads_back (host:=utc_host) read_utc
           (mkListResp [Some (summary full_status);
                        Some (summary stopped_status)])
           sample_table [summary full_status; summary stopped_status]
           (start sample_table)); [by vm_compute|reflexivity|..].
  - repeat constructor; by eexists.
  - apply Forall_forall. intros pod Hpod.
    repeat (apply elem_of_cons in Hpod as [->|Hpod]);
      [..|by apply elem_of_nil in Hpod];
      (split; [intros m [H|H];
                 (discriminate H || (injection H as <-; by_compute))
              |intros t [= <-]; by vm_compute]).
Defined.

(** The text of a status and what it denotes, by computation: the entries
    of a map may come in any order, and a line that is no field of a
    status is refused. *)
Example read_status_examples :
  read_status read_utc
    ["ID: s1" +:+ nl; "Status: READY" +:+ nl;
     "Created: 1970-01-01 00:00:00 +0000 UTC" +:+ nl;
     "Labels:" +:+ nl; tab +:+ "zone -> a" +:+ nl; tab +:+ "app -> web" +:+ nl]
  = Some (mkStatus (Some "s1") None (Some READY) (Some 0%Z) None None
            (Some {["app" := "web"; "zone" := "a"]}) None) ∧
  read_status read_utc ["ID: s1" +:+ nl; "Color: red" +:+ nl] = None.
Proof. split; by vm_compute. Qed.

(** Without the condition on line feeds the bytes are ambiguous: a name
    that holds a line feed prints as a name line followed by a line that
    reads as another field. *)
Example line_feed_forges_a_field :
  split_lines (text [field_line "Name" ("a" +:+ nl +:+ "UID: root")]) =
  [field_line "Name" "a"; field_line "UID" "root"].
Proof. by vm_compute. Qed.

Lemma quiet_listing_reads_back_witness :
  ∃ ls,
    stdout (ListPodSandboxes (host:=sample_host) true
              (start sample_table)).2 =
      stdout (start sample_table) ++ ls ∧
    unline <$> ls = Some <$> ["s1"; "s2"] ∧
    (Forall lineless ["s1"; "s2"] → read_ids (text ls) = Some ["s1"; "s2"]).
Proof.
  apply (quiet_listing_reads_back (host:=sample_host)
           (mkListResp [Some (summary full_status);
                        Some (summary stopped_status)])
           sample_table [summary full_status; summary stopped_status]);
    [vm_compute; reflexivity|reflexivity|reflexivity].
Defined.

Lemma status_reads_back_local_witness :
  let st := mkStatus (Some "s3") None (Some READY) (Some 1477791000%Z)
              None None None None in
  let w := start (mkTable {["s3" := st]} 0) in
  ∃ ls, stdout (PodSandboxStatus (host:=local_host sample_location) "s3" w).2 =
          stdout w ++ ls ∧
        (∀ t, st_CreatedAt st = Some t →
              field_line "Created" (local_String sample_location t) ∈ ls) ∧
        read_status read_zoned ls = Some (normal st).
Proof.
  intros st w.
  apply (status_reads_back_local (host:=local_host sample_location)
           sample_location "s3"
           (mkStatusResp (Some st)) (mkTable {["s3" := st]} 0) st w);
    [done|by_compute|done|vm_compute; reflexivity|reflexivity| |
     by intros m [[=]|[=]]|].
  - split; [by eexists|]. split; intros ? [=].
  - intros t [= <-]. vm_compute. split; discriminate.
Defined.

(** A sandbox created in the hour that the end of summer time repeats,
    printed on a machine in that zone: the status reads back with the
    instant of the creation. *)
Example status_reads_back_in_zone :
  let st := mkStatus (Some "s3") None (Some READY) (Some 1477791000%Z)
              None None None None in
  let w := start (mkTable {["s3" := st]} 0) in
  stdout (PodSandboxStatus (host:=local_host sample_location) "s3" w).2 =
    ["ID: s3" +:+ nl; "Status: READY" +:+ nl;
     "Created: 2016-10-30 02:30:00 +0100 CET" +:+ nl] ∧
  read_status read_zoned
    (stdout (PodSandboxStatus (host:=local_host sample_location) "s3" w).2) =
    Some st.
Proof. by vm_compute. Qed.
