(* ===== verification/Commands.v ===== *)
(** * Commands: the [pod] command group

    The command table of cmd/client/sandbox.go: the group [pod] and its five
    subcommands, each with its flags and its [Action] closure.  Every
    closure has the same shape: open a connection, defer its closing, call
    the lifecycle function with the values of the flags, and wrap the error
    it returns with a prefix of the command.  The types [Flag], [Context]
    and [Command] are those of the command-line framework, reduced to what
    the table uses.  The theorems on connections are stated with the
    automaton of [Protocol], for one run of a subcommand and, by induction
    on [reaches], for every sequence of runs.  The last part reads the
    group against [Pipeline]: the group is the pipeline, its errors are
    the failures of the taxonomy, and its panics are the answers that are
    not printable. *)

From S2P Require Import Prelude GoRuntime Proto World Protocol Stubs.
From S2P Require Import Render Pipeline Sandbox.

(** ** The command-line framework *)

Module cli.

(** A flag: its name, its default value (for a string flag) and its usage
    text. *)
Inductive Flag : Type :=
| StringFlag (Name Value Usage : string)
| BoolFlag (Name Usage : string).

(** What an action receives: the flags of its command, and the values set
    on the command line. *)
Record Context : Type := mkContext {
  ctx_flags : list Flag;
  ctx_strings : gmap string string;
  ctx_bools : gmap string bool;
}.

(** The default of the string flag [name], or the empty string. *)
Fixpoint default_string (name : string) (flags : list Flag) : string :=
  match flags with
  | [] => ""
  | StringFlag n v _ :: flags' =>
      if decide (n = name) then v else default_string name flags'
  | BoolFlag _ _ :: flags' => default_string name flags'
  end.

(** [context.String(name)]: the value set on the command line, or the
    default of the flag. *)
Definition String (context : Context) (name : string) : string :=
  default (default_string name (ctx_flags context))
    (ctx_strings context !! name).

(** [context.Bool(name)]: false unless set. *)
Definition Bool (context : Context) (name : string) : bool :=
  default false (ctx_bools context !! name).

(** A command: a name, a usage text, flags, subcommands and an action. *)
#[warnings="-register-all"]
Inductive Command (W : Type) : Type := mkCommand {
  Name : string;
  Usage : string;
  Flags : list Flag;
  Subcommands : list (Command W);
  Action : option (Context → Go W ());
}.
Arguments mkCommand {W} Name Usage Flags Subcommands Action.
Arguments Name {W} c.
Arguments Usage {W} c.
Arguments Flags {W} c.
Arguments Subcommands {W} c.
Arguments Action {W} c.

(** The subcommand of [cmd] called [name]. *)
Definition find_subcommand {W} (cmd : Command W) (name : string) :
    option (Command W) :=
  snd <$> list_find (λ c, Name c = name) (Subcommands cmd).

(** The run of the subcommand [name] of [cmd] with the given values of the
    flags; [None] if there is no such subcommand or it has no action. *)
Definition run_subcommand {W} (cmd : Command W) (name : string)
    (strings : gmap string string) (bools : gmap string bool) :
    option (Go W ()) :=
  sub ← find_subcommand cmd name;
  act ← Action sub;
  Some (act (mkContext (Flags sub) strings bools)).

End cli.

Section Commands.
Context {St : Type} {host : Host} {client : RuntimeServiceClient St}.
Implicit Types (w : World St) (context : cli.Context).

(** ** The shape the five actions share *)

Definition with_connection (prefix : string) (body : Go (World St) ()) :
    Go (World St) () :=
  wrap_err (λ err, "failed to connect: " +:+ err) getClientConnection ;;
  defer conn_Close (wrap_err (λ err, prefix +:+ err) body).

(** ** create *)

Definition runPodSandboxFlags : list cli.Flag :=
  [cli.StringFlag "config" "config.json"
     "the path of a pod sandbox config file";
   cli.StringFlag "name" "" "the name of the pod sandbox"].

Definition runPodSandboxAction (context : cli.Context) : Go (World St) () :=
  wrap_err (λ err, "failed to connect: " +:+ err) getClientConnection ;;
  defer conn_Close
    (wrap_err (λ err, "Creating the pod sandbox failed: " +:+ err)
       (RunPodSandbox (cli.String context "config")
          (cli.String context "name"))).

Definition runPodSandboxCommand : cli.Command (World St) :=
  cli.mkCommand "create" "create a pod" runPodSandboxFlags []
    (Some runPodSandboxAction).

(** ** stop *)

Definition stopPodSandboxFlags : list cli.Flag :=
  [cli.StringFlag "id" "" "id of the pod sandbox"].

Definition stopPodSandboxAction (context : cli.Context) : Go (World St) () :=
  wrap_err (λ err, "failed to connect: " +:+ err) getClientConnection ;;
  defer conn_Close
    (wrap_err (λ err, "stopping the pod sandbox failed: " +:+ err)
       (StopPodSandbox (cli.String context "id"))).

Definition stopPodSandboxCommand : cli.Command (World St) :=
  cli.mkCommand "stop" "stop a pod sandbox" stopPodSandboxFlags []
    (Some stopPodSandboxAction).

(** ** remove *)

Definition removePodSandboxFlags : list cli.Flag :=
  [cli.StringFlag "id" "" "id of the pod sandbox"].

Definition removePodSandboxAction (context : cli.Context) :
    Go (World St) () :=
  wrap_err (λ err, "failed to connect: " +:+ err) getClientConnection ;;
  defer conn_Close
    (wrap_err (λ err, "removing the pod sandbox failed: " +:+ err)
       (RemovePodSandbox (cli.String context "id"))).

Definition removePodSandboxCommand : cli.Command (World St) :=
  cli.mkCommand "remove" "remove a pod sandbox" removePodSandboxFlags []
    (Some removePodSandboxAction).

(** ** status *)

Definition podSandboxStatusFlags : list cli.Flag :=
  [cli.StringFlag "id" "" "id of the pod"].

Definition podSandboxStatusAction (context : cli.Context) :
    Go (World St) () :=
  wrap_err (λ err, "failed to connect: " +:+ err) getClientConnection ;;
  defer conn_Close
    (wrap_err (λ err, "getting the pod sandbox status failed: " +:+ err)
       (PodSandboxStatus (cli.String context "id"))).

Definition podSandboxStatusCommand : cli.Command (World St) :=
  cli.mkCommand "status" "return the status of a pod" podSandboxStatusFlags
    [] (Some podSandboxStatusAction).

(** ** list *)

Definition listPodSandboxFlags : list cli.Flag :=
  [cli.BoolFlag "quiet" "list only pod IDs"].

Definition listPodSandboxAction (context : cli.Context) : Go (World St) () :=
  wrap_err (λ err, "failed to connect: " +:+ err) getClientConnection ;;
  defer conn_Close
    (wrap_err (λ err, "listing pod sandboxes failed: " +:+ err)
       (ListPodSandboxes (cli.Bool context "quiet"))).

Definition listPodSandboxCommand : cli.Command (World St) :=
  cli.mkCommand "list" "list pod sandboxes" listPodSandboxFlags []
    (Some listPodSandboxAction).

(** ** The group *)

Definition podSandboxCommand : cli.Command (World St) :=
  cli.mkCommand "pod" "" []
    [runPodSandboxCommand; stopPodSandboxCommand; removePodSandboxCommand;
     podSandboxStatusCommand; listPodSandboxCommand]
    None.

(** The context of [pod stop --id s1]. *)
Definition stop_s1 : cli.Context :=
  cli.mkContext stopPodSandboxFlags {["id" := "s1"]} ∅.

(** ** Sequences of invocations

    The client is run once per command; a script runs it several times on
    the same machine, against the same service.  An invocation names a
    subcommand and gives the values of its flags.  The exit of a process,
    by a return, an error or a panic, does not stop the next one; a name
    that is no subcommand of the group runs none of the actions. *)
Record invocation : Type := mkInvocation {
  inv_name : string;
  inv_strings : gmap string string;
  inv_bools : gmap string bool;
}.

Definition invoke (i : invocation) (w : World St) : World St :=
  from_option (λ m : Go (World St) (), (m w).2) w
    (cli.run_subcommand podSandboxCommand
       (inv_name i) (inv_strings i) (inv_bools i)).

Definition script (l : list invocation) (w : World St) : World St :=
  foldl (λ w i, invoke i w) w l.

(** [reaches w0 n w]: [n] runs of subcommands lead from [w0] to [w]. *)
Inductive reaches (w0 : World St) : nat → World St → Prop :=
| reaches_refl : reaches w0 0 w0
| reaches_invoke n w name strings bools m :
    reaches w0 n w →
    cli.run_subcommand podSandboxCommand name strings bools = Some m →
    reaches w0 (S n) (m w).2.

(** ** The common shape *)

Lemma run_with_connection prefix body w :
  with_connection prefix body w =
  match dial_error with
  | Some e => (Err ("failed to connect: " +:+ e), record (EvDialFailed e) w)
  | None =>
      (map_err (λ err, prefix +:+ err) (body (record EvDial w)).1,
       record EvClose (body (record EvDial w)).2)
  end.
Proof.
  unfold with_connection, getClientConnection, conn_Close, log.
  rewrite run_bind, run_wrap_err. destruct dial_error as [e|]; [done|].
  cbn [fst snd map_err modify]. by rewrite run_defer_modify, run_wrap_err.
Qed.

(** A command whose body only appends inner events keeps the world
    quiescent, whatever the outcome of the dial and of the body. *)
Lemma with_connection_quiescent prefix body w :
  appends_inner body → quiescent w →
  quiescent (with_connection prefix body w).2.
Proof.
  rewrite !quiescent_run. intros Hbody Hw. rewrite run_with_connection.
  destruct dial_error as [e|]; cbn [snd]; rewrite trace_record.
  { by rewrite conn_run_app, Hw. }
  destruct (Hbody (record EvDial w)) as (evs & -> & Hevs & _).
  rewrite trace_record, <-app_assoc. by apply conn_run_session.
Qed.

(** A command answers the dial it makes, whatever its outcome. *)
Lemma with_connection_answered prefix body w :
  appends_inner body → answered (trace w) →
  answered (trace (with_connection prefix body w).2).
Proof.
  intros Hbody Hw. rewrite run_with_connection.
  destruct dial_error as [e|]; cbn [snd]; rewrite trace_record.
  { apply answered_app; [done|]. by intros [|i]. }
  destruct (Hbody (record EvDial w)) as (evs & -> & Hevs & _).
  rewrite trace_record, <-!app_assoc.
  apply answered_app; [done|]. by apply answered_session.
Qed.

(** A command issues at most one remote call. *)
Lemma with_connection_calls prefix body w :
  appends_inner body →
  length (calls (trace (with_connection prefix body w).2)) ≤
  S (length (calls (trace w))).
Proof.
  intros Hbody. rewrite run_with_connection.
  destruct dial_error as [e|]; cbn [snd]; rewrite trace_record.
  { rewrite calls_app, length_app. simpl. lia. }
  pose proof (appends_inner_calls body (record EvDial w) Hbody) as H.
  rewrite trace_record, calls_app, length_app in H.
  rewrite calls_app, length_app. simpl in *. lia.
Qed.

(** A command whose body returns after writing lines returns, with the
    connection closed after the lines. *)
Lemma with_connection_writes prefix body ls w1 w :
  dial_error = None →
  body (record EvDial w) = (Ret (), emit ls w1) →
  with_connection prefix body w = (Ret (), record EvClose (emit ls w1)).
Proof. intros Hd Hb. by rewrite run_with_connection, Hd, Hb. Qed.

(** A command that reaches the service is one session: a dial, the inner
    events of its body, a close. *)
Lemma with_connection_session prefix body w :
  dial_error = None → appends_inner body →
  ∃ evs, trace (with_connection prefix body w).2 =
           trace w ++ EvDial :: evs ++ [EvClose] ∧
         Forall inner evs ∧ length (calls evs) ≤ 1.
Proof.
  intros Hd Hbody. rewrite run_with_connection, Hd. cbn [snd].
  destruct (Hbody (record EvDial w)) as (evs & Ht & Hevs & Hcalls).
  exists evs. by rewrite trace_record, Ht, trace_record, <-!app_assoc.
Qed.

(** A command whose body makes one call and then has the effects of a
    rendering: its outcome is the one of the rendering, and its trace is
    the dial, the call, the lines of the rendering and the close. *)
Lemma with_connection_rendering prefix body rq s' R w :
  dial_error = None →
  body (record EvDial w) =
    run_rendering R (after_call rq s' (record EvDial w)) →
  (with_connection prefix body w).1 =
    match stopped R with None => Ret () | Some p => Panic p end ∧
  trace (with_connection prefix body w).2 =
    trace w ++ [EvDial; EvCall rq] ++ (EvWrite <$> lines R) ++ [EvClose] ∧
  svc (with_connection prefix body w).2 = s'.
Proof.
  intros Hd Hbody. rewrite run_with_connection, Hd, Hbody.
  split; [by cbn [fst run_rendering]; destruct (stopped R)|].
  split; [|done]. cbn [snd]. rewrite trace_record, trace_run_rendering.
  by autorewrite with go.
Qed.

(** Every subcommand of the group has the common shape, around a body
    that only appends inner events. *)
Lemma run_subcommand_shape name strings bools m :
  cli.run_subcommand podSandboxCommand name strings bools = Some m →
  ∃ prefix body, appends_inner body ∧ m = with_connection prefix body.
Proof.
  unfold cli.run_subcommand, cli.find_subcommand. simpl.
  repeat case_decide; simpl; intros [= <-]; eexists _, _;
    (split; [|reflexivity]);
    auto using RunPodSandbox_appends_inner, StopPodSandbox_appends_inner,
      RemovePodSandbox_appends_inner, PodSandboxStatus_appends_inner,
      ListPodSandboxes_appends_inner.
Qed.

(** ** Properties of the commands *)

(** C4: the status and list commands, end to end.  When the service can
    be reached and answers, what the command adds to the trace is the dial,
    the call, one write per line of the rendering of the answer, in order,
    and the close; the command returns nil, or panics where the rendering
    does, and the service is left in the state the call produced. *)
Theorem commands_print_renderings context w :
  dial_error = None →
  (∀ r s',
     cli.String context "id" ≠ "" →
     client_PodSandboxStatus
       (mkStatusReq (Some (cli.String context "id"))) (svc w)
       = (Success r, s') →
     let R := rderef (status_Status r) (status_rendering (seed w)) in
     let rq := ReqStatus (mkStatusReq (Some (cli.String context "id"))) in
     (podSandboxStatusAction context w).1 =
       match stopped R with None => Ret () | Some p => Panic p end ∧
     trace (podSandboxStatusAction context w).2 =
       trace w ++ [EvDial; EvCall rq] ++ (EvWrite <$> lines R) ++ [EvClose] ∧
     svc (podSandboxStatusAction context w).2 = s') ∧
  (∀ r s',
     client_ListPodSandbox (mkListReq None) (svc w) = (Success r, s') →
     let R := items_rendering (cli.Bool context "quiet") (seed w)
                (list_Items r) in
     let rq := ReqList (mkListReq None) in
     (listPodSandboxAction context w).1 =
       match stopped R with None => Ret () | Some p => Panic p end ∧
     trace (listPodSandboxAction context w).2 =
       trace w ++ [EvDial; EvCall rq] ++ (EvWrite <$> lines R) ++ [EvClose] ∧
     svc (listPodSandboxAction context w).2 = s').
Proof.
  intros Hd. split.
  - intros r s' Hid Hrpc R rq. apply with_connection_rendering; [done|].
    rewrite run_PodSandboxStatus by done. cbv zeta.
    change (svc (record EvDial w)) with (svc w). by rewrite Hrpc.
  - intros r s' Hrpc R rq. apply with_connection_rendering; [done|].
    rewrite run_ListPodSandboxes. cbv zeta.
    change (svc (record EvDial w)) with (svc w). by rewrite Hrpc.
Qed.

(** C7: every subcommand of the pod group, run in a world with no open
    connection, ends in a world with no open connection: the trace it
    appends follows the protocol (dial, then reads, calls and writes, then
    close), whether the dial fails, the function returns an error, panics
    or succeeds. *)
Theorem commands_keep_quiescent name strings bools m w :
  cli.run_subcommand podSandboxCommand name strings bools = Some m →
  quiescent w → quiescent (m w).2.
Proof.
  intros (prefix & body & Hbody & ->)%run_subcommand_shape.
  by apply with_connection_quiescent.
Qed.

(** C8: liveness.  Every connection a subcommand opens is closed before
    the subcommand returns: if every dial of the trace was followed by a
    close before the run, so it is after it, whether the run ends by a
    return, an error or a panic. *)
Theorem every_dial_is_closed name strings bools m w :
  cli.run_subcommand podSandboxCommand name strings bools = Some m →
  answered (trace w) → answered (trace (m w).2).
Proof.
  intros (prefix & body & Hbody & ->)%run_subcommand_shape.
  by apply with_connection_answered.
Qed.

(** C21: one invocation is one session.  When the service can be reached,
    what a subcommand adds to the trace is a dial, then events that are
    reads of the configuration, remote calls and writes, with at most one
    remote call among them, then the close of the connection. *)
Theorem command_is_one_session name strings bools m w :
  dial_error = None →
  cli.run_subcommand podSandboxCommand name strings bools = Some m →
  ∃ evs, trace (m w).2 = trace w ++ EvDial :: evs ++ [EvClose] ∧
         Forall inner evs ∧ length (calls evs) ≤ 1.
Proof.
  intros Hd (prefix & body & Hbody & ->)%run_subcommand_shape.
  by apply with_connection_session.
Qed.

(** C12: when the service cannot be reached, every subcommand returns the
    error of the dial behind the prefix failed to connect, and does nothing
    else: no file is read, no call issued, nothing printed. *)
Theorem connect_failure_reported name strings bools m e w :
  dial_error = Some e →
  cli.run_subcommand podSandboxCommand name strings bools = Some m →
  m w = (Err ("failed to connect: " +:+ e), record (EvDialFailed e) w).
Proof.
  intros He (prefix & body & _ & ->)%run_subcommand_shape.
  by rewrite run_with_connection, He.
Qed.

(** C10: an error returned by the lifecycle function reaches the caller of
    the command behind the prefix of that command, after the connection has
    been closed. *)
Theorem error_prefixes context e w w' :
  dial_error = None →
  (RunPodSandbox (cli.String context "config") (cli.String context "name")
     (record EvDial w) = (Err e, w') →
   runPodSandboxAction context w =
   (Err ("Creating the pod sandbox failed: " +:+ e), record EvClose w')) ∧
  (StopPodSandbox (cli.String context "id") (record EvDial w) = (Err e, w') →
   stopPodSandboxAction context w =
   (Err ("stopping the pod sandbox failed: " +:+ e), record EvClose w')) ∧
  (RemovePodSandbox (cli.String context "id") (record EvDial w) = (Err e, w') →
   removePodSandboxAction context w =
   (Err ("removing the pod sandbox failed: " +:+ e), record EvClose w')) ∧
  (PodSandboxStatus (cli.String context "id") (record EvDial w) = (Err e, w') →
   podSandboxStatusAction context w =
   (Err ("getting the pod sandbox status failed: " +:+ e),
    record EvClose w')) ∧
  (ListPodSandboxes (cli.Bool context "quiet") (record EvDial w) = (Err e, w') →
   listPodSandboxAction context w =
   (Err ("listing pod sandboxes failed: " +:+ e), record EvClose w')).
Proof.
  intros Hd. repeat split; intros H;
    (etrans; [apply run_with_connection|]); by rewrite Hd, H.
Qed.

(** C23: a panic of the lifecycle function does not leak the connection:
    create with a name, on a configuration without metadata, panics after
    the file has been read, and the deferred close still runs. *)
Theorem panic_still_closes context config w :
  dial_error = None →
  cli.String context "name" ≠ "" →
  config_file (cli.String context "config") = Success config →
  cfg_Metadata config = None →
  runPodSandboxAction context w =
  (Panic nil_deref,
   record EvClose
     (record (EvLoad (cli.String context "config")) (record EvDial w))).
Proof.
  intros Hd Hname Hfile Hmd.
  etrans; [apply run_with_connection|]. rewrite Hd, run_RunPodSandbox, Hfile.
  unfold override_name. case_decide; [|done]. by rewrite Hmd.
Qed.

(** C34: stop, remove and status without an identifier still dial the
    service before they refuse: the validation error is returned only
    after a connection has been opened and closed. *)
Theorem empty_id_dials_first context w :
  dial_error = None → cli.String context "id" = "" →
  stopPodSandboxAction context w =
    (Err "stopping the pod sandbox failed: ID cannot be empty",
     record EvClose (record EvDial w)) ∧
  removePodSandboxAction context w =
    (Err "removing the pod sandbox failed: ID cannot be empty",
     record EvClose (record EvDial w)) ∧
  podSandboxStatusAction context w =
    (Err "getting the pod sandbox status failed: ID cannot be empty",
     record EvClose (record EvDial w)).
Proof.
  intros Hd Hid. repeat split;
    (etrans; [apply run_with_connection|]); by rewrite Hd, Hid.
Qed.

(** C26: the sessions of create, stop and remove, end to end.  When the
    service can be reached and answers, what the command adds to the trace
    is the dial, the read of the configuration (for a creation), one
    request, the identifier printed on a line of its own, and the close;
    the command returns nil and the service is left in the state the call
    produced. *)
Theorem lifecycle_sessions context w :
  dial_error = None →
  let ID := cli.String context "id" in
  let path := cli.String context "config" in
  (∀ config c r s' id,
     config_file path = Success config →
     override_name (cli.String context "name") config = Some c →
     client_RunPodSandbox (mkRunReq (Some c)) (svc w) = (Success r, s') →
     run_PodSandboxId r = Some id →
     (runPodSandboxAction context w).1 = Ret () ∧
     trace (runPodSandboxAction context w).2 =
       trace w ++
       [EvDial; EvLoad path; EvCall (ReqRun (mkRunReq (Some c)));
        EvWrite (id +:+ nl); EvClose] ∧
     svc (runPodSandboxAction context w).2 = s') ∧
  (∀ r s',
     ID ≠ "" →
     client_StopPodSandbox (mkStopReq (Some ID)) (svc w) = (Success r, s') →
     (stopPodSandboxAction context w).1 = Ret () ∧
     trace (stopPodSandboxAction context w).2 =
       trace w ++
       [EvDial; EvCall (ReqStop (mkStopReq (Some ID))); EvWrite (ID +:+ nl);
        EvClose] ∧
     svc (stopPodSandboxAction context w).2 = s') ∧
  (∀ r s',
     ID ≠ "" →
     client_RemovePodSandbox (mkRemoveReq (Some ID)) (svc w)
       = (Success r, s') →
     (removePodSandboxAction context w).1 = Ret () ∧
     trace (removePodSandboxAction context w).2 =
       trace w ++
       [EvDial; EvCall (ReqRemove (mkRemoveReq (Some ID)));
        EvWrite (ID +:+ nl); EvClose] ∧
     svc (removePodSandboxAction context w).2 = s').
Proof.
  intros Hd ID path. split; [|split].
  - intros config c r s' id Hload Hc Hrpc Hid.
    change (runPodSandboxAction context w) with
      (with_connection "Creating the pod sandbox failed: "
         (RunPodSandbox path (cli.String context "name")) w).
    rewrite (with_connection_writes "Creating the pod sandbox failed: "
               (RunPodSandbox path (cli.String context "name")) [id +:+ nl]
               (after_call (ReqRun (mkRunReq (Some c))) s'
                  (record (EvLoad path) (record EvDial w))) w Hd).
    { repeat split. cbn [snd]. by autorewrite with go. }
    rewrite run_RunPodSandbox, Hload, Hc. cbv zeta.
    change (svc (record (EvLoad path) (record EvDial w))) with (svc w).
    rewrite Hrpc, Hid. by apply run_rendering_pure.
  - intros r s' HID Hrpc.
    change (stopPodSandboxAction context w) with
      (with_connection "stopping the pod sandbox failed: "
         (StopPodSandbox ID) w).
    rewrite (with_connection_writes "stopping the pod sandbox failed: "
               (StopPodSandbox ID) [ID +:+ nl]
               (after_call (ReqStop (mkStopReq (Some ID))) s'
                  (record EvDial w)) w Hd).
    { repeat split. cbn [snd]. by autorewrite with go. }
    rewrite run_StopPodSandbox by done. cbv zeta.
    change (svc (record EvDial w)) with (svc w). by rewrite Hrpc.
  - intros r s' HID Hrpc.
    change (removePodSandboxAction context w) with
      (with_connection "removing the pod sandbox failed: "
         (RemovePodSandbox ID) w).
    rewrite (with_connection_writes "removing the pod sandbox failed: "
               (RemovePodSandbox ID) [ID +:+ nl]
               (after_call (ReqRemove (mkRemoveReq (Some ID))) s'
                  (record EvDial w)) w Hd).
    { repeat split. cbn [snd]. by autorewrite with go. }
    rewrite run_RemovePodSandbox by done. cbv zeta.
    change (svc (record EvDial w)) with (svc w). by rewrite Hrpc.
Qed.

(** ** Sequences of invocations *)

(** What a script reaches, the runs of its invocations reach, in at most
    as many runs as it has invocations. *)
Lemma script_reaches l w : ∃ n, n ≤ length l ∧ reaches w n (script l w).
Proof.
  induction l as [|i l IH] using rev_ind; [exists 0; split; [done|constructor]|].
  destruct IH as (n & Hn & Hr). unfold script in *.
  rewrite foldl_snoc, length_app. unfold invoke at 1.
  destruct (cli.run_subcommand _ _ _ _) as [m|] eqn:Hm; simpl.
  - exists (S n). split; [lia|]. by eapply reaches_invoke.
  - exists n. split; [lia|done].
Qed.

(** C22: an invariant of every sequence of invocations.  Starting from a
    world with no open connection in which every dial was answered, after
    any number of runs of subcommands, whatever their flags and outcomes,
    no connection is open, every dial has been answered by a close, and the
    service has received at most one call per run. *)
Theorem invocations_keep_protocol w0 n w :
  reaches w0 n w → quiescent w0 → answered (trace w0) →
  quiescent w ∧ answered (trace w) ∧
  length (calls (trace w)) ≤ length (calls (trace w0)) + n.
Proof.
  intros Hr Hq Ha.
  induction Hr as [|n w name strings bools m _ (IHq & IHa & IHc) Hm];
    [repeat split; [done..|lia]|].
  apply run_subcommand_shape in Hm as (prefix & body & Hbody & ->).
  split; [by apply with_connection_quiescent|].
  split; [by apply with_connection_answered|].
  etrans; [by apply with_connection_calls|]. lia.
Qed.

(** ** The commands against the pipeline *)

(** A closure around the exchange of a line is the session of the line. *)
Lemma with_connection_pipeline prefix body l w :
  l_prefix l = prefix → exchanges body l →
  with_connection prefix body w =
  (report prefix (ended (session l (svc w) (seed w))),
   after (session l (svc w) (seed w)) w).
Proof.
  intros <- Hbody. rewrite run_with_connection. unfold session.
  destruct dial_error as [e|].
  { unfold after, record. cbn. by rewrite Nat.add_0_r. }
  rewrite Hbody. cbv zeta. cbn [fst snd ended svc seed record].
  rewrite exchange_report. f_equal. unfold after, record, loaded. cbn.
  f_equal. by rewrite <-!app_assoc.
Qed.

(** The table of the commands read against the table of the pipeline,
    name by name. *)
Lemma subcommand_cases name strings bools :
  match cli.run_subcommand podSandboxCommand name strings bools with
  | Some m =>
      ∃ l, pod_line name strings bools = Some l ∧
           ∀ w, m w = (report (l_prefix l) (ended (session l (svc w) (seed w))),
                       after (session l (svc w) (seed w)) w)
  | None => pod_line name strings bools = None
  end.
Proof.
  unfold cli.run_subcommand, cli.find_subcommand, pod_line. simpl.
  repeat case_decide; simpl; [eexists; split; [reflexivity|]; intros w;
    apply with_connection_pipeline; [done|]..|done];
    auto using RunPodSandbox_exchanges, StopPodSandbox_exchanges,
      RemovePodSandbox_exchanges, PodSandboxStatus_exchanges,
      ListPodSandboxes_exchanges.
Qed.

Lemma run_subcommand_line name strings bools m :
  cli.run_subcommand podSandboxCommand name strings bools = Some m →
  ∃ l, pod_line name strings bools = Some l ∧
       ∀ w, m w = (report (l_prefix l) (ended (session l (svc w) (seed w))),
                   after (session l (svc w) (seed w)) w).
Proof. intros Hm. pose proof (subcommand_cases name strings bools). by rewrite Hm in *. Qed.

(** C1: refinement.  The command group implements the pipeline of the
    design.  A name is a subcommand of the group exactly when the pipeline
    has a line for it, and then the run of its closure, in every world,
    returns what the session of the line reports and leaves the world the
    session leaves: the same events in the same order, the same state of
    the service, the same number of map traversals.  The defaults of the
    flags, the test of the identifier, the override of the name, the one
    remote call, the rendering of the answer, the prefix of the errors and
    the close of the connection on every way out are all in the equation. *)
Theorem commands_refine_pipeline name strings bools :
  option_Forall2 (λ m spec, ∀ w, m w = spec w)
    (cli.run_subcommand podSandboxCommand name strings bools)
    (pod_spec name strings bools).
Proof.
  pose proof (subcommand_cases name strings bools) as H. unfold pod_spec.
  destruct (cli.run_subcommand _ _ _ _) as [m|].
  - destruct H as (l & -> & Hm). by constructor.
  - rewrite H. constructor.
Qed.

(** C15: the error taxonomy.  An error returned by a subcommand is the
    message of a kind of failure behind the prefix of the
    command: the dial failed, and nothing else happened; or the identifier
    was empty, or the configuration could not be loaded, and no request was
    sent; or the service failed the one request that was sent.  In every
    case nothing was printed and no map was ranged over. *)
Theorem failures_classified name strings bools m e w :
  cli.run_subcommand podSandboxCommand name strings bools = Some m →
  (m w).1 = Err e →
  ∃ l f evs,
    pod_line name strings bools = Some l ∧ e = message (l_prefix l) f ∧
    trace (m w).2 = trace w ++ evs ∧
    explained l (svc w) f evs (svc (m w).2) ∧
    writes evs = [] ∧ seed (m w).2 = seed w.
Proof.
  intros (l & Hl & Hm)%run_subcommand_line. rewrite Hm. cbn [fst snd].
  destruct (ended _) as [|f|] eqn:Hx; intros [= <-].
  apply session_failed in Hx as (Hw & Hn & Hf).
  exists l, f, (events (session l (svc w) (seed w))).
  unfold after. cbn [trace svc seed]. by rewrite Hn, Nat.add_0_r.
Qed.

(** C14: the safety condition of the commands.  A subcommand panics
    exactly when the service is reached and either the builder of its line
    crashes (a name is given for a configuration without metadata) or the
    service answers with something that cannot be printed; the panic is
    then a nil dereference. *)
Theorem commands_crash_iff name strings bools m p w :
  cli.run_subcommand podSandboxCommand name strings bools = Some m →
  (m w).1 = Panic p ↔
  p = nil_deref ∧ dial_error = None ∧
  ∃ l, pod_line name strings bools = Some l ∧ crashes l (svc w).
Proof.
  intros (l & Hl & Hm)%run_subcommand_line. rewrite Hm, Hl. cbn [fst].
  pose proof (λ q, pod_line_crash _ _ _ _ q Hl) as Hnil. split.
  - intros Hp.
    assert (ended (session l (svc w) (seed w)) = Crashed p) as Hx
      by (destruct (ended _); by simplify_eq/=).
    split; [by eapply session_crash_nil|].
    destruct (proj1 (session_crashed_iff l (svc w) (seed w))); eauto.
  - intros (-> & Hd & l' & [= <-] & Hc).
    destruct (proj2 (session_crashed_iff l (svc w) (seed w))) as [q Hq];
      [done|].
    rewrite Hq. simpl. f_equal. by eapply session_crash_nil.
Qed.

End Commands.

(** ** The theorems at concrete inputs *)

Lemma commands_keep_quiescent_witness :
  quiescent
    (stopPodSandboxAction (host:=sample_host) stop_s1 (start sample_table)).2.
Proof.
  apply (commands_keep_quiescent (host:=sample_host) "stop"
           {["id" := "s1"]} ∅); [reflexivity|constructor].
Defined.

Lemma every_dial_is_closed_witness :
  answered
    (trace (runPodSandboxAction (host:=sample_host)
              (cli.mkContext runPodSandboxFlags {["config" := "none.json"]} ∅)
              (mkWorld [EvDial; EvClose] sample_table 0)).2).
Proof.
  apply (every_dial_is_closed (host:=sample_host) "create"
           {["config" := "none.json"]} ∅);
    [reflexivity|apply answeredb_spec; exact I].
Defined.

Lemma command_is_one_session_witness :
  ∃ evs,
    trace (listPodSandboxAction (host:=sample_host)
             (cli.mkContext listPodSandboxFlags ∅ {["quiet" := true]})
             (start sample_table)).2 =
      trace (start sample_table) ++ EvDial :: evs ++ [EvClose] ∧
    Forall inner evs ∧ length (calls evs) ≤ 1.
Proof.
  apply (command_is_one_session (host:=sample_host) "list" ∅
           {["quiet" := true]}); reflexivity.
Defined.

Lemma connect_failure_reported_witness :
  listPodSandboxAction (host:=unreachable_host)
    (cli.mkContext listPodSandboxFlags ∅ ∅) (start sample_table) =
  (Err "failed to connect: connection refused",
   record (EvDialFailed "connection refused") (start sample_table)).
Proof.
  apply (connect_failure_reported (host:=unreachable_host) "list" ∅ ∅);
    reflexivity.
Defined.

Lemma error_prefixes_witness :
  stopPodSandboxAction (host:=sample_host) (client:=failing_service "gone")
    stop_s1 (start 0) =
  (Err "stopping the pod sandbox failed: gone",
   record EvClose
     (after_call (ReqStop (mkStopReq (Some "s1"))) 1
        (record EvDial (start 0)))).
Proof.
  apply (proj1 (proj2 (error_prefixes (host:=sample_host)
                         (client:=failing_service "gone") stop_s1 "gone"
                         (start 0) _ eq_refl))).
  reflexivity.
Defined.

Lemma panic_still_closes_witness :
  let host := stub_host {["bare.json" := mkConfig None ∅]} None in
  let context :=
    cli.mkContext runPodSandboxFlags
      {["config" := "bare.json"; "name" := "B"]} ∅ in
  runPodSandboxAction (host:=host) context (start sample_table) =
  (Panic nil_deref,
   record EvClose
     (record (EvLoad "bare.json") (record EvDial (start sample_table)))).
Proof.
  intros host context.
  apply (panic_still_closes (host:=host) context (mkConfig None ∅));
    [reflexivity|done|reflexivity|reflexivity].
Defined.

Lemma empty_id_dials_first_witness :
  stopPodSandboxAction (host:=sample_host)
    (cli.mkContext stopPodSandboxFlags ∅ ∅) (start sample_table) =
  (Err "stopping the pod sandbox failed: ID cannot be empty",
   record EvClose (record EvDial (start sample_table))).
Proof.
  apply (empty_id_dials_first (host:=sample_host)
           (cli.mkContext stopPodSandboxFlags ∅ ∅));
    [reflexivity|vm_compute; reflexivity].
Defined.

Lemma commands_print_renderings_witness :
  trace (listPodSandboxAction (host:=sample_host)
           (cli.mkContext listPodSandboxFlags ∅ {["quiet" := true]})
           (start sample_table)).2 =
  [EvDial; EvCall (ReqList (mkListReq None)); EvWrite ("s1" +:+ nl);
   EvWrite ("s2" +:+ nl); EvClose].
Proof.
  destruct (proj2 (commands_print_renderings (host:=sample_host)
                     (cli.mkContext listPodSandboxFlags ∅ {["quiet" := true]})
                     (start sample_table) eq_refl)
              (mkListResp [Some (summary full_status);
                           Some (summary stopped_status)]) sample_table)
    as (_ & Htrace & _); [vm_compute; reflexivity|exact Htrace].
Defined.

Lemma lifecycle_sessions_witness :
  trace (stopPodSandboxAction (host:=sample_host) stop_s1
           (start sample_table)).2 =
  [EvDial; EvCall (ReqStop (mkStopReq (Some "s1"))); EvWrite ("s1" +:+ nl);
   EvClose].
Proof.
  destruct (proj1 (proj2 (lifecycle_sessions (host:=sample_host) stop_s1
                            (start sample_table) eq_refl))
              mkStopResp _ ltac:(done) ltac:(vm_compute; reflexivity))
    as (_ & Htrace & _).
  exact Htrace.
Defined.

Lemma invocations_keep_protocol_witness :
  let w := script (host:=sample_host)
             [mkInvocation "stop" {["id" := "s1"]} ∅;
              mkInvocation "list" ∅ {["quiet" := true]}]
             (start sample_table) in
  quiescent w ∧ answered (trace w) ∧ length (calls (trace w)) ≤ 0 + 2.
Proof.
  intros w.
  apply (invocations_keep_protocol (host:=sample_host) (start sample_table));
    [|constructor|by intros [|i]].
  eapply (reaches_invoke _ 1 _ "list" ∅ {["quiet" := true]});
    [|reflexivity].
  eapply (reaches_invoke _ 0 _ "stop" {["id" := "s1"]} ∅);
    [constructor|reflexivity].
Defined.

Lemma failures_classified_witness :
  let m : Go (World table) () :=
    stopPodSandboxAction (host:=sample_host)
             (cli.mkContext stopPodSandboxFlags {["id" := "zz"]} ∅) in
  let w := start sample_table in
  ∃ l f evs,
    pod_line (host:=sample_host) "stop" {["id" := "zz"]} ∅ = Some l ∧
    "stopping the pod sandbox failed: sandbox zz not found" =
      message (l_prefix l) f ∧
    trace (m w).2 = trace w ++ evs ∧
    explained (host:=sample_host) l (svc w) f evs (svc (m w).2) ∧
    writes evs = [] ∧ seed (m w).2 = seed w.
Proof.
  intros m w.
  apply (failures_classified (host:=sample_host) "stop" {["id" := "zz"]} ∅
           m _ w); [reflexivity|vm_compute; reflexivity].
Defined.

Lemma commands_crash_iff_witness :
  let host := stub_host {["bare.json" := mkConfig None ∅]} None in
  let strings : gmap string string :=
    {["config" := "bare.json"; "name" := "B"]} in
  let m : Go (World table) () :=
    runPodSandboxAction (host:=host)
             (cli.mkContext runPodSandboxFlags strings ∅) in
  (m (start sample_table)).1 = Panic nil_deref ↔
  nil_deref = nil_deref ∧ @dial_error host = None ∧
  ∃ l, pod_line (host:=host) "create" strings ∅ = Some l ∧
       crashes l sample_table.
Proof.
  intros host strings m.
  apply (commands_crash_iff (host:=host) "create" strings ∅ m nil_deref
           (start sample_table)).
  reflexivity.
Defined.

(** The pipeline run on the sample table: a creation, then the status of
    the sandbox created. *)
Example pipeline_examples :
  let w := start sample_table in
  from_option (λ spec, spec w) (Ret (), w)
    (pod_spec (host:=sample_host) "create" {["name" := "B"]} ∅) =
  (Ret (),
   mkWorld
     [EvDial; EvLoad "config.json";
      EvCall (ReqRun (mkRunReq (Some
        (mkConfig (Some (renamed "B" sample_metadata))
           {["hostname" := "h1"]}))));
      EvWrite ("pod2" +:+ nl); EvClose]
     (table_run (mkRunReq (Some
        (mkConfig (Some (renamed "B" sample_metadata))
           {["hostname" := "h1"]}))) sample_table).2 0) ∧
  pod_spec (St:=table) (host:=sample_host) "restart" ∅ ∅ = None.
Proof. split; reflexivity. Qed.
