(* ===== verification/Contract.v ===== *)
(** * Contract: the client against the contract of the service

    The theorems of [Sandbox] and [Commands] hold whatever the service
    answers.  The theorems of this file are those that need the service to
    keep its word: they are proved from the laws of [ServiceContract]
    alone, for every service that has them, at every world a sequence of
    invocations can reach.  Under the contract an invocation that fails
    has changed nothing, the status and list commands leave the service as
    they found it and print the same text when they are run again, and no
    command crashes on an answer, provided the answers to the commands
    that print details are [thorough]: the program dereferences more
    fields than the contract promises.  The last part discharges the
    assumptions for the service that keeps a table. *)

From S2P Require Import Prelude Blocks GoRuntime Proto World Protocol Stubs.
From S2P Require Import Render Pipeline Sandbox Commands.

Section Contract.
Context {St : Type} {host : Host} {client : RuntimeServiceClient St}.
Context (inv : St → Prop) {contract : ServiceContract client inv}.
Implicit Types (w : World St) (s : St).

(** Every configuration the host can load has a metadata block. *)
Definition configs_named : Prop :=
  ∀ path config,
    config_file path = Success config → is_Some (cfg_Metadata config).

(** The subcommands that print more than identifiers. *)
Definition detailed (name : string) (bools : gmap string bool) : Prop :=
  name = "status" ∨ (name = "list" ∧ default false (bools !! "quiet") = false).

(** The answers of the service carry every field the program dereferences
    without a test. *)
Definition thorough : Prop :=
  ∀ rq s resp s',
    inv s → serve rq s = (Success resp, s') → printable false resp.

(** The subcommands that observe: they ask and print, and are not meant
    to change the service. *)
Definition observer (name : string) : Prop := name = "status" ∨ name = "list".

(** What an invocation leaves untouched between the world [w] it starts in
    and the world [w'] it ends in: the service, the standard output and
    the count of the maps ranged over. *)
Definition untouched w w' : Prop :=
  svc w' = svc w ∧ stdout w' = stdout w ∧ seed w' = seed w.

(** ** The invariant of the service along the runs *)

Lemma session_inv l s n : inv s → inv (service (session l s n)).
Proof.
  intros Hs. destruct (session_service l s n) as [->|(rq & _ & ->)]; [done|].
  by apply serve_inv.
Qed.

Lemma subcommand_inv name strings bools m w :
  cli.run_subcommand podSandboxCommand name strings bools = Some m →
  inv (svc w) → inv (svc (m w).2).
Proof.
  intros (l & _ & Hm)%run_subcommand_line Hw. rewrite Hm. by apply session_inv.
Qed.

(** Rule induction on [reaches]: the service never leaves its
    invariant. *)
Lemma reaches_inv w0 n w : reaches w0 n w → inv (svc w0) → inv (svc w).
Proof. induction 1; eauto using subcommand_inv. Qed.

(** The status and list commands leave the service as they found it. *)
Lemma observer_service name strings bools l s n :
  pod_line name strings bools = Some l →
  name = "status" ∨ name = "list" → inv s →
  service (session l s n) = s.
Proof.
  intros Hl Hname Hs.
  destruct (session_service l s n) as [->|(rq & Hb & ->)]; [done|].
  eapply serve_observes; [done|]. by eapply pod_line_observes.
Qed.

(** ** What the contract gives the renderer *)

Lemma printable_quiet quiet resp : printable false resp → printable quiet resp.
Proof.
  destruct resp as [| | |r|r]; simpl; try done.
  intros H. eapply Forall_impl; [exact H|].
  intros item (pod & -> & Hid & Ht). exists pod. auto.
Qed.

(** A well-formed answer that is not a status prints in quiet mode. *)
Lemma wf_printable rq resp :
  wf_response rq resp →
  match resp with RespStatus _ => False | _ => True end →
  printable true resp.
Proof.
  destruct resp as [| | |r|r]; simpl; try done.
  intros H _. eapply Forall_impl; [exact H|].
  intros item (pod & -> & Hid). by exists pod.
Qed.

(** The answer to the request of a line of the group can be printed,
    by the contract alone unless the line prints details. *)
Lemma line_printable name strings bools l rq s resp s' :
  pod_line name strings bools = Some l → l_built l = Send rq →
  inv s → serve rq s = (Success resp, s') →
  (detailed name bools → thorough) →
  printable (l_quiet l) resp.
Proof.
  intros Hl Hb Hs Hserve Hd.
  pose proof (pod_line_built _ _ _ _ _ Hl Hb) as Hk.
  pose proof (serve_kind _ _ _ _ Hserve) as Hr.
  pose proof (serve_wf _ _ _ _ Hs Hserve) as Hwf.
  destruct rq, resp; try done.
  - apply printable_quiet, (Hd (or_introl Hk) _ _ _ _ Hs Hserve).
  - destruct Hk as [-> Hq]. destruct (l_quiet l) eqn:Hquiet.
    + by apply (wf_printable (ReqList r)).
    + eapply (Hd (or_intror (conj eq_refl (eq_sym Hq))) _ _ _ _ Hs Hserve).
Qed.

(** ** Properties under the contract *)

(** C16: safety under the contract.  Against a service that keeps its
    contract, on a host whose configurations all have a metadata block,
    no subcommand panics, however many invocations came before: create,
    stop, remove and the quiet list by the contract alone (the service
    returns the identifiers it promises), status and the full list provided
    the answers are thorough, since these two dereference fields the
    contract leaves optional. *)
Theorem contract_runs_never_crash w0 n w name strings bools m :
  configs_named → inv (svc w0) → reaches w0 n w →
  cli.run_subcommand podSandboxCommand name strings bools = Some m →
  (detailed name bools → thorough) →
  ∀ p, (m w).1 ≠ Panic p.
Proof.
  intros Hc H0 Hr Hm Hd p Hp. pose proof (reaches_inv _ _ _ Hr H0) as Hw.
  apply run_subcommand_line in Hm as (l & Hl & Hm).
  rewrite Hm in Hp. cbn [fst] in Hp.
  assert (∃ q, ended (session l (svc w) (seed w)) = Crashed q) as Hx
    by (destruct (ended _); simplify_eq/=; eauto).
  apply session_crashed_iff in Hx as [_ Hx]. unfold crashes in Hx.
  destruct (l_built l) as [rq| | |q] eqn:Hb; try done.
  - destruct Hx as (resp & s' & Hserve & Hnp). apply Hnp.
    by eapply line_printable.
  - destruct (pod_line_crash_config _ _ _ _ _ Hl Hb)
      as (path & config & Hf & Hmd).
    destruct (Hc _ _ Hf) as [md Hmd']. congruence.
Qed.

(** C17: all or nothing.  Against a service that keeps its contract, an
    invocation that returns an error has changed nothing: the service is in
    the state it was in, nothing was printed and no map was ranged over,
    whether the dial, the validation, the loading of the configuration or
    the remote call failed. *)
Theorem failed_run_changes_nothing w0 n w name strings bools m e :
  inv (svc w0) → reaches w0 n w →
  cli.run_subcommand podSandboxCommand name strings bools = Some m →
  (m w).1 = Err e → untouched w (m w).2.
Proof.
  intros H0 Hr (l & Hl & Hm)%run_subcommand_line.
  pose proof (reaches_inv _ _ _ Hr H0) as Hw. rewrite Hm. cbn [fst snd].
  destruct (ended _) as [|f|] eqn:Hx; intros [= <-].
  apply session_failed in Hx as (Hwr & Hn & Hf).
  unfold untouched, stdout, after. cbn [trace svc seed].
  rewrite writes_app, Hwr, Hn, app_nil_r, Nat.add_0_r. split; [|done].
  destruct f; simpl in Hf; try tauto.
  destruct Hf as (rq & _ & Hserve & _). by eapply serve_failure.
Qed.

(** C29: observing twice.  Against a service that keeps its contract, the
    status and list commands leave the service in the state they found it
    in, and a second run of the same command ends as the first and prints
    the same text up to the order of the entries inside each block of
    labels or annotations; on a host that ranges over maps in a fixed
    order the second run prints exactly what the first printed. *)
Theorem observing_twice w0 n w name strings bools m :
  inv (svc w0) → reaches w0 n w →
  cli.run_subcommand podSandboxCommand name strings bools = Some m →
  observer name →
  svc (m w).2 = svc w ∧ (m (m w).2).1 = (m w).1 ∧
  ∃ ls1 ls2,
    stdout (m w).2 = stdout w ++ ls1 ∧
    stdout (m (m w).2).2 = stdout (m w).2 ++ ls2 ∧
    blockwise ls1 ls2 ∧
    ((∀ k1 k2 l, range_order k1 l = range_order k2 l) → ls2 = ls1).
Proof.
  intros H0 Hr (l & Hl & Hm)%run_subcommand_line Hname.
  pose proof (reaches_inv _ _ _ Hr H0) as Hw. rewrite !Hm. cbn [fst snd].
  set (x := session l (svc w) (seed w)).
  assert (svc (after x w) = svc w) as Hsvc
    by by apply (observer_service name strings bools).
  rewrite Hsvc.
  destruct (session_again l (svc w) (seed w) (seed (after x w)))
    as (He & _ & Hb & Hfix).
  split; [done|]. split; [by rewrite <-He|].
  exists (writes (events x)),
    (writes (events (session l (svc w) (seed (after x w))))).
  unfold stdout. split; [apply writes_app|]. split; [apply writes_app|].
  split; [exact Hb|]. intros H. by rewrite <-(Hfix H).
Qed.

End Contract.

(** ** The service that keeps a table *)

#[export] Instance status_complete_dec st : Decision (status_complete st).
Proof.
  refine (cast_if
    (decide (stopped (status_rendering (host:=fixed_host) 0 st) = None)));
    by rewrite <-(status_completes_iff (host:=fixed_host) 0).
Defined.

(** What the program needs of a sandbox of the table to print it in full:
    the fields it dereferences, the creation time among them. *)
Definition detailed_status (st : pb.PodSandboxStatus) : Prop :=
  status_complete st ∧ is_Some (st_CreatedAt st).

#[export] Instance detailed_status_dec st : Decision (detailed_status st).
Proof. unfold detailed_status. apply _. Defined.

#[export] Instance detailed_status_lasting : Lasting detailed_status.
Proof.
  split; [by repeat split; eauto|]. intros s st [(Hid & Hl & Hn) Ht].
  by repeat split.
Qed.

(** The answers of the table service are thorough when its sandboxes
    are. *)
Lemma table_thorough : thorough (table_all detailed_status).
Proof.
  intros rq t resp t' Ht. destruct rq as [r|r|r|r|r]; simpl; unfold answer;
    unfold table_run, table_stop, table_remove, table_status, table_list;
    [destruct (run_Config r)|cases_with_sandbox..|]; simpl;
    intros [= <- <-]; simpl; eauto.
  { eexists. split; [done|]. by eapply Ht. }
  apply Forall_fmap, Forall_forall. intros [k st] Hk%elem_of_map_to_list.
  destruct (Ht _ _ Hk) as (Hid & _ & Hc). exists (summary st). simpl.
  rewrite Hid. eauto.
Qed.

(** The configurations of the sample host have a metadata block. *)
Lemma sample_configs_named : configs_named (host:=sample_host).
Proof.
  intros path config. simpl. destruct (sample_files !! path) eqn:H; [|done].
  intros [= <-]. unfold sample_files in H.
  apply lookup_singleton_Some in H as [_ <-]. eauto.
Qed.

(** ** The theorems at concrete inputs *)

(** The sample table after a creation. *)
Definition after_create : World table :=
  script (host:=sample_host) [mkInvocation "create" ∅ ∅] (start sample_table).

Lemma reaches_after_create :
  reaches (host:=sample_host) (start sample_table) 1 after_create.
Proof.
  eapply (reaches_invoke _ 0 _ "create" ∅ ∅); [constructor|reflexivity].
Qed.

Lemma sample_table_detailed : table_all detailed_status sample_table.
Proof. by_compute. Qed.

Lemma contract_runs_never_crash_witness :
  table_all detailed_status (svc after_create) ∧
  ∀ p,
    (podSandboxStatusAction (host:=sample_host)
       (cli.mkContext podSandboxStatusFlags {["id" := "s1"]} ∅)
       after_create).1 ≠ Panic p.
Proof.
  split; [by_compute|].
  apply (contract_runs_never_crash (host:=sample_host)
           (table_all detailed_status) (start sample_table) 1 after_create
           "status" {["id" := "s1"]} ∅);
    [exact sample_configs_named|exact sample_table_detailed
    |exact reaches_after_create|reflexivity|intros _; exact table_thorough].
Defined.

Lemma failed_run_changes_nothing_witness :
  let m : Go (World table) () :=
    stopPodSandboxAction (host:=sample_host)
             (cli.mkContext stopPodSandboxFlags {["id" := "zz"]} ∅) in
  untouched after_create (m after_create).2.
Proof.
  intros m.
  apply (failed_run_changes_nothing (host:=sample_host)
           (table_all detailed_status) (start sample_table) 1 after_create
           "stop" {["id" := "zz"]} ∅ m
           "stopping the pod sandbox failed: sandbox zz not found");
    [exact sample_table_detailed|exact reaches_after_create|reflexivity
    |vm_compute; reflexivity].
Defined.

Lemma observing_twice_witness :
  let m : Go (World table) () :=
    podSandboxStatusAction (host:=sample_host)
             (cli.mkContext podSandboxStatusFlags {["id" := "s1"]} ∅) in
  svc (m after_create).2 = svc after_create ∧
  (m (m after_create).2).1 = (m after_create).1 ∧
  ∃ ls1 ls2,
    stdout (m after_create).2 = stdout after_create ++ ls1 ∧
    stdout (m (m after_create).2).2 = stdout (m after_create).2 ++ ls2 ∧
    blockwise ls1 ls2 ∧
    ((∀ k1 k2 l, @range_order sample_host k1 l = @range_order sample_host k2 l) →
     ls2 = ls1).
Proof.
  intros m.
  apply (observing_twice (host:=sample_host) (table_all detailed_status)
           (start sample_table) 1 after_create "status" {["id" := "s1"]} ∅ m);
    [exact sample_table_detailed|exact reaches_after_create|reflexivity
    |by left].
Defined.
